(** * strgen: the telemetry synthesis handler of the Go back end

    A shallow embedding of [HandleGenerateFileSingleMarker] and the
    functions it calls (package [rest]).

    - Go's [float64] is Rocq's primitive binary64 [float]: [+], [-], [*],
      [/], [sqrt] and the comparisons are the IEEE-754 operations the
      compiled Go code executes (amd64: no fused multiply-add).
    - Go's [int] is [Z]; the one addition that can leave the 64-bit range
      is written with [wrap64].
    - A slice is a [list]; indexing, [make] and re-slicing return an
      [outcome] that records the run-time panic Go raises out of range.
      Memory exhaustion is not modelled.
    - The ambient pseudo-random source ([golang.org/x/exp/rand]) is a state
      threaded through a small state-and-panic monad.
    - The Go [math] package, the random source, the HTTP call to the route
      provider and the XML parser are not part of the repository: they are
      the variables of [Section Rest]. *)

From Stdlib Require Import String ZArith List Lia Bool Floats.
From Stdlib Require Uint63.
Import ListNotations.

Set Warnings "-inexact-float".
Open Scope Z_scope.

(** ** Go integers and conversions *)

Definition wrap64 (z : Z) : Z := (z + 2 ^ 63) mod 2 ^ 64 - 2 ^ 63.

(** [float64(i)] for an [int] i: rounding to nearest, ties to even. *)
Definition float64_of_int (z : Z) : float :=
  SF2Prim (binary_normalize prec emax z 0 false).

(** The value [int(f)] yields when [f] is NaN, infinite or outside the range
    of [int]: Go leaves it to the implementation; amd64's CVTTSD2SQ returns
    the "integer indefinite" value. *)
Definition int_indefinite : Z := - 2 ^ 63.

(** [int(f)] for a [float64] f: truncation toward zero. *)
Definition int_of_float64 (f : float) : Z :=
  match Prim2SF f with
  | S754_zero _ => 0
  | S754_finite s m e =>
      let mag := Z.shiftl (Zpos m) e in
      let v := if s then - mag else mag in
      if (- 2 ^ 63 <=? v) && (v <? 2 ^ 63) then v else int_indefinite
  | S754_infinity _ | S754_nan => int_indefinite
  end.

(** ** Panics, outcomes and the state monad *)

Inductive panic : Type :=
| IndexOutOfRange (i len : Z)
| MakeLenOutOfRange (n : Z)
| SliceBoundsOutOfRange (hi len : Z).

Inductive outcome (A : Type) : Type :=
| Done (a : A)
| Panicked (p : panic).
Arguments Done {A} a.
Arguments Panicked {A} p.

Definition M (S A : Type) : Type := S -> outcome (A * S).

Definition ret {S A} (a : A) : M S A := fun s => Done (a, s).

Definition bind {S A B} (m : M S A) (k : A -> M S B) : M S B :=
  fun s => match m s with
           | Done (a, s') => k a s'
           | Panicked p => Panicked p
           end.

Definition lift {S A} (o : outcome A) : M S A :=
  fun s => match o with
           | Done a => Done (a, s)
           | Panicked p => Panicked p
           end.

Declare Scope go_scope.
Delimit Scope go_scope with go.
Notation "x <- m ;; k" := (bind m (fun x => k))
  (at level 61, m at next level, right associativity) : go_scope.
Notation "' pat <- m ;; k" := (bind m (fun x => match x with pat => k end))
  (at level 61, pat pattern, m at next level, right associativity) : go_scope.
Open Scope go_scope.

(** ** Slices *)

Definition len {A} (l : list A) : Z := Z.of_nat (length l).

(** [make([]T, n)]. *)
Definition make {A} (zero : A) (n : Z) : outcome (list A) :=
  if n <? 0 then Panicked (MakeLenOutOfRange n)
  else Done (repeat zero (Z.to_nat n)).

(** [l[i]] read. *)
Definition get {A} (l : list A) (i : Z) : outcome A :=
  if i <? 0 then Panicked (IndexOutOfRange i (len l))
  else match nth_error l (Z.to_nat i) with
       | Some v => Done v
       | None => Panicked (IndexOutOfRange i (len l))
       end.

Fixpoint update {A} (l : list A) (n : nat) (v : A) : list A :=
  match l, n with
  | [], _ => []
  | _ :: t, O => v :: t
  | h :: t, S n' => h :: update t n' v
  end.

(** [l[i] = v]. *)
Definition set {A} (l : list A) (i : Z) (v : A) : outcome (list A) :=
  if (0 <=? i) && (i <? len l) then Done (update l (Z.to_nat i) v)
  else Panicked (IndexOutOfRange i (len l)).

(** [l[:n]], at the call sites of this package, where [n] never exceeds
    the length (beyond it Go compares with the capacity). *)
Definition slice_to {A} (l : list A) (n : Z) : outcome (list A) :=
  if (0 <=? n) && (n <=? len l) then Done (firstn (Z.to_nat n) l)
  else Panicked (SliceBoundsOutOfRange n (len l)).

(** ** Loops *)

Inductive ctl (T : Type) : Type :=
| Next (t : T)
| Break (t : T).
Arguments Next {T} t.
Arguments Break {T} t.

Fixpoint for_loop {S T} (n : nat) (i : Z) (body : Z -> T -> M S (ctl T)) (t : T)
  : M S T :=
  match n with
  | O => ret t
  | Datatypes.S n' =>
      c <- body i t ;;
      match c with
      | Next t' => for_loop n' (i + 1) body t'
      | Break t' => ret t'
      end
  end.

(** [for i := lo; i < hi; i++ { body }], the body leaving [i] and [hi]
    alone; [Break] is Go's [break]. *)
Definition for_range {S T} (lo hi : Z) (body : Z -> T -> M S (ctl T)) (t : T)
  : M S T :=
  for_loop (Z.to_nat (hi - lo)) lo body t.

(** [for i, v := range l { body }]. *)
Definition for_each {S A T} (l : list A) (body : Z -> A -> T -> M S (ctl T)) (t : T)
  : M S T :=
  for_range 0 (len l)
    (fun i t => v <- lift (get l i) ;; body i v t) t.

(** ** Weakest preconditions

    [wpx E m s Q]: from state [s] the computation [m] ends in a value and a
    state that satisfy [Q]; a panic counts as [E]. [E := False] is total
    correctness, [E := True] partial correctness. *)

Definition wpx {S A} (E : Prop) (m : M S A) (s : S) (Q : A -> S -> Prop) : Prop :=
  match m s with
  | Done (a, s') => Q a s'
  | Panicked _ => E
  end.

Abbreviation wp := (wpx False).
Abbreviation wlp := (wpx True).

(** ** Data of package [rest] *)

(** A Go [(T, error)] result. *)
Inductive or_error (A : Type) : Type :=
| Value (a : A)
| Error (msg : string).
Arguments Value {A} a.
Arguments Error {A} msg.

(** [Trkpt], the fields the handler reads and writes ([Time] and
    [Extensions] stay at their zero values throughout). *)
Record Trkpt : Type := mkTrkpt { Lat : float; Lon : float; Ele : float }.

Record Coordinate : Type := mkCoordinate { cLat : float; cLon : float; cEle : float }.

Record StartCoords : Type := mkStartCoords { sLat : float; sLon : float }.

Record GenerateGPXRequest : Type := mkRequest
  { startCoords : StartCoords; RouteLength : Z; RouteType : string }.

(** [time.Time] as nanoseconds since the epoch, [time.Duration] as [int64]
    nanoseconds. *)
Definition Time := Z.
Definition Second : Z := 1000000000.
Definition Time_Add (t : Time) (d : Z) : Time := t + d.

Record GPXDataResult : Type := mkResult
  { Timestamps : list Time;
    BPMProfile : list Z;
    PaceProfile : list float;
    Route : list Coordinate }.

(** What the handler hands to [c.JSON]. *)
Inductive payload : Type :=
| ErrorJSON (msg : string)
| ResultJSON (r : GPXDataResult).

Record response : Type := mkResponse { status : Z; body : payload }.

(** ** The packages the handler imports *)

Class MathPkg : Type :=
  { Exp : float -> float;
    Sin : float -> float;
    Cos : float -> float;
    Asin : float -> float;
    Atan2 : float -> float -> float;
    Mod : float -> float -> float }.

(** [math.Sqrt] is the correctly rounded IEEE square root. *)
Definition Sqrt (x : float) : float := PrimFloat.sqrt x.
Definition Pi : float := 0x1.921fb54442d18p+1%float.

(** The global source of [golang.org/x/exp/rand]: [Intn] is only ever
    called with 3. *)
Class RandPkg : Type :=
  { Src : Type;
    NormFloat64 : Src -> float * Src;
    Intn : Z -> Src -> Z * Src }.

(** The route provider and the GPX parser ([fetchRoundTripRoute] performs
    the HTTP call, [parseGPX] rests on [encoding/xml] and [strconv]). *)
Class Upstream : Type :=
  { fetchRoundTripRoute : float * float -> string -> Z -> Z -> string -> or_error string;
    parseGPX : string -> or_error (list Trkpt) }.

Definition API_KEY : string :=
  "5b3ce3597851110001cf6248131e72cedf2e4c9088dd6f792dc8c200"%string.

Section Rest.
Context {math : MathPkg} {rand : RandPkg} {up : Upstream}.

#[local] Abbreviation G := (M Src).

Definition normFloat64 : G float := fun s => Done (NormFloat64 s).
Definition intn (n : Z) : G Z := fun s => Done (Intn n s).

(** [l[i] = v] as a loop body that goes on. *)
Definition store {A} (l : list A) (i : Z) (v : A) : G (ctl (list A)) :=
  l' <- lift (set l i v) ;; ret (Next l').

(** *** Geodesy *)

Definition EarthRadius : float := 6371000%float.

Definition haversineDistance (lat1 lon1 lat2 lon2 : float) : float :=
  let dLat := ((lat2 - lat1) * Pi / 180.0)%float in
  let dLon := ((lon2 - lon1) * Pi / 180.0)%float in
  let a := (Sin (dLat / 2) * Sin (dLat / 2)
            + Cos (lat1 * Pi / 180.0) * Cos (lat2 * Pi / 180.0)
              * Sin (dLon / 2) * Sin (dLon / 2))%float in
  let c := (2 * Atan2 (Sqrt a) (Sqrt (1 - a)))%float in
  (EarthRadius * c)%float.

Definition destinationPoint (lat1 lon1 bearing distance : float) : float * float :=
  let bearing := (bearing * Pi / 180.0)%float in
  let lat1 := (lat1 * Pi / 180.0)%float in
  let lon1 := (lon1 * Pi / 180.0)%float in
  let lat2 := Asin (Sin lat1 * Cos (distance / EarthRadius)
                    + Cos lat1 * Sin (distance / EarthRadius) * Cos bearing)%float in
  let lon2 := (lon1 + Atan2 (Sin bearing * Sin (distance / EarthRadius) * Cos lat1)
                            (Cos (distance / EarthRadius) - Sin lat1 * Sin lat2))%float in
  let lat2 := (lat2 * 180.0 / Pi)%float in
  let lon2 := (lon2 * 180.0 / Pi)%float in
  (lat2, lon2).

Definition calculateInitialCompassBearing (pointA pointB : float * float) : float :=
  let lat1 := (fst pointA * Pi / 180.0)%float in
  let lat2 := (fst pointB * Pi / 180.0)%float in
  let diffLong := ((snd pointB - snd pointA) * Pi / 180.0)%float in
  let x := (Sin diffLong * Cos lat2)%float in
  let y := (Cos lat1 * Sin lat2 - Sin lat1 * Cos lat2 * Cos diffLong)%float in
  let initialBearing := Atan2 x y in
  let initialBearing := (initialBearing * 180.0 / Pi)%float in
  Mod (initialBearing + 360.0)%float 360.0%float.

(** *** Timestamps *)

Definition generateTimestamps (numPoints intervalSeconds : Z) (startTime : Time)
  : G (list Time) :=
  timestamps <- lift (make 0 numPoints) ;;
  for_range 0 numPoints
    (fun i timestamps =>
       store timestamps i
         (Time_Add startTime (wrap64 (wrap64 (i * intervalSeconds) * Second))))
    timestamps.

(** *** Profiles *)

Definition clamp (lo hi x : float) : float :=
  if (x <? lo)%float then lo else if (hi <? x)%float then hi else x.

Definition createCadenceProfile (totalSeconds : Z) (avgCadence avgSpeed : float)
    (speedProfile elevationChanges : list float) : G (list float) :=
  cadence <- lift (make 0%float totalSeconds) ;;
  r <- intn 3 ;;
  cadence <- lift (set cadence 0 (avgCadence + float64_of_int (r - 1))%float) ;;
  for_range 1 totalSeconds
    (fun t cadence =>
       s <- lift (get speedProfile t) ;;
       let speedDeviation := (s - avgSpeed)%float in
       let cadenceSpeed := (speedDeviation * 3)%float in
       elevationChange <-
         (if t <? len elevationChanges then lift (get elevationChanges t)
          else ret 0%float) ;;
       let cadenceElevation := (elevationChange * 2)%float in
       r <- intn 3 ;;
       let cadenceTotal :=
         (avgCadence + cadenceSpeed + cadenceElevation + float64_of_int (r - 1))%float in
       store cadence t (clamp 30 150 cadenceTotal))
    cadence.

Definition createBPMProfile (totalSeconds : Z) (avgBPM avgSpeed : float)
    (speedProfile elevationChanges : list float) : G (list float) :=
  bpm <- lift (make 0%float totalSeconds) ;;
  bpm <- lift (set bpm 0 (avgBPM - 20)%float) ;;
  for_range 1 totalSeconds
    (fun t bpm =>
       let progress := (float64_of_int t / float64_of_int totalSeconds)%float in
       let sigmoid := (1 / (1 + Exp (-12 * (progress - 0.2))))%float in
       let baseBPM := (-20 + 20 * sigmoid)%float in
       s <- lift (get speedProfile t) ;;
       let speedDeviation := (s - avgSpeed)%float in
       let bpmSpeed := (speedDeviation * 10)%float in
       elevationChange <-
         (if t <? len elevationChanges then lift (get elevationChanges t)
          else ret 0%float) ;;
       let bpmElevation := (elevationChange * 8)%float in
       r <- intn 3 ;;
       let bpmTotal :=
         (avgBPM + baseBPM + bpmSpeed + bpmElevation + float64_of_int (r - 1))%float in
       store bpm t (clamp 60 200 bpmTotal))
    bpm.

Definition createSpeedProfile (totalSeconds : Z) (avgSpeed speedDecrease : float)
  : G (list float) :=
  t <- lift (make 0%float totalSeconds) ;;
  t <- for_range 0 totalSeconds (fun i t => store t i (float64_of_int i)) t ;;
  randomFluctuations <- lift (make 0%float totalSeconds) ;;
  randomFluctuations <-
    for_range 0 totalSeconds
      (fun i rf => x <- normFloat64 ;; store rf i (x * 1.8)%float)
      randomFluctuations ;;
  randomFluctuations <- lift (set randomFluctuations 0 (0.2 * avgSpeed)%float) ;;
  desiredSpeeds <- lift (make 0%float totalSeconds) ;;
  desiredSpeeds <-
    for_range 0 totalSeconds
      (fun i ds => f <- lift (get randomFluctuations i) ;; store ds i (avgSpeed + f)%float)
      desiredSpeeds ;;
  speedProfile <- lift (make 0%float totalSeconds) ;;
  speedProfile <-
    for_range 0 totalSeconds
      (fun i sp =>
         let linearDecline :=
           (speedDecrease * float64_of_int i / float64_of_int totalSeconds)%float in
         d <- lift (get desiredSpeeds i) ;;
         store sp i (d - linearDecline)%float)
      speedProfile ;;
  let minSpeed := (avgSpeed * 0.90)%float in
  for_range 0 totalSeconds
    (fun i sp =>
       v <- lift (get sp i) ;;
       if (v <? minSpeed)%float then store sp i minSpeed else ret (Next sp))
    speedProfile.

(** *** Interpolation between two waypoints *)

(** [numSeconds] of [interpolatePoints]. *)
Definition numSecondsOf (distance speed : float) : Z :=
  let duration := (distance / speed)%float in
  let numSeconds := int_of_float64 duration in
  if numSeconds =? 0 then 1 else numSeconds.

Definition interpolatePoints (p1 p2 : Trkpt) (speedProfile : list float)
    (totalTime currentTime : Z) : G (list Trkpt) :=
  let distance := haversineDistance (Lat p1) (Lon p1) (Lat p2) (Lon p2) in
  let currentTime :=
    if currentTime >=? len speedProfile then len speedProfile - 1 else currentTime in
  speed <- lift (get speedProfile currentTime) ;;
  let numSeconds := numSecondsOf distance speed in
  let eleDiff := (Ele p2 - Ele p1)%float in
  let bearing :=
    calculateInitialCompassBearing (Lat p1, Lon p1) (Lat p2, Lon p2) in
  for_range 1 (numSeconds + 1)
    (fun i interpolatedPoints =>
       let fraction := (float64_of_int i / float64_of_int numSeconds)%float in
       let interpolatedDistance := (speed * float64_of_int i)%float in
       let '(interpolatedLat, interpolatedLon) :=
         destinationPoint (Lat p1) (Lon p1) bearing interpolatedDistance in
       let interpolatedEle := (Ele p1 + eleDiff * fraction)%float in
       ret (Next (interpolatedPoints
                  ++ [mkTrkpt interpolatedLat interpolatedLon interpolatedEle])))
    [].

(** *** The handler, block by block *)

Definition AvgSpeed : float := 1.5%float.
Definition AvgBPM : float := 120%float.
Definition AvgCadence : float := 80%float.

(** Lines 211-214: the estimated total time, inflated by 1.3. *)
Definition horizonOf (routeLength : Z) : Z :=
  let totalTimeSeconds := int_of_float64 (float64_of_int routeLength / AvgSpeed)%float in
  int_of_float64 (float64_of_int totalTimeSeconds * 1.3)%float.

(** Lines 217-238: "Extract elevation changes" and "Pad elevationChanges". *)
Definition extractElevationChanges (points : list Trkpt) (totalTimeSeconds : Z)
  : G (list float) :=
  elevationChanges <-
    for_range 0 (len points - 1)
      (fun i elevationChanges =>
         q <- lift (get points (i + 1)) ;;
         p <- lift (get points i) ;;
         let eleChange := (Ele q - Ele p)%float in
         let distance := haversineDistance (Lat p) (Lon p) (Lat q) (Lon q) in
         let numSeconds := int_of_float64 (distance / AvgSpeed)%float in
         elevationChanges <-
           for_range 0 numSeconds
             (fun j elevationChanges =>
                if numSeconds >? 0
                then ret (Next (elevationChanges
                                ++ [(eleChange / float64_of_int numSeconds)%float]))
                else ret (Next (elevationChanges ++ [0%float])))
             elevationChanges ;;
         ret (Next elevationChanges))
      [] ;;
  if len elevationChanges <? totalTimeSeconds
  then for_range (len elevationChanges) totalTimeSeconds
         (fun i elevationChanges => ret (Next (elevationChanges ++ [0%float])))
         elevationChanges
  else lift (slice_to elevationChanges totalTimeSeconds).

(** Lines 253-258: the handler's own duration of a segment. *)
Definition segmentDuration (distance speed : float) : Z :=
  if (0 <? speed)%float then int_of_float64 (distance / speed)%float else 1.

(** Lines 245-263: "Interpolate route points". *)
Definition interpolateRoute (points : list Trkpt) (speedProfile : list float)
    (totalTimeSeconds : Z) : G (list Trkpt) :=
  r <-
    for_range 0 (len points - 1)
      (fun i (st : list Trkpt * Z) =>
         let '(interpolatedPoints, currentTime) := st in
         p1 <- lift (get points i) ;;
         p2 <- lift (get points (i + 1)) ;;
         newPoints <- interpolatePoints p1 p2 speedProfile totalTimeSeconds currentTime ;;
         let interpolatedPoints := interpolatedPoints ++ newPoints in
         let distance := haversineDistance (Lat p1) (Lon p1) (Lat p2) (Lon p2) in
         speed <- lift (get speedProfile currentTime) ;;
         let duration := segmentDuration distance speed in
         let currentTime := wrap64 (currentTime + duration) in
         if currentTime >=? totalTimeSeconds
         then ret (Break (interpolatedPoints, currentTime))
         else ret (Next (interpolatedPoints, currentTime)))
      ([], 0) ;;
  ret (fst r).

(** Lines 268-276 and 278-286: "Ensure ... has enough length", the same
    code for the heart-rate and the cadence profile. *)
Definition adjustProfile (profile : list float) (totalInterpolated : Z)
  : G (list float) :=
  if len profile <? totalInterpolated
  then
    last <- lift (get profile (len profile - 1)) ;;
    for_range (len profile) totalInterpolated
      (fun i profile => ret (Next (profile ++ [last])))
      profile
  else lift (slice_to profile totalInterpolated).

(** Lines 296-300: "Convert bpmProfileFloat to int". *)
Definition convertBPM (bpmProfileFloat : list float) (totalInterpolated : Z)
  : G (list Z) :=
  bpmProfile <- lift (make 0 totalInterpolated) ;;
  for_each bpmProfileFloat
    (fun i v bpmProfile => store bpmProfile i (int_of_float64 v))
    bpmProfile.

Definition paceOf (s : float) : float :=
  if (s <=? 0)%float then 999.0%float else (1000.0 / (s * 60.0))%float.

(** Lines 302-317: "Create pace profile (min/km) from speed profile". *)
Definition createPaceProfile (speedProfile : list float) (totalInterpolated : Z)
  : G (list float) :=
  speedProfile <-
    (if len speedProfile >? totalInterpolated
     then lift (slice_to speedProfile totalInterpolated)
     else ret speedProfile) ;;
  paceProfile <- lift (make 0%float totalInterpolated) ;;
  for_each speedProfile
    (fun i s paceProfile => store paceProfile i (paceOf s))
    paceProfile.

(** Lines 319-323: "Create route array". *)
Definition createRoute (interpolatedPoints : list Trkpt) (totalInterpolated : Z)
  : G (list Coordinate) :=
  route <- lift (make (mkCoordinate 0 0 0) totalInterpolated) ;;
  for_each interpolatedPoints
    (fun i pt route => store route i (mkCoordinate (Lat pt) (Lon pt) (Ele pt)))
    route.

(** Lines 207-332: what the handler does once it holds a non-empty list
    of points; [now] is what [time.Now()] returns. *)
Definition synthesize (routeLength : Z) (points : list Trkpt) (now : Time)
  : G response :=
  let totalTimeSeconds := horizonOf routeLength in
  speedProfile <- createSpeedProfile totalTimeSeconds AvgSpeed 0.2 ;;
  elevationChanges <- extractElevationChanges points totalTimeSeconds ;;
  let totalTimeSeconds := totalTimeSeconds - 2 in
  bpmProfileFloat <-
    createBPMProfile totalTimeSeconds AvgBPM AvgSpeed speedProfile elevationChanges ;;
  cadenceProfile <-
    createCadenceProfile totalTimeSeconds AvgCadence AvgSpeed speedProfile elevationChanges ;;
  interpolatedPoints <- interpolateRoute points speedProfile totalTimeSeconds ;;
  let totalInterpolated := len interpolatedPoints in
  bpmProfileFloat <- adjustProfile bpmProfileFloat totalInterpolated ;;
  cadenceProfile <- adjustProfile cadenceProfile totalInterpolated ;;
  let startTime := now in
  timestamps <- generateTimestamps totalInterpolated 1 startTime ;;
  if negb (len timestamps =? totalInterpolated)
  then ret (mkResponse 500
              (ErrorJSON "Mismatch between number of timestamps and interpolated points."))
  else
    bpmProfile <- convertBPM bpmProfileFloat totalInterpolated ;;
    paceProfile <- createPaceProfile speedProfile totalInterpolated ;;
    route <- createRoute interpolatedPoints totalInterpolated ;;
    ret (mkResponse 200 (ResultJSON (mkResult timestamps bpmProfile paceProfile route))).

(** [bound] is what [c.ShouldBindJSON] returns. *)
Definition HandleGenerateFileSingleMarker (bound : or_error GenerateGPXRequest)
    (now : Time) : G response :=
  match bound with
  | Error _ => ret (mkResponse 400 (ErrorJSON "Invalid request"))
  | Value requestBody =>
      let start := (sLon (startCoords requestBody), sLat (startCoords requestBody)) in
      let routeLength := RouteLength requestBody in
      let numPoints := 5 in
      let routeType :=
        if String.eqb (RouteType requestBody) "" then "foot-walking"%string
        else RouteType requestBody in
      match fetchRoundTripRoute start API_KEY routeLength numPoints routeType with
      | Error err =>
          ret (mkResponse 500
                 (ErrorJSON ("An error occurred while fetching GPX data: " ++ err)))
      | Value gpxData =>
          match parseGPX gpxData with
          | Error err =>
              ret (mkResponse 500
                     (ErrorJSON ("An error occurred while parsing GPX data: " ++ err)))
          | Value points =>
              if len points =? 0
              then ret (mkResponse 500 (ErrorJSON "No track points found in the route."))
              else synthesize routeLength points now
          end
      end
  end.

End Rest.

(** ** Reference instances for running the model

    [refMath] computes the elementary functions by argument reduction and
    power series in binary64, to within a few units in the last place on
    the arguments the examples feed it; [lcgRand] is a linear congruential
    generator; [fixedRoute pts] is a provider whose route parses to [pts].
    The theorems below hold for every instance; these three are only what
    the closed examples run on. *)

Module Ref.

Fixpoint series (n : nat) (k : Z) (term acc : float) (step : Z -> float -> float)
  : float :=
  match n with
  | O => acc
  | S n' =>
      let term' := step k term in
      series n' (k + 1) term' (acc + term')%float step
  end.

Definition twoPi : float := (2 * Pi)%float.

(** Brings [x] into [[-Pi, Pi]]. *)
Definition reduce (x : float) : float :=
  let q := (x / twoPi)%float in
  let n := int_of_float64 (if (q <? 0)%float then q - 0.5 else q + 0.5)%float in
  (x - twoPi * float64_of_int n)%float.

Definition sin (x : float) : float :=
  let r := reduce x in
  series 16 1 r r
    (fun k t => (- t * r * r / (float64_of_int (2 * k) * float64_of_int (2 * k + 1)))%float).

Definition cos (x : float) : float :=
  let r := reduce x in
  series 16 1 1%float 1%float
    (fun k t => (- t * r * r / (float64_of_int (2 * k - 1) * float64_of_int (2 * k)))%float).

Definition halve (x : float) : float := (x / (1 + Sqrt (1 + x * x)))%float.

(** Arc tangent on [[-1, 1]]. *)
Definition atan_unit (x : float) : float :=
  let y := halve (halve (halve x)) in
  (8 * series 12 1 y y
         (fun k t => (- t * y * y * float64_of_int (2 * k - 1)
                      / float64_of_int (2 * k + 1))%float))%float.

Definition atan (x : float) : float :=
  if (1 <? x)%float then (Pi / 2 - atan_unit (1 / x))%float
  else if (x <? -1)%float then (- (Pi / 2) - atan_unit (1 / x))%float
  else atan_unit x.

Definition atan2 (y x : float) : float :=
  if (0 <? x)%float then atan (y / x)
  else if (x <? 0)%float then
    (if (y <? 0)%float then atan (y / x) - Pi else atan (y / x) + Pi)%float
  else if (0 <? y)%float then (Pi / 2)%float
  else if (y <? 0)%float then (- (Pi / 2))%float
  else 0%float.

Definition asin (x : float) : float := atan2 x (Sqrt (1 - x * x)).

Fixpoint square_n (n : nat) (x : float) : float :=
  match n with
  | O => x
  | S n' => square_n n' (x * x)%float
  end.

Definition exp (x : float) : float :=
  let y := (x / 16)%float in
  square_n 4
    (series 24 1 1%float 1%float (fun k t => (t * y / float64_of_int k)%float)).

Definition fmod (x y : float) : float :=
  (x - y * float64_of_int (int_of_float64 (x / y)))%float.

Definition lcg_next (s : Z) : Z :=
  (s * 6364136223846793005 + 1442695040888963407) mod 2 ^ 64.

End Ref.

#[global] Instance refMath : MathPkg :=
  {| Exp := Ref.exp; Sin := Ref.sin; Cos := Ref.cos;
     Asin := Ref.asin; Atan2 := Ref.atan2; Mod := Ref.fmod |}.

#[global] Instance lcgRand : RandPkg :=
  {| Src := Z;
     NormFloat64 := fun s =>
       let s' := Ref.lcg_next s in
       (((float64_of_int ((s' / 2 ^ 32) mod 8001) - 4000) / 1000)%float, s');
     Intn := fun n s =>
       let s' := Ref.lcg_next s in ((s' / 2 ^ 33) mod n, s') |}.

Definition fixedRoute (pts : list Trkpt) : Upstream :=
  {| fetchRoundTripRoute := fun _ _ _ _ _ => Value "<gpx/>"%string;
     parseGPX := fun _ => Value pts |}.

(** Inputs of the closed examples: points on the equator, about 1.11 m,
    11.1 m and 1.11 km east of the origin. *)
Module Example.

Definition origin : Trkpt := mkTrkpt 0 0 0.
Definition east1m : Trkpt := mkTrkpt 0 0.00001 0.
Definition east11m : Trkpt := mkTrkpt 0 0.0001 5.
Definition east1km : Trkpt := mkTrkpt 0 0.01 0.

Definition request (routeLength : Z) : GenerateGPXRequest :=
  mkRequest (mkStartCoords 0 0) routeLength "".

Definition seed : Z := 42.
Definition clock : Time := 1700000000000000000.

End Example.

(** [refMath] with the special cases of [math.Atan2] on NaN
    ([Atan2(y, NaN) = NaN], [Atan2(NaN, x) = NaN]), which the comparisons
    of [Ref.atan2] do not reproduce. *)
Definition nanMath : MathPkg :=
  {| Exp := Ref.exp; Sin := Ref.sin; Cos := Ref.cos; Asin := Ref.asin;
     Atan2 := fun y x => if is_nan y || is_nan x then nan else Ref.atan2 y x;
     Mod := Ref.fmod |}.

(** A waypoint whose latitude is NaN: [strconv.ParseFloat] reads "NaN"
    without an error, so [parseGPX] keeps such an entry. *)
Definition nanPoint : Trkpt := mkTrkpt nan 0 0.

(** ** Predicates used in the statements *)

(** [elem l i v]: the slice [l] holds [v] at index [i]. *)
Definition elem {A} (l : list A) (i : Z) (v : A) : Prop :=
  0 <= i /\ nth_error l (Z.to_nat i) = Some v.

(** The entry of the speed profile at index [i], given the fluctuation
    drawn for it (lines 404-417 of [createSpeedProfile]). *)
Definition speedValue (totalSeconds : Z) (avgSpeed speedDecrease : float) (i : Z)
    (fluctuation : float) : float :=
  let desired := (avgSpeed + fluctuation)%float in
  let linearDecline :=
    (speedDecrease * float64_of_int i / float64_of_int totalSeconds)%float in
  let v := (desired - linearDecline)%float in
  if (v <? avgSpeed * 0.90)%float then (avgSpeed * 0.90)%float else v.

(** [bpmTotal] and [cadenceTotal] before clamping, as functions of what the
    loop body reads: the speed and the elevation change at [t] and the
    outcome [r] of [rand.Intn(3)]. *)
Definition bpmTotalOf {math : MathPkg} (totalSeconds : Z) (avgBPM avgSpeed : float)
    (t : Z) (speed elevationChange : float) (r : Z) : float :=
  let progress := (float64_of_int t / float64_of_int totalSeconds)%float in
  let sigmoid := (1 / (1 + Exp (-12 * (progress - 0.2))))%float in
  let baseBPM := (-20 + 20 * sigmoid)%float in
  let bpmSpeed := ((speed - avgSpeed) * 10)%float in
  let bpmElevation := (elevationChange * 8)%float in
  (avgBPM + baseBPM + bpmSpeed + bpmElevation + float64_of_int (r - 1))%float.

Definition cadenceTotalOf (avgCadence avgSpeed : float)
    (speed elevationChange : float) (r : Z) : float :=
  let cadenceSpeed := ((speed - avgSpeed) * 3)%float in
  let cadenceElevation := (elevationChange * 2)%float in
  (avgCadence + cadenceSpeed + cadenceElevation + float64_of_int (r - 1))%float.

(** The elevation change the profile loops read at [t]: the entry of the
    series, or 0 past its end. *)
Definition elevationAt (elevationChanges : list float) (t : Z) (e : float) : Prop :=
  if t <? len elevationChanges then elem elevationChanges t e else e = 0%float.

(** The elevation-change series in the words of the specification
    (section 4.2), to be compared with [extractElevationChanges]: for each
    consecutive pair the elevation delta spread evenly over the whole
    seconds of its traversal at the assumed speed, the pieces concatenated,
    then zero-padded or truncated to the horizon. *)
Fixpoint consecutive {A} (l : list A) : list (A * A) :=
  match l with
  | a :: (b :: _) as t => (a, b) :: consecutive t
  | _ => []
  end.

Definition spreadDelta {math : MathPkg} (pq : Trkpt * Trkpt) : list float :=
  let '(p, q) := pq in
  let delta := (Ele q - Ele p)%float in
  let distance := haversineDistance (Lat p) (Lon p) (Lat q) (Lon q) in
  let duration := int_of_float64 (distance / AvgSpeed)%float in
  repeat (delta / float64_of_int duration)%float (Z.to_nat duration).

Definition specElevationSeries {math : MathPkg} (points : list Trkpt) (horizon : Z)
  : list float :=
  let series := flat_map spreadDelta (consecutive points) in
  if len series <? horizon
  then series ++ repeat 0%float (Z.to_nat (horizon - len series))
  else firstn (Z.to_nat horizon) series.

(** Every duration the handler can compute for a segment of [points] at a
    speed of [speedProfile] is non-negative and leaves the elapsed time
    within [int]: what a great-circle distance in metres divided by a
    walking speed satisfies. *)
Definition durationsInRange {math : MathPkg} (points : list Trkpt)
    (speedProfile : list float) (totalTimeSeconds : Z) : Prop :=
  Forall
    (fun pq : Trkpt * Trkpt =>
       Forall
         (fun speed =>
            let d := segmentDuration
                       (haversineDistance (Lat (fst pq)) (Lon (fst pq))
                          (Lat (snd pq)) (Lon (snd pq))) speed in
            0 <= d /\ totalTimeSeconds + d <= 2 ^ 63)
         speedProfile)
    (consecutive points).

Definition toCoordinate (pt : Trkpt) : Coordinate :=
  mkCoordinate (Lat pt) (Lon pt) (Ele pt).

(** The slice [generateTimestamps] returns, in closed form. *)
Definition timestampsOf (numPoints intervalSeconds : Z) (startTime : Time) : list Time :=
  map (fun i => Time_Add startTime (wrap64 (wrap64 (i * intervalSeconds) * Second)))
      (map Z.of_nat (seq 0 (Z.to_nat numPoints))).

(** What the calls of a run of [synthesize] returned, when it reaches
    [c.JSON(200, result)]. *)
Record trace {rand : RandPkg} : Type := mkTrace
  { t_speedProfile : list float;
    t_bpmProfileFloat : list float;
    t_cadenceProfile : list float;
    t_interpolatedPoints : list Trkpt;
    t_bpmAdjusted : list float;
    t_cadenceAdjusted : list float;
    t_paceProfile : list float;
    t_s1 : Src;
    t_s2 : Src }.

(** [traced routeLength points now s tr resp s']: the run of [synthesize]
    from the source state [s] went through the steps [tr], answered [resp]
    and left the source in [s']. *)
Definition traced {math : MathPkg} {rand : RandPkg} (routeLength : Z)
    (points : list Trkpt) (now : Time) (s : Src) (tr : trace) (resp : response)
    (s' : Src) : Prop :=
  let horizon := horizonOf routeLength in
  let elevationChanges := specElevationSeries points horizon in
  let n := len (t_interpolatedPoints tr) in
  3 <= horizon /\
  createSpeedProfile horizon AvgSpeed 0.2 s = Done (t_speedProfile tr, t_s1 tr) /\
  createBPMProfile (horizon - 2) AvgBPM AvgSpeed (t_speedProfile tr) elevationChanges
    (t_s1 tr) = Done (t_bpmProfileFloat tr, t_s2 tr) /\
  createCadenceProfile (horizon - 2) AvgCadence AvgSpeed (t_speedProfile tr)
    elevationChanges (t_s2 tr) = Done (t_cadenceProfile tr, s') /\
  interpolateRoute points (t_speedProfile tr) (horizon - 2) s'
  = Done (t_interpolatedPoints tr, s') /\
  adjustProfile (t_bpmProfileFloat tr) n s' = Done (t_bpmAdjusted tr, s') /\
  adjustProfile (t_cadenceProfile tr) n s' = Done (t_cadenceAdjusted tr, s') /\
  createPaceProfile (t_speedProfile tr) n s' = Done (t_paceProfile tr, s') /\
  resp = mkResponse 200
           (ResultJSON
              (mkResult (timestampsOf n 1 now)
                 (map int_of_float64 (t_bpmAdjusted tr))
                 (t_paceProfile tr)
                 (map toCoordinate (t_interpolatedPoints tr)))).

(** The route type the handler asks the provider for. *)
Definition routeTypeOf (requestBody : GenerateGPXRequest) : string :=
  if String.eqb (RouteType requestBody) "" then "foot-walking"%string
  else RouteType requestBody.

(** [served requestBody points]: the provider answered the request and its
    answer parsed to [points]. *)
Definition served {up : Upstream} (requestBody : GenerateGPXRequest)
    (points : list Trkpt) : Prop :=
  exists gpxData,
    fetchRoundTripRoute
      (sLon (startCoords requestBody), sLat (startCoords requestBody))
      API_KEY (RouteLength requestBody) 5 (routeTypeOf requestBody)
    = Value gpxData /\
    parseGPX gpxData = Value points.

(** The two panics of a slice of non-positive length: indexing the empty
    slice at 0, and [make] with a negative length. *)
Definition rangePanic (p : panic) : Prop :=
  p = IndexOutOfRange 0 0 \/ exists n, n < 0 /\ p = MakeLenOutOfRange n.

(** ** Classes of floating-point values

    On the specification side ([spec_float]) and on [float64] itself. *)

Definition sf_number (x : spec_float) : Prop :=
  match x with S754_nan => False | _ => True end.

Definition sf_finite (x : spec_float) : Prop :=
  match x with S754_zero _ | S754_finite _ _ _ => True | _ => False end.

(** Zero, or finite and below [2 ^ k] in absolute value. *)
Definition sf_below (k : Z) (x : spec_float) : Prop :=
  match x with
  | S754_zero _ => True
  | S754_finite _ m e => Zpos (digits2_pos m) + e <= k
  | _ => False
  end.

(** Infinite, or finite and at least [2 ^ (k - 1)] in absolute value. *)
Definition sf_atleast (k : Z) (x : spec_float) : Prop :=
  match x with
  | S754_finite _ m e => k <= Zpos (digits2_pos m) + e
  | S754_infinity _ => True
  | _ => False
  end.

(** Finite and not zero. *)
Definition sf_proper (x : spec_float) : Prop :=
  match x with S754_finite _ _ _ => True | _ => False end.

(** [x] is not NaN. *)
Definition number (x : float) : Prop := sf_number (Prim2SF x).

(** [x] is zero or finite. *)
Definition finite (x : float) : Prop := sf_finite (Prim2SF x).

(** [x] is finite and not zero. *)
Definition proper (x : float) : Prop := sf_proper (Prim2SF x).

(** [x] is finite and [|x| < 2 ^ k]. *)
Definition below (k : Z) (x : float) : Prop := sf_below k (Prim2SF x).

(** [x] is infinite, or finite with [2 ^ (k - 1) <= |x|]. *)
Definition atleast (k : Z) (x : float) : Prop := sf_atleast k (Prim2SF x).


(** Above zero: positive and finite, or [+Inf]. *)
Definition sf_gtzero (x : spec_float) : Prop :=
  match x with S754_finite false _ _ | S754_infinity false => True | _ => False end.

(** Zero, or below zero. *)
Definition sf_lezero (x : spec_float) : Prop :=
  match x with
  | S754_zero _ | S754_finite true _ _ | S754_infinity true => True
  | _ => False
  end.

Definition gtzero (x : float) : Prop := sf_gtzero (Prim2SF x).
Definition lezero (x : float) : Prop := sf_lezero (Prim2SF x).

(** Zero, or above zero. *)
Definition sf_gezero (x : spec_float) : Prop :=
  match x with
  | S754_zero _ | S754_finite false _ _ | S754_infinity false => True
  | _ => False
  end.

Definition gezero (x : float) : Prop := sf_gezero (Prim2SF x).

(** The distances between consecutive waypoints are what a great-circle
    distance in metres is: a number, zero or above, below [2 ^ 60]. *)
Definition distancesInRange {math : MathPkg} (points : list Trkpt) : Prop :=
  Forall
    (fun pq : Trkpt * Trkpt =>
       let distance := haversineDistance (Lat (fst pq)) (Lon (fst pq))
                         (Lat (snd pq)) (Lon (snd pq)) in
       (0 <=? distance)%float = true /\ below 60 distance)
    (consecutive points).

(** ** The samples of a segment *)

(** The sample [interpolatePoints] appends at turn [i] of its loop (lines
    439-449), [speed] and [numSeconds] being what it computed before. *)
Definition interpolatedPoint {math : MathPkg} (p1 p2 : Trkpt) (speed : float)
    (numSeconds i : Z) : Trkpt :=
  let eleDiff := (Ele p2 - Ele p1)%float in
  let bearing := calculateInitialCompassBearing (Lat p1, Lon p1) (Lat p2, Lon p2) in
  let fraction := (float64_of_int i / float64_of_int numSeconds)%float in
  let interpolatedDistance := (speed * float64_of_int i)%float in
  let d := destinationPoint (Lat p1) (Lon p1) bearing interpolatedDistance in
  let interpolatedEle := (Ele p1 + eleDiff * fraction)%float in
  mkTrkpt (fst d) (snd d) interpolatedEle.

(** ** The request limiter (lines 19-20, 38-41, 109-156) *)

Record ClientInfo : Type := mkClientInfo { Count : Z; LastSeen : Time }.

Definition CLIENT_USE_THRESHOLD : Z := 5.
Definition Minute : Z := 60 * Second.
Definition CLIENT_USE_RESET_TIME : Z := Minute * 5.

(** [map[string]ClientInfo]: lookup, assignment and [delete]. *)
Definition clients : Type := string -> option ClientInfo.

Definition assign (m : clients) (k : string) (v : ClientInfo) : clients :=
  fun k' => if String.eqb k' k then Some v else m k'.

Definition delete (m : clients) (k : string) : clients :=
  fun k' => if String.eqb k' k then None else m k'.

(** [Handler]: the table; the mutex [mu] is what makes each of the two
    critical sections below one step. *)
Record Handler : Type := mkHandler { client_counter : clients }.

Definition NewHandler : Handler := mkHandler (fun _ => None).

(** How the middleware leaves the request: [c.AbortWithStatusJSON] or
    [c.Next()]. *)
Inductive verdict : Type :=
| Aborted (code : Z) (error : string)
| Passed.

(** The function [Middleware] returns, applied to a request of
    [clientIP]; [now] is what [time.Now()] reads inside the critical
    section. The third component tells whether
    [go h.resetClientCounter(clientIP)] was executed. *)
Definition Middleware (clientIP : string) (now : Time) (h : Handler)
  : Handler * verdict * bool :=
  match client_counter h clientIP with
  | Some clientInfo =>
      if Count clientInfo >=? CLIENT_USE_THRESHOLD
      then (h, Aborted 429 "Too many requests"%string, false)
      else
        let clientInfo := mkClientInfo (wrap64 (Count clientInfo + 1)) now in
        (mkHandler (assign (client_counter h) clientIP clientInfo), Passed, false)
  | None =>
      (mkHandler (assign (client_counter h) clientIP (mkClientInfo 1 now)), Passed, true)
  end.

(** [time.Since(t)], read at [now]. *)
Definition Since (now t : Time) : Z := now - t.

(** [resetClientCounter] once [time.Sleep] has returned; [now] is the
    time at which [time.Since] is evaluated. *)
Definition resetClientCounter (clientIP : string) (now : Time) (h : Handler) : Handler :=
  match client_counter h clientIP with
  | Some clientInfo =>
      if Since now (LastSeen clientInfo) >=? CLIENT_USE_RESET_TIME
      then mkHandler (delete (client_counter h) clientIP)
      else mkHandler (assign (client_counter h) clientIP
                        (mkClientInfo 0 (LastSeen clientInfo)))
  | None => h
  end.

(** The handler with its goroutines: [sleeping clientIP] counts the
    [resetClientCounter] goroutines of a client that were started and
    have not run yet. A [Request] runs the middleware; a [Wake] runs
    one sleeping goroutine of the client, and is not possible when
    there is none. *)
Record server : Type := mkServer { handler : Handler; sleeping : string -> Z }.

Inductive event : Type :=
| Request (clientIP : string) (now : Time)
| Wake (clientIP : string) (now : Time).

Definition bump (f : string -> Z) (k : string) (d : Z) : string -> Z :=
  fun k' => if String.eqb k' k then f k' + d else f k'.

Definition step (e : event) (sv : server) : option (server * list (string * verdict)) :=
  match e with
  | Request clientIP now =>
      let '(h, v, started) := Middleware clientIP now (handler sv) in
      Some (mkServer h (if started then bump (sleeping sv) clientIP 1 else sleeping sv),
            [(clientIP, v)])
  | Wake clientIP now =>
      if 0 <? sleeping sv clientIP
      then Some (mkServer (resetClientCounter clientIP now (handler sv))
                   (bump (sleeping sv) clientIP (-1)), [])
      else None
  end.

(** A run of events, with the verdicts of the requests in order. *)
Fixpoint run (es : list event) (sv : server) : option (server * list (string * verdict)) :=
  match es with
  | [] => Some (sv, [])
  | e :: es' =>
      match step e sv with
      | Some (sv', log) =>
          match run es' sv' with
          | Some (sv'', log') => Some (sv'', log ++ log')
          | None => None
          end
      | None => None
      end
  end.

Definition started : server := mkServer NewHandler (fun _ => 0).

(** The verdicts a client received. *)
Definition verdictsOf (clientIP : string) (log : list (string * verdict)) : list verdict :=
  map snd (filter (fun p => String.eqb (fst p) clientIP) log).

Definition countOf (h : Handler) (clientIP : string) : Z :=
  match client_counter h clientIP with
  | Some clientInfo => Count clientInfo
  | None => 0
  end.

Definition requestsOf (clientIP : string) (es : list event) : Z :=
  len (filter (fun e => match e with
                        | Request ip _ => String.eqb ip clientIP
                        | Wake _ _ => false
                        end) es).

Definition wakesOf (clientIP : string) (es : list event) : Z :=
  len (filter (fun e => match e with
                        | Wake ip _ => String.eqb ip clientIP
                        | Request _ _ => false
                        end) es).

(** What holds of every state the server reaches. *)
Definition limited (sv : server) : Prop :=
  forall clientIP,
    0 <= sleeping sv clientIP <= 1 /\
    match client_counter (handler sv) clientIP with
    | Some clientInfo => 0 <= Count clientInfo <= CLIENT_USE_THRESHOLD
    | None => sleeping sv clientIP = 0
    end.

Definition tooMany : verdict := Aborted 429 "Too many requests"%string.

(** The verdicts of [k] requests of a client whose count is [c]. *)
Definition quota (c k : Z) : list verdict :=
  repeat Passed (Z.to_nat (Z.min k (CLIENT_USE_THRESHOLD - c)))
  ++ repeat tooMany (Z.to_nat (k - Z.min k (CLIENT_USE_THRESHOLD - c))).

(** The client an event belongs to. *)
Definition clientOf (e : event) : string :=
  match e with Request clientIP _ | Wake clientIP _ => clientIP end.

(** Clients and runs of the closed examples. *)
Module Clients.
Definition clientA : string := "10.0.0.1".
Definition clientB : string := "10.0.0.2".

(** Six requests of one client among those of another, whose reset then
    runs. *)
Definition busy : list event :=
  [Request clientA 0; Request clientB 1; Request clientA 2; Request clientA 3;
   Request clientA 4; Request clientA 5; Request clientA 6;
   Wake clientB (300 * Second + 1)].

(** A client that comes back 200 s after its first request: its reset,
    five minutes after the first request, finds it seen 100 s ago. *)
Definition returning : list event :=
  [Request clientA 0; Request clientA (200 * Second); Wake clientA (300 * Second)].

Definition later : list event :=
  [Request clientA (301 * Second); Request clientA (302 * Second);
   Request clientA (303 * Second); Request clientA (304 * Second);
   Request clientA (305 * Second); Request clientA (3600 * Second);
   Request clientA (86400 * Second)].
End Clients.

(** ** [parseGPX] (lines 492-525) *)

(** [encoding/xml] and [strconv]: [Unmarshal] is [xml.Unmarshal] into
    [GPXParse], returning the [rtept] entries of [rte] in document order;
    [ParseFloat s] is [strconv.ParseFloat(s, 64)]. *)
Module GPXParse.
Record Rtept : Type := mkRtept { Lat : string; Lon : string; Ele : string }.
End GPXParse.

Class TextPkg : Type :=
  { Unmarshal : string -> or_error (list GPXParse.Rtept);
    ParseFloat : string -> or_error float }.

Module Parse.
Section Parse.
Context {text : TextPkg}.

(** One turn of the loop over [gpx.Rte.Rtepts]: [continue] on a value
    that does not parse, [append] otherwise. *)
Definition parsePoint (points : list Trkpt) (pt : GPXParse.Rtept) : list Trkpt :=
  match ParseFloat (GPXParse.Lat pt), ParseFloat (GPXParse.Lon pt),
        ParseFloat (GPXParse.Ele pt) with
  | Value lat, Value lon, Value ele => points ++ [mkTrkpt lat lon ele]
  | _, _, _ => points
  end.

Definition parseGPX (gpxData : string) : or_error (list Trkpt) :=
  match Unmarshal gpxData with
  | Error err => Error err
  | Value rtepts => Value (fold_left parsePoint rtepts [])
  end.

End Parse.
End Parse.

(** The provider seen through [Parse.parseGPX]. *)
Definition parsedUpstream {text : TextPkg}
    (fetch : float * float -> string -> Z -> Z -> string -> or_error string) : Upstream :=
  {| fetchRoundTripRoute := fetch; parseGPX := Parse.parseGPX |}.

(** An entry of the route all of whose three values parse. *)
Definition parses {text : TextPkg} (pt : GPXParse.Rtept) : bool :=
  match ParseFloat (GPXParse.Lat pt), ParseFloat (GPXParse.Lon pt),
        ParseFloat (GPXParse.Ele pt) with
  | Value _, Value _, Value _ => true
  | _, _, _ => false
  end.

(** [pt] reads as the point [p]. *)
Definition readsAs {text : TextPkg} (pt : GPXParse.Rtept) (p : Trkpt) : Prop :=
  ParseFloat (GPXParse.Lat pt) = Value (Lat p) /\
  ParseFloat (GPXParse.Lon pt) = Value (Lon p) /\
  ParseFloat (GPXParse.Ele pt) = Value (Ele p).

Fixpoint digitsValue (s : string) (acc : Z) : option Z :=
  match s with
  | EmptyString => Some acc
  | String c s' =>
      let n := Z.of_nat (Ascii.nat_of_ascii c) in
      if (48 <=? n) && (n <=? 57) then digitsValue s' (10 * acc + (n - 48)) else None
  end.

(** A stand-in for [encoding/xml] and [strconv] in the closed examples:
    the document decodes to [rtepts]; only unsigned decimal integers
    parse. *)
Definition decimalText (rtepts : list GPXParse.Rtept) : TextPkg :=
  {| Unmarshal := fun _ => Value rtepts;
     ParseFloat := fun s =>
       match s with
       | EmptyString => Error "invalid syntax"
       | _ => match digitsValue s 0 with
              | Some z => Value (float64_of_int z)
              | None => Error "invalid syntax"
              end
       end |}.

(** ** The front end: [RouteAnalysisPopup] and [ShiftingTitle] *)

Module Popup.
Section Popup.
(** [Date] objects, and [new Date(timestamp)]. *)
Context {Date : Type} (newDate : string -> Date).

(** [{ x: Date, y: value }]; [y] is [None] where JavaScript has
    [undefined]. *)
Record dataPoint : Type := mkDataPoint { x : Date; y : option float }.

(** [arr.slice(0, n)] for a length [n]. *)
Definition slice {A} (arr : list A) (n : Z) : list A := firstn (Z.to_nat n) arr.

(** [arr.map((v, index) => f(v, index))]. *)
Fixpoint map_index_from {A B} (f : A -> nat -> B) (index : nat) (arr : list A) : list B :=
  match arr with
  | [] => []
  | v :: arr' => f v index :: map_index_from f (S index) arr'
  end.
Definition map_index {A B} (f : A -> nat -> B) (arr : list A) : list B :=
  map_index_from f 0 arr.

Definition minLength (timestamps : list string) (bpmProfile paceProfile : list float) : Z :=
  Z.min (Z.min (len timestamps) (len bpmProfile)) (len paceProfile).

(** [bpmDataPoints] and [paceDataPoints]: the one expression, on the
    sanitized timestamps and one sanitized series. *)
Definition dataPoints (timestamps : list string) (bpmProfile paceProfile : list float)
    (series : list float) : list dataPoint :=
  let minLength := minLength timestamps bpmProfile paceProfile in
  let sanitizedTimestamps := slice timestamps minLength in
  let sanitized := slice series minLength in
  map_index
    (fun timestamp index => mkDataPoint (newDate timestamp) (nth_error sanitized index))
    sanitizedTimestamps.

Definition bpmDataPoints (timestamps : list string) (bpmProfile paceProfile : list float) :=
  dataPoints timestamps bpmProfile paceProfile bpmProfile.
Definition paceDataPoints (timestamps : list string) (bpmProfile paceProfile : list float) :=
  dataPoints timestamps bpmProfile paceProfile paceProfile.

End Popup.
End Popup.

Module ShiftingTitle.

(** The index of the title on display, or [None] for JavaScript's [NaN]
    (what [% 0] yields); [nextIndex n] is the updater
    [(prevIndex) => (prevIndex + 1) % titles.length] for [n] titles. *)
Definition nextIndex (length : Z) (prevIndex : option Z) : option Z :=
  match prevIndex with
  | Some prevIndex => if length =? 0 then None else Some (Z.rem (prevIndex + 1) length)
  | None => None
  end.

(** [titles[currentIndex]]. *)
Definition shown (titles : list string) (currentIndex : option Z) : option string :=
  match currentIndex with
  | Some i => if i <? 0 then None else nth_error titles (Z.to_nat i)
  | None => None
  end.

(** The index after [k] changes, from the initial state [useState(0)]. *)
Fixpoint indexAfter (length : Z) (k : nat) : option Z :=
  match k with
  | O => Some 0
  | S k' => nextIndex length (indexAfter length k')
  end.

End ShiftingTitle.

(** * Part II: lemmas *)

(** ** Binary64 arithmetic: rounding never yields NaN, and magnitudes *)

Lemma digits2_pos_log2 p : Zpos (digits2_pos p) = Z.log2 (Zpos p) + 1.
Proof.
  induction p as [p IH|p IH|]; cbn [digits2_pos]; rewrite ?Pos2Z.inj_succ, ?IH.
  - rewrite (Pos2Z.inj_xI p). rewrite Z.log2_succ_double by lia. lia.
  - rewrite (Pos2Z.inj_xO p). rewrite Z.log2_double by lia. lia.
  - reflexivity.
Qed.

Lemma Zdigits2_log2 m : 0 < m -> Zdigits2 m = Z.log2 m + 1.
Proof. destruct m; try lia. intros _. apply digits2_pos_log2. Qed.

Lemma Zdigits2_nonneg m : 0 <= Zdigits2 m.
Proof. destruct m; simpl; lia. Qed.

Lemma Zdigits2_0 : Zdigits2 0 = 0.
Proof. reflexivity. Qed.

Lemma Zdigits2_pos m : 0 < m -> 1 <= Zdigits2 m.
Proof. intros H. rewrite Zdigits2_log2 by auto. pose proof (Z.log2_nonneg m). lia. Qed.

Lemma Zdigits2_le m n : 0 <= m <= n -> Zdigits2 m <= Zdigits2 n.
Proof.
  intros [H0 H]. destruct (Z.eq_dec m 0) as [->|Hm].
  - apply Zdigits2_nonneg.
  - rewrite !Zdigits2_log2 by lia. pose proof (Z.log2_le_mono m n H). lia.
Qed.

Lemma Zdigits2_succ m : 0 <= m -> Zdigits2 (m + 1) <= Zdigits2 m + 1.
Proof.
  intros H. destruct (Z.eq_dec m 0) as [->|Hm]; [simpl; lia|].
  rewrite !Zdigits2_log2 by lia.
  pose proof (Z.log2_succ_le m). unfold Z.succ in *. lia.
Qed.

Lemma Zdigits2_shiftr m k :
  0 <= m -> 0 <= k -> 0 < m / 2 ^ k -> Zdigits2 (m / 2 ^ k) = Zdigits2 m - k.
Proof.
  intros Hm Hk Hq.
  assert (0 < m). { destruct (Z.eq_dec m 0) as [->|]; [|lia]. rewrite Z.div_0_l in Hq; lia. }
  rewrite !Zdigits2_log2 by lia.
  rewrite <- Z.shiftr_div_pow2 by lia.
  rewrite Z.log2_shiftr by lia.
  rewrite <- Z.shiftr_div_pow2 in Hq by lia.
  assert (Hl : 0 < Z.shiftr m k) by lia.
  pose proof (Z.log2_nonneg m).
  destruct (Z.le_gt_cases k (Z.log2 m)); [lia|].
  exfalso. rewrite Z.shiftr_eq_0 in Hl; lia.
Qed.

Lemma Zdigits2_mul m n : 0 < m -> 0 < n -> Zdigits2 (m * n) <= Zdigits2 m + Zdigits2 n.
Proof.
  intros Hm Hn. rewrite !Zdigits2_log2 by nia.
  pose proof (Z.log2_mul_above m n). lia.
Qed.

Lemma Zdigits2_mul_pow2 m k : 0 < m -> 0 <= k -> Zdigits2 (m * 2 ^ k) = Zdigits2 m + k.
Proof.
  intros Hm Hk. assert (0 < 2 ^ k) by (apply Z.pow_pos_nonneg; lia).
  rewrite !Zdigits2_log2 by nia.
  rewrite <- Z.shiftl_mul_pow2 by lia. rewrite Z.log2_shiftl by lia. lia.
Qed.

Lemma Zdigits2_lt_pow2 m d : 0 <= m -> 0 <= d -> (Zdigits2 m <= d <-> m < 2 ^ d).
Proof.
  intros Hm Hd. destruct (Z.eq_dec m 0) as [->|Hne].
  - simpl. split; intros; [apply Z.pow_pos_nonneg|]; lia.
  - rewrite Zdigits2_log2 by lia. split; intros H.
    + apply Z.log2_lt_pow2; lia.
    + apply Z.log2_lt_pow2 in H; lia.
Qed.

Lemma fexp64 e : fexp prec emax e = Z.max (e - 53) (-1074).
Proof. reflexivity. Qed.

Lemma shr_m_shr_1 mrs : 0 <= shr_m mrs -> shr_m (shr_1 mrs) = shr_m mrs / 2.
Proof.
  destruct mrs as [m r s]. cbn [shr_m]. intros H.
  destruct m as [|p|p]; [reflexivity | | lia].
  destruct p as [p|p|]; cbn [shr_1 shr_m].
  - apply Z.div_unique with (r := 1); lia.
  - apply Z.div_unique with (r := 0); lia.
  - reflexivity.
Qed.

Lemma shr_m_iter p :
  forall mrs, 0 <= shr_m mrs ->
    shr_m (iter_pos shr_1 p mrs) = shr_m mrs / 2 ^ Zpos p.
Proof.
  assert (Hdiv2 : forall a, 0 <= a -> 0 <= a / 2) by (intros; apply Z.div_pos; lia).
  induction p as [p IH|p IH|]; intros mrs H; cbn [iter_pos].
  - assert (H1 : 0 <= shr_m (shr_1 mrs)) by (rewrite shr_m_shr_1; auto).
    assert (Hp : 0 < 2 ^ Zpos p) by (apply Z.pow_pos_nonneg; lia).
    assert (H2 : 0 <= shr_m (iter_pos shr_1 p (shr_1 mrs))).
    { rewrite IH by auto. apply Z.div_pos; lia. }
    rewrite IH, IH, shr_m_shr_1 by auto.
    rewrite !Z.div_div by lia.
    f_equal.
    replace (Zpos p~1) with (1 + Zpos p + Zpos p) by lia.
    rewrite !Z.pow_add_r by lia. change (2 ^ 1) with 2. lia.
  - assert (Hp : 0 < 2 ^ Zpos p) by (apply Z.pow_pos_nonneg; lia).
    assert (H2 : 0 <= shr_m (iter_pos shr_1 p mrs)).
    { rewrite IH by auto. apply Z.div_pos; lia. }
    rewrite IH, IH by auto.
    rewrite !Z.div_div by lia.
    f_equal.
    replace (Zpos p~0) with (Zpos p + Zpos p) by lia.
    rewrite !Z.pow_add_r by lia. lia.
  - rewrite shr_m_shr_1 by auto. reflexivity.
Qed.

Lemma shr_m_of_loc m l : shr_m (shr_record_of_loc m l) = m.
Proof. destruct l as [|[| |]]; reflexivity. Qed.

Lemma shr_fexp_spec m e l :
  0 <= m ->
  snd (shr_fexp prec emax m e l) = Z.max e (fexp prec emax (Zdigits2 m + e)) /\
  shr_m (fst (shr_fexp prec emax m e l))
  = m / 2 ^ (Z.max e (fexp prec emax (Zdigits2 m + e)) - e).
Proof.
  intros Hm. unfold shr_fexp, shr.
  set (f := fexp prec emax (Zdigits2 m + e)).
  destruct (f - e) as [|p|p] eqn:Hn; cbn [fst snd].
  - replace (Z.max e f) with e by lia. rewrite Z.sub_diag, shr_m_of_loc.
    now rewrite Z.div_1_r.
  - replace (Z.max e f) with (e + Zpos p) by lia.
    rewrite shr_m_iter by (rewrite shr_m_of_loc; auto).
    rewrite shr_m_of_loc. split; [reflexivity|]. f_equal. f_equal. lia.
  - replace (Z.max e f) with e by lia. rewrite Z.sub_diag, shr_m_of_loc.
    now rewrite Z.div_1_r.
Qed.

Lemma round_nearest_even_bounds m l :
  0 <= m -> m <= round_nearest_even m l <= m + 1.
Proof.
  intros H. destruct l as [|[| |]]; simpl; try lia.
  destruct (Z.even m); lia.
Qed.

(** What [binary_round_aux] returns on a non-negative mantissa. *)
Lemma binary_round_aux_spec s m e l :
  0 <= m ->
  exists m1 e1 e2,
    e1 = Z.max e (fexp prec emax (Zdigits2 m + e)) /\
    m / 2 ^ (e1 - e) <= m1 <= m / 2 ^ (e1 - e) + 1 /\
    e2 = Z.max e1 (fexp prec emax (Zdigits2 m1 + e1)) /\
    binary_round_aux prec emax s m e l
    = match m1 / 2 ^ (e2 - e1) with
      | Z0 => S754_zero s
      | Zpos p => if e2 <=? 971 then S754_finite s p e2 else S754_infinity s
      | Zneg _ => S754_nan
      end.
Proof.
  intros Hm. unfold binary_round_aux.
  pose proof (shr_fexp_spec m e l Hm) as [He1 Hm1].
  destruct (shr_fexp prec emax m e l) as [mrs' e'] eqn:E1. cbn [fst snd] in He1, Hm1.
  set (m1 := round_nearest_even (shr_m mrs') (loc_of_shr_record mrs')).
  assert (Hq : 0 <= m / 2 ^ (e' - e)).
  { apply Z.div_pos; [lia|]. apply Z.pow_pos_nonneg; lia. }
  assert (Hb : shr_m mrs' <= m1 <= shr_m mrs' + 1).
  { apply round_nearest_even_bounds. rewrite Hm1, <- He1. exact Hq. }
  assert (Hm1' : 0 <= m1) by (rewrite Hm1, <- He1 in Hb; lia).
  pose proof (shr_fexp_spec m1 e' loc_Exact Hm1') as [He2 Hm2].
  destruct (shr_fexp prec emax m1 e' loc_Exact) as [mrs'' e''] eqn:E2.
  cbn [fst snd] in He2, Hm2.
  exists m1, e', e''. split; [exact He1|]. split.
  { rewrite Hm1, <- He1 in Hb. exact Hb. }
  split; [exact He2|].
  rewrite Hm2, <- He2. reflexivity.
Qed.

Lemma sf_below_finite k x : sf_below k x -> sf_finite x.
Proof. destruct x; simpl; auto. Qed.

Lemma sf_finite_number x : sf_finite x -> sf_number x.
Proof. destruct x; simpl; auto. Qed.

Lemma sf_below_le k k' x : sf_below k x -> k <= k' -> sf_below k' x.
Proof. destruct x; simpl; auto. lia. Qed.

Lemma div_pow2_pos m k : 0 < m -> 0 <= k < Zdigits2 m -> 0 < m / 2 ^ k.
Proof.
  intros Hm Hk. rewrite Zdigits2_log2 in Hk by auto.
  apply Z.div_str_pos. split; [apply Z.pow_pos_nonneg; lia|].
  destruct (Z.log2_spec m Hm) as [Hl _].
  eapply Z.le_trans; [|exact Hl]. apply Z.pow_le_mono_r; lia.
Qed.

Lemma binary_round_aux_number s m e l :
  0 <= m -> sf_number (binary_round_aux prec emax s m e l).
Proof.
  intros Hm.
  destruct (binary_round_aux_spec s m e l Hm) as (m1 & e1 & e2 & He1 & Hm1 & He2 & ->).
  assert (0 <= m / 2 ^ (e1 - e)).
  { apply Z.div_pos; [lia|]. apply Z.pow_pos_nonneg; lia. }
  assert (H2 : 0 <= m1 / 2 ^ (e2 - e1)).
  { apply Z.div_pos; [lia|]. apply Z.pow_pos_nonneg; lia. }
  destruct (m1 / 2 ^ (e2 - e1)) as [|p|p];
    [exact I | destruct (e2 <=? 971); exact I | lia].
Qed.

Lemma binary_round_aux_below s m e l k :
  0 <= m -> Zdigits2 m + e <= k -> -1074 <= k <= 1023 -> e <= 971 ->
  sf_below (k + 1) (binary_round_aux prec emax s m e l).
Proof.
  intros Hm Hk Hk' He.
  destruct (binary_round_aux_spec s m e l Hm) as (m1 & e1 & e2 & He1 & Hm1 & He2 & ->).
  rewrite fexp64 in He1, He2.
  pose proof (Zdigits2_nonneg m) as Hd.
  assert (Hle1 : 0 <= e1 - e) by lia.
  set (q := m / 2 ^ (e1 - e)) in *.
  assert (Hq : 0 <= q).
  { apply Z.div_pos; [lia|]. apply Z.pow_pos_nonneg; lia. }
  assert (Hd1 : Zdigits2 m1 + e1 <= k + 1).
  { destruct (Z.eq_dec q 0) as [Hq0|Hq0].
    - assert (Zdigits2 m1 <= Zdigits2 1) by (apply Zdigits2_le; lia).
      change (Zdigits2 1) with 1 in *. lia.
    - assert (Hdq : Zdigits2 q = Zdigits2 m - (e1 - e))
        by (apply Zdigits2_shiftr; lia).
      assert (Zdigits2 m1 <= Zdigits2 (q + 1)) by (apply Zdigits2_le; lia).
      pose proof (Zdigits2_succ q Hq). lia. }
  clearbody q.
  assert (Hle2 : 0 <= e2 - e1) by lia.
  assert (Hq2 : 0 <= m1 / 2 ^ (e2 - e1)).
  { apply Z.div_pos; [lia|]. apply Z.pow_pos_nonneg; lia. }
  assert (Hdp : 0 < m1 / 2 ^ (e2 - e1) ->
                Zdigits2 (m1 / 2 ^ (e2 - e1)) = Zdigits2 m1 - (e2 - e1))
    by (intros; apply Zdigits2_shiftr; lia).
  destruct (m1 / 2 ^ (e2 - e1)) as [|p|p]; [exact I | | lia].
  assert (He2' : e2 <= 971) by lia.
  apply Z.leb_le in He2'. rewrite He2'.
  assert (Hpos : 0 < Zpos p) by lia. specialize (Hdp Hpos).
  cbn [Zdigits2] in Hdp. cbn [sf_below]. lia.
Qed.

Lemma binary_round_aux_atleast s m e l :
  0 < m -> -1021 <= Zdigits2 m + e ->
  sf_atleast (Zdigits2 m + e) (binary_round_aux prec emax s m e l).
Proof.
  intros Hm Hk.
  destruct (binary_round_aux_spec s m e l (Z.lt_le_incl _ _ Hm))
    as (m1 & e1 & e2 & He1 & Hm1 & He2 & ->).
  rewrite fexp64 in He1, He2.
  pose proof (Zdigits2_pos m Hm) as Hd.
  assert (Hle1 : 0 <= e1 - e) by lia.
  set (q := m / 2 ^ (e1 - e)) in *.
  assert (Hq : 0 < q) by (apply div_pow2_pos; lia).
  assert (Hdq : Zdigits2 q = Zdigits2 m - (e1 - e)) by (apply Zdigits2_shiftr; lia).
  assert (Hd1 : Zdigits2 q <= Zdigits2 m1) by (apply Zdigits2_le; lia).
  clearbody q.
  assert (Hle2 : 0 <= e2 - e1) by lia.
  assert (Hm2 : 0 < m1 / 2 ^ (e2 - e1)) by (apply div_pow2_pos; lia).
  assert (Hdp : Zdigits2 (m1 / 2 ^ (e2 - e1)) = Zdigits2 m1 - (e2 - e1))
    by (apply Zdigits2_shiftr; lia).
  destruct (m1 / 2 ^ (e2 - e1)) as [|p|p]; try lia.
  destruct (e2 <=? 971); [|exact I].
  cbn [Zdigits2] in Hdp. cbn [sf_atleast]. lia.
Qed.

Lemma iter_xO m d : Zpos (Pos.iter xO m d) = Zpos m * 2 ^ Zpos d.
Proof.
  induction d as [|d IH] using Pos.peano_ind.
  - simpl. lia.
  - rewrite Pos.iter_succ, Pos2Z.inj_xO, IH, Pos2Z.inj_succ, Z.pow_succ_r by lia. lia.
Qed.

Lemma shl_align_spec mx ex ex' :
  snd (shl_align mx ex ex') = Z.min ex ex' /\
  Zpos (fst (shl_align mx ex ex')) = Zpos mx * 2 ^ (ex - Z.min ex ex').
Proof.
  unfold shl_align. destruct (ex' - ex) as [|d|d] eqn:Hd; cbn [fst snd].
  - replace (Z.min ex ex') with ex by lia. rewrite Z.sub_diag. simpl. lia.
  - replace (Z.min ex ex') with ex by lia. rewrite Z.sub_diag. simpl. lia.
  - replace (Z.min ex ex') with ex' by lia. split; [reflexivity|].
    rewrite iter_xO. f_equal. f_equal. lia.
Qed.

Lemma shl_align_digits mx ex ex' :
  Zdigits2 (Zpos (fst (shl_align mx ex ex'))) + snd (shl_align mx ex ex')
  = Zdigits2 (Zpos mx) + ex.
Proof.
  destruct (shl_align_spec mx ex ex') as [-> ->].
  rewrite Zdigits2_mul_pow2 by lia. lia.
Qed.

Lemma binary_round_number s mx ex : sf_number (binary_round prec emax s mx ex).
Proof.
  unfold binary_round. destruct (shl_align _ _ _) as [mz ez].
  apply binary_round_aux_number. lia.
Qed.

Lemma binary_round_below s mx ex k :
  Zdigits2 (Zpos mx) + ex <= k -> -1074 <= k <= 1023 -> ex <= 971 ->
  sf_below (k + 1) (binary_round prec emax s mx ex).
Proof.
  intros Hk Hk' He. unfold binary_round.
  pose proof (shl_align_digits mx ex (fexp prec emax (Zpos (digits2_pos mx) + ex))) as Hd.
  pose proof (shl_align_spec mx ex (fexp prec emax (Zpos (digits2_pos mx) + ex))) as [He' _].
  destruct (shl_align _ _ _) as [mz ez]. cbn [fst snd] in *.
  apply binary_round_aux_below; lia.
Qed.

Lemma binary_round_atleast s mx ex :
  -1021 <= Zdigits2 (Zpos mx) + ex ->
  sf_atleast (Zdigits2 (Zpos mx) + ex) (binary_round prec emax s mx ex).
Proof.
  intros Hk. unfold binary_round.
  pose proof (shl_align_digits mx ex (fexp prec emax (Zpos (digits2_pos mx) + ex))) as Hd.
  destruct (shl_align _ _ _) as [mz ez]. cbn [fst snd] in *.
  rewrite <- Hd. apply binary_round_aux_atleast; lia.
Qed.

Lemma binary_normalize_number m e sz : sf_number (binary_normalize prec emax m e sz).
Proof.
  destruct m; simpl; auto; apply binary_round_number.
Qed.

Lemma binary_normalize_below m e sz k :
  Zdigits2 m + e <= k -> -1074 <= k <= 1023 -> e <= 971 ->
  sf_below (k + 1) (binary_normalize prec emax m e sz).
Proof.
  intros Hk Hk' He. destruct m; simpl; auto; now apply binary_round_below.
Qed.

Lemma binary_normalize_atleast m e sz :
  m <> 0 -> -1021 <= Zdigits2 m + e ->
  sf_atleast (Zdigits2 m + e) (binary_normalize prec emax m e sz).
Proof.
  intros Hm Hk. destruct m; [contradiction| |]; simpl; now apply binary_round_atleast.
Qed.

Lemma valid_finite s m e :
  valid_binary (S754_finite s m e) = true ->
  Z.max (Zpos (digits2_pos m) + e - 53) (-1074) = e /\ e <= 971.
Proof.
  cbn [SpecFloat.valid_binary]. unfold bounded, canonical_mantissa.
  rewrite andb_true_iff, Z.eqb_eq, Z.leb_le, fexp64. auto.
Qed.

(** *** Multiplication *)

Lemma SFmul_number_r x y :
  sf_number x -> sf_proper y -> sf_number (SFmul prec emax x y).
Proof.
  destruct x, y; cbn [sf_proper sf_number SFmul]; intros Hx Hy;
    try contradiction; try exact I.
  apply binary_round_aux_number. lia.
Qed.

Lemma SFmul_number_l x y :
  sf_proper x -> sf_number y -> sf_number (SFmul prec emax x y).
Proof.
  destruct x, y; cbn [sf_proper sf_number SFmul]; intros Hx Hy;
    try contradiction; try exact I.
  apply binary_round_aux_number. lia.
Qed.

Lemma SFmul_below a b x y :
  valid_binary x = true -> valid_binary y = true ->
  sf_below a x -> sf_below b y -> -1074 <= a + b <= 1023 ->
  sf_below (a + b + 1) (SFmul prec emax x y).
Proof.
  destruct x as [sx|sx| |sx mx ex], y as [sy|sy| |sy my ey];
    cbn [sf_below SFmul]; auto; try tauto.
  intros Vx Vy Ha Hb Hab.
  apply valid_finite in Vx, Vy.
  assert (H : Zdigits2 (Zpos mx * Zpos my) <= Zdigits2 (Zpos mx) + Zdigits2 (Zpos my))
    by (apply Zdigits2_mul; lia).
  change (Zpos mx * Zpos my) with (Zpos (mx * my)) in H.
  cbn [Zdigits2] in H.
  apply binary_round_aux_below; cbn [Zdigits2]; lia.
Qed.

(** *** Addition and subtraction *)

Lemma SFadd_number_l x y :
  sf_finite x -> sf_number y -> sf_number (SFadd prec emax x y).
Proof.
  destruct x as [sx|sx| |sx mx ex], y as [sy|sy| |sy my ey];
    cbn [sf_finite sf_number SFadd SFsub]; intros Hx Hy;
    try contradiction; try exact I; try (destruct sx, sy; exact I).
  apply binary_normalize_number.
Qed.


Lemma SFsub_number_l x y :
  sf_finite x -> sf_number y -> sf_number (SFsub prec emax x y).
Proof.
  destruct x as [sx|sx| |sx mx ex], y as [sy|sy| |sy my ey];
    cbn [sf_finite sf_number SFadd SFsub]; intros Hx Hy;
    try contradiction; try exact I; try (destruct sx, sy; exact I).
  apply binary_normalize_number.
Qed.

Lemma SFsub_number_r x y :
  sf_number x -> sf_finite y -> sf_number (SFsub prec emax x y).
Proof.
  destruct x as [sx|sx| |sx mx ex], y as [sy|sy| |sy my ey];
    cbn [sf_finite sf_number SFadd SFsub]; intros Hx Hy;
    try contradiction; try exact I; try (destruct sx, sy; exact I).
  apply binary_normalize_number.
Qed.

Lemma Zdigits2_opp m : Zdigits2 (- m) = Zdigits2 m.
Proof. destruct m; reflexivity. Qed.

Lemma Zdigits2_abs m : Zdigits2 (Z.abs m) = Zdigits2 m.
Proof. destruct m; reflexivity. Qed.

Lemma Zdigits2_le_pow2 m d : 0 <= d -> Z.abs m < 2 ^ d -> Zdigits2 m <= d.
Proof.
  intros Hd H. rewrite <- Zdigits2_abs. apply Zdigits2_lt_pow2; lia.
Qed.

Lemma pos_lt_pow2_digits p : Zpos p < 2 ^ Zpos (digits2_pos p).
Proof.
  apply (Zdigits2_lt_pow2 (Zpos p)); simpl; lia.
Qed.

(** The aligned mantissas of a sum: both below [2 ^ (k - ez)]. *)
Lemma aligned_sum_digits mx ex my ey k :
  Zpos (digits2_pos mx) + ex <= k -> Zpos (digits2_pos my) + ey <= k ->
  let ez := Z.min ex ey in
  forall c1 c2 : bool,
  Zdigits2 ((if c1 then - Zpos (fst (shl_align mx ex ez)) else Zpos (fst (shl_align mx ex ez)))
            + (if c2 then - Zpos (fst (shl_align my ey ez)) else Zpos (fst (shl_align my ey ez))))
  + ez <= k + 1.
Proof.
  intros Hx Hy ez c1 c2.
  destruct (shl_align_spec mx ex ez) as [_ ->].
  destruct (shl_align_spec my ey ez) as [_ ->].
  replace (Z.min ex ez) with ez by lia. replace (Z.min ey ez) with ez by lia.
  pose proof (pos_lt_pow2_digits mx) as Bx.
  pose proof (pos_lt_pow2_digits my) as By.
  assert (Px : 0 < 2 ^ (ex - ez)) by (apply Z.pow_pos_nonneg; lia).
  assert (Py : 0 < 2 ^ (ey - ez)) by (apply Z.pow_pos_nonneg; lia).
  assert (Hpx : Zpos mx * 2 ^ (ex - ez) < 2 ^ (k - ez)).
  { apply Z.lt_le_trans with (2 ^ Zpos (digits2_pos mx) * 2 ^ (ex - ez)); [nia|].
    rewrite <- Z.pow_add_r by lia. apply Z.pow_le_mono_r; lia. }
  assert (Hpy : Zpos my * 2 ^ (ey - ez) < 2 ^ (k - ez)).
  { apply Z.lt_le_trans with (2 ^ Zpos (digits2_pos my) * 2 ^ (ey - ez)); [nia|].
    rewrite <- Z.pow_add_r by lia. apply Z.pow_le_mono_r; lia. }
  assert (Hk : 0 <= k - ez) by lia.
  assert (Hd : Zdigits2
                 ((if c1 then - (Zpos mx * 2 ^ (ex - ez)) else Zpos mx * 2 ^ (ex - ez))
                  + (if c2 then - (Zpos my * 2 ^ (ey - ez)) else Zpos my * 2 ^ (ey - ez)))
               <= k - ez + 1).
  { apply Zdigits2_le_pow2; [lia|].
    rewrite Z.pow_add_r by lia. change (2 ^ 1) with 2.
    assert (Ux : 0 < Zpos mx * 2 ^ (ex - ez)) by (apply Z.mul_pos_pos; lia).
    assert (Uy : 0 < Zpos my * 2 ^ (ey - ez)) by (apply Z.mul_pos_pos; lia).
    revert Hpx Hpy Ux Uy.
    generalize (Zpos mx * 2 ^ (ex - ez)) (Zpos my * 2 ^ (ey - ez)) (2 ^ (k - ez)).
    intros u v w Hu Hv Hu0 Hv0.
    destruct c1, c2; lia. }
  lia.
Qed.


Lemma SFsub_below a b x y :
  valid_binary x = true -> valid_binary y = true ->
  sf_below a x -> sf_below b y -> -1074 <= Z.max a b + 1 <= 1023 ->
  sf_below (Z.max a b + 2) (SFsub prec emax x y).
Proof.
  destruct x as [sx|sx| |sx mx ex], y as [sy|sy| |sy my ey];
    cbn [sf_below SFsub]; intros Vx Vy Ha Hb Hab;
    try contradiction; try (destruct sx, sy; exact I); try lia.
  apply valid_finite in Vx, Vy.
  replace (Z.max a b + 2) with (Z.max a b + 1 + 1) by lia.
  apply binary_normalize_below; try lia.
  unfold cond_Zopp.
  pose proof (aligned_sum_digits mx ex my ey (Z.max a b) ltac:(lia) ltac:(lia)
                sx (negb sy)) as H.
  cbv zeta in H. destruct sy; cbn [negb] in H.
  - rewrite Z.sub_opp_r. exact H.
  - rewrite <- Z.add_opp_r. exact H.
Qed.

(** *** Division *)

Lemma SFdiv_core_spec mx ex my ey :
  exists l,
    SFdiv_core_binary prec emax (Zpos mx) ex (Zpos my) ey
    = (Zpos mx * 2 ^ (ex - ey - Z.min (fexp prec emax (Zdigits2 (Zpos mx) + ex
                                                      - (Zdigits2 (Zpos my) + ey)))
                                     (ex - ey))
       / Zpos my,
       Z.min (fexp prec emax (Zdigits2 (Zpos mx) + ex - (Zdigits2 (Zpos my) + ey)))
             (ex - ey),
       l).
Proof.
  unfold SFdiv_core_binary.
  set (e' := Z.min _ (ex - ey)).
  set (s := ex - ey - e').
  assert (Hs : 0 <= s) by (unfold s, e'; lia).
  set (m' := match s with Z.pos _ => Z.shiftl (Zpos mx) s | 0 => Zpos mx | Z.neg _ => 0 end).
  assert (Hm' : m' = Zpos mx * 2 ^ s).
  { unfold m'. destruct s as [|p|p] eqn:E; [simpl; lia | | lia].
    rewrite Z.shiftl_mul_pow2 by lia. reflexivity. }
  assert (Hq : fst (Z.div_eucl m' (Zpos my)) = m' / Zpos my) by reflexivity.
  destruct (Z.div_eucl m' (Zpos my)) as [q r]. cbn [fst] in Hq.
  eexists. rewrite Hq, Hm'. reflexivity.
Qed.

Lemma SFdiv_number_r x y :
  sf_number x -> sf_proper y -> sf_number (SFdiv prec emax x y).
Proof.
  destruct x as [sx|sx| |sx mx ex], y as [sy|sy| |sy my ey];
    cbn [sf_proper sf_number SFdiv]; intros Hx Hy;
    try contradiction; try exact I.
  destruct (SFdiv_core_spec mx ex my ey) as (l & ->).
  apply binary_round_aux_number.
  apply Z.div_pos; [|lia].
  apply Z.mul_nonneg_nonneg; [lia|]. apply Z.pow_nonneg. lia.
Qed.


Lemma pos_ge_pow2_digits p : 2 ^ (Zpos (digits2_pos p) - 1) <= Zpos p.
Proof.
  rewrite digits2_pos_log2. replace (Z.log2 (Zpos p) + 1 - 1) with (Z.log2 (Zpos p)) by lia.
  apply Z.log2_spec. lia.
Qed.

(** The quotient of the mantissas has at most [d] digits. *)
Lemma quotient_digits mx my s d :
  0 <= s -> 0 <= d ->
  Zpos (digits2_pos mx) + s - Zpos (digits2_pos my) + 1 <= d ->
  Zdigits2 (Zpos mx * 2 ^ s / Zpos my) <= d.
Proof.
  intros Hs Hd H.
  assert (Hq : 0 <= Zpos mx * 2 ^ s / Zpos my).
  { apply Z.div_pos; [|lia]. apply Z.mul_nonneg_nonneg; [lia|]. apply Z.pow_nonneg. lia. }
  apply Zdigits2_lt_pow2; auto.
  apply Z.div_lt_upper_bound; [lia|].
  pose proof (pos_lt_pow2_digits mx) as Bx.
  pose proof (pos_ge_pow2_digits my) as By.
  assert (Ps : 0 < 2 ^ s) by (apply Z.pow_pos_nonneg; lia).
  assert (Pd : 0 < 2 ^ d) by (apply Z.pow_pos_nonneg; lia).
  assert (H1 : Zpos mx * 2 ^ s < 2 ^ (Zpos (digits2_pos mx) + s)).
  { rewrite Z.pow_add_r by lia. nia. }
  assert (H2 : 2 ^ (Zpos (digits2_pos mx) + s) <= 2 ^ (Zpos (digits2_pos my) - 1) * 2 ^ d).
  { rewrite <- Z.pow_add_r by lia. apply Z.pow_le_mono_r; lia. }
  nia.
Qed.

Lemma SFdiv_below a b x y :
  valid_binary x = true -> valid_binary y = true ->
  sf_below a x -> sf_proper y -> sf_atleast b y ->
  -1074 <= a - b + 1 <= 1023 ->
  sf_below (a - b + 2) (SFdiv prec emax x y).
Proof.
  destruct x as [sx|sx| |sx mx ex], y as [sy|sy| |sy my ey];
    cbn [sf_below sf_proper sf_atleast SFdiv]; intros Vx Vy Ha Hy Hb Hab;
    try contradiction; try exact I.
  apply valid_finite in Vx, Vy.
  destruct (SFdiv_core_spec mx ex my ey) as (l & ->).
  rewrite fexp64. cbn [Zdigits2].
  set (e' := Z.min _ (ex - ey)).
  assert (He' : e' <= ex - ey) by (unfold e'; lia).
  assert (He'' : e' <= Z.max (a - b - 53) (-1074)) by (unfold e'; lia).
  set (s := ex - ey - e').
  assert (Hs : 0 <= s) by (unfold s; lia).
  assert (Hq : 0 <= Zpos mx * 2 ^ s / Zpos my).
  { apply Z.div_pos; [|lia]. apply Z.mul_nonneg_nonneg; [lia|]. apply Z.pow_nonneg. lia. }
  assert (Hd : Zdigits2 (Zpos mx * 2 ^ s / Zpos my)
               <= Z.max 0 (Zpos (digits2_pos mx) + s - Zpos (digits2_pos my) + 1)).
  { apply quotient_digits; lia. }
  replace (a - b + 2) with (a - b + 1 + 1) by lia.
  apply binary_round_aux_below; lia.
Qed.

(** *** Comparison *)

Lemma SFcompare_antisym x y :
  sf_number x -> sf_number y ->
  SFcompare y x = option_map CompOpp (SFcompare x y).
Proof.
  destruct x as [sx|sx| |sx mx ex], y as [sy|sy| |sy my ey];
    cbn [sf_number SFcompare option_map]; intros Hx Hy;
    try contradiction; try reflexivity;
    try (destruct sx; reflexivity); try (destruct sy; reflexivity);
    try (destruct sx, sy; reflexivity).
  destruct sx, sy; cbn [CompOpp]; try reflexivity.
  - rewrite (Z.compare_antisym ex ey).
    destruct (ex ?= ey); cbn [CompOpp]; try reflexivity.
    change (Pos.compare_cont Eq my mx) with (my ?= mx)%positive.
    change (Pos.compare_cont Eq mx my) with (mx ?= my)%positive.
    rewrite (Pos.compare_antisym mx my).
    destruct (mx ?= my)%positive; reflexivity.
  - rewrite (Z.compare_antisym ex ey).
    destruct (ex ?= ey); cbn [CompOpp]; try reflexivity.
    change (Pos.compare_cont Eq my mx) with (my ?= mx)%positive.
    change (Pos.compare_cont Eq mx my) with (mx ?= my)%positive.
    rewrite (Pos.compare_antisym mx my).
    destruct (mx ?= my)%positive; reflexivity.
Qed.

Lemma SFltb_false_leb x y :
  sf_number x -> sf_number y -> SFltb x y = false -> SFleb y x = true.
Proof.
  intros Hx Hy. unfold SFltb, SFleb. rewrite (SFcompare_antisym x y Hx Hy).
  destruct (SFcompare x y) as [[| |]|] eqn:E; cbn; try discriminate; auto.
  destruct x, y; cbn in *; try contradiction; try discriminate;
    repeat match goal with b : bool |- _ => destruct b end; discriminate.
Qed.

Lemma SFltb_true_leb x y : SFltb x y = true -> SFleb x y = true.
Proof.
  unfold SFltb, SFleb. destruct (SFcompare x y) as [[| |]|]; auto.
Qed.

Lemma SFleb_number x y : SFleb x y = true -> sf_number x /\ sf_number y.
Proof.
  unfold SFleb. destruct x, y; cbn; auto; discriminate.
Qed.

Lemma SFcompare_refl x : sf_number x -> SFcompare x x = Some Eq.
Proof.
  destruct x as [s|s| |s m e]; cbn; intros H; try contradiction; auto.
  - destruct s; reflexivity.
  - rewrite Z.compare_refl.
    change (Pos.compare_cont Eq m m) with (m ?= m)%positive.
    rewrite Pos.compare_refl. destruct s; reflexivity.
Qed.

(** ** Slices *)

Lemma len_nonneg {A} (l : list A) : 0 <= len l.
Proof. unfold len; lia. Qed.

Lemma len_nil {A} : len (@nil A) = 0.
Proof. reflexivity. Qed.

Lemma len_app {A} (l1 l2 : list A) : len (l1 ++ l2) = len l1 + len l2.
Proof. unfold len; rewrite length_app; lia. Qed.

Lemma len_snoc {A} (l : list A) (x : A) : len (l ++ [x]) = len l + 1.
Proof. rewrite len_app; reflexivity. Qed.

Lemma len_repeat {A} (x : A) (n : Z) : 0 <= n -> len (repeat x (Z.to_nat n)) = n.
Proof. intros; unfold len; rewrite repeat_length; lia. Qed.

Lemma len_firstn {A} (l : list A) (n : Z) :
  0 <= n <= len l -> len (firstn (Z.to_nat n) l) = n.
Proof. unfold len; intros; rewrite length_firstn; lia. Qed.

Lemma len_map {A B} (f : A -> B) (l : list A) : len (map f l) = len l.
Proof. unfold len; now rewrite length_map. Qed.

Lemma length_update {A} (l : list A) (n : nat) (v : A) :
  length (update l n v) = length l.
Proof.
  revert n; induction l as [|h t IH]; intros [|n]; simpl; auto.
Qed.

Lemma len_update {A} (l : list A) (n : nat) (v : A) : len (update l n v) = len l.
Proof. unfold len; now rewrite length_update. Qed.

Lemma nth_error_update_eq {A} (l : list A) (n : nat) (v : A) :
  (n < length l)%nat -> nth_error (update l n v) n = Some v.
Proof.
  revert n; induction l as [|h t IH]; intros [|n] H; simpl in *; try lia; auto.
  apply IH; lia.
Qed.

Lemma nth_error_update_neq {A} (l : list A) (n m : nat) (v : A) :
  n <> m -> nth_error (update l n v) m = nth_error l m.
Proof.
  revert n m; induction l as [|h t IH]; intros [|n] [|m] H; simpl; auto; try lia.
Qed.

Lemma elem_lt {A} (l : list A) i v : elem l i v -> 0 <= i < len l.
Proof.
  intros [H0 H]. split; auto.
  assert (Hn : nth_error l (Z.to_nat i) <> None) by congruence.
  apply nth_error_Some in Hn. unfold len; lia.
Qed.

Lemma elem_In {A} (l : list A) i v : elem l i v -> In v l.
Proof. intros [_ H]; eapply nth_error_In; eauto. Qed.

Lemma In_elem {A} (l : list A) v : In v l -> exists i, elem l i v.
Proof.
  intros H. apply In_nth_error in H as [n Hn].
  exists (Z.of_nat n). split; [lia|]. now rewrite Nat2Z.id.
Qed.

Lemma elem_exists {A} (l : list A) i : 0 <= i < len l -> exists v, elem l i v.
Proof.
  intros H. destruct (nth_error l (Z.to_nat i)) eqn:E.
  - exists a; split; [lia | auto].
  - apply nth_error_None in E. unfold len in H; lia.
Qed.

Lemma elem_fun {A} (l : list A) i v w : elem l i v -> elem l i w -> v = w.
Proof. intros [_ H1] [_ H2]; congruence. Qed.

Lemma elem_update_eq {A} (l : list A) i v :
  0 <= i < len l -> elem (update l (Z.to_nat i) v) i v.
Proof.
  intros H; split; [lia|]. apply nth_error_update_eq. unfold len in H; lia.
Qed.

Lemma elem_update_neq {A} (l : list A) i j v w :
  0 <= i -> i <> j -> (elem (update l (Z.to_nat i) v) j w <-> elem l j w).
Proof.
  intros Hi Hij. unfold elem.
  split; intros [H0 H]; split; auto.
  - rewrite nth_error_update_neq in H; auto; lia.
  - rewrite nth_error_update_neq; auto; lia.
Qed.

Lemma elem_snoc_old {A} (l : list A) x i v :
  elem l i v -> elem (l ++ [x]) i v.
Proof.
  intros H. pose proof (elem_lt _ _ _ H) as Hlt. destruct H as [H0 H].
  split; auto. rewrite nth_error_app1; auto. unfold len in Hlt; lia.
Qed.

Lemma elem_snoc_inv {A} (l : list A) x i v :
  elem (l ++ [x]) i v -> elem l i v \/ (i = len l /\ v = x).
Proof.
  intros H. pose proof (elem_lt _ _ _ H) as Hlt. rewrite len_snoc in Hlt.
  destruct H as [H0 H].
  destruct (Z.eq_dec i (len l)) as [->|Hne].
  - right; split; auto.
    unfold len in H. rewrite Nat2Z.id, nth_error_app2, Nat.sub_diag in H by lia.
    simpl in H; congruence.
  - left; split; auto. rewrite nth_error_app1 in H; auto. unfold len in *; lia.
Qed.

Lemma elem_snoc_new {A} (l : list A) x : elem (l ++ [x]) (len l) x.
Proof.
  split; [apply len_nonneg|].
  unfold len. rewrite Nat2Z.id, nth_error_app2, Nat.sub_diag by lia. reflexivity.
Qed.

Lemma elem_repeat {A} (x : A) n i v : elem (repeat x n) i v -> v = x.
Proof. intros H. apply elem_In in H. now apply repeat_spec in H. Qed.

Lemma elem_firstn {A} (l : list A) n i v :
  elem (firstn n l) i v <-> (i < Z.of_nat n /\ elem l i v).
Proof.
  unfold elem. split.
  - intros [H0 H].
    assert (Hlt : (Z.to_nat i < n)%nat).
    { destruct (Nat.lt_ge_cases (Z.to_nat i) n) as [|Hge]; auto.
      rewrite nth_error_firstn in H.
      apply Nat.ltb_ge in Hge. rewrite Hge in H. discriminate. }
    rewrite nth_error_firstn in H.
    apply Nat.ltb_lt in Hlt as Hb. rewrite Hb in H. repeat split; auto; lia.
  - intros [Hn [H0 H]]. split; auto.
    rewrite nth_error_firstn.
    assert (Hb : (Z.to_nat i <? n)%nat = true) by (apply Nat.ltb_lt; lia).
    now rewrite Hb.
Qed.

Lemma list_eq_elem {A} (l1 l2 : list A) :
  len l1 = len l2 -> (forall i v, elem l1 i v -> elem l2 i v) -> l1 = l2.
Proof.
  intros Hlen H. apply nth_error_ext. intros n.
  destruct (nth_error l1 n) eqn:E1.
  - destruct (H (Z.of_nat n) a) as [_ H2].
    + split; [lia|]. now rewrite Nat2Z.id.
    + now rewrite Nat2Z.id in H2.
  - apply nth_error_None in E1. symmetry. apply nth_error_None.
    unfold len in Hlen; lia.
Qed.

(** ** Rules of the weakest-precondition calculus

    A side condition [E \/ P] is discharged by [P] for total correctness
    and comes for free for partial correctness. *)

Section Rules.
Context {S : Type}.
Variable E : Prop.

Lemma wpx_ret {A} (a : A) (s : S) Q : Q a s -> wpx E (ret a) s Q.
Proof. auto. Qed.

Lemma wpx_bind {A B} (m : M S A) (k : A -> M S B) s Q :
  wpx E m s (fun a s' => wpx E (k a) s' Q) -> wpx E (x <- m ;; k x) s Q.
Proof.
  unfold wpx, bind. destruct (m s) as [[a s']|p]; auto.
Qed.

Lemma wpx_mono {A} (m : M S A) s (Q Q' : A -> S -> Prop) :
  wpx E m s Q -> (forall a s', Q a s' -> Q' a s') -> wpx E m s Q'.
Proof.
  unfold wpx. destruct (m s) as [[a s']|p]; auto.
Qed.

Lemma wpx_make {A} (z : A) n (s : S) Q :
  E \/ 0 <= n ->
  (0 <= n -> Q (repeat z (Z.to_nat n)) s) ->
  wpx E (lift (make z n)) s Q.
Proof.
  intros Hn HQ. unfold wpx, lift, make.
  destruct (Z.ltb_spec n 0); [destruct Hn; [auto | lia] | apply HQ; lia].
Qed.

Lemma wpx_get {A} (l : list A) i (s : S) Q :
  E \/ 0 <= i < len l ->
  (forall v, elem l i v -> Q v s) ->
  wpx E (lift (get l i)) s Q.
Proof.
  intros Hi HQ. unfold wpx, lift, get.
  destruct (Z.ltb_spec i 0); [destruct Hi; [auto | lia]|].
  destruct (nth_error l (Z.to_nat i)) eqn:Hn.
  - apply HQ. split; auto.
  - destruct Hi as [|Hi]; auto.
    apply nth_error_None in Hn. unfold len in Hi; lia.
Qed.

Lemma wpx_set {A} (l : list A) i v (s : S) Q :
  E \/ 0 <= i < len l ->
  (0 <= i < len l -> Q (update l (Z.to_nat i) v) s) ->
  wpx E (lift (set l i v)) s Q.
Proof.
  intros Hi HQ. unfold wpx, lift, set.
  destruct (Z.leb_spec 0 i), (Z.ltb_spec i (len l)); simpl;
    try (destruct Hi; [auto | lia]).
  apply HQ; lia.
Qed.

Lemma wpx_slice_to {A} (l : list A) n (s : S) Q :
  E \/ 0 <= n <= len l ->
  (0 <= n <= len l -> Q (firstn (Z.to_nat n) l) s) ->
  wpx E (lift (slice_to l n)) s Q.
Proof.
  intros Hn HQ. unfold wpx, lift, slice_to.
  destruct (Z.leb_spec 0 n), (Z.leb_spec n (len l)); simpl;
    try (destruct Hn; [auto | lia]).
  apply HQ; lia.
Qed.

Lemma wpx_for_loop {T} (body : Z -> T -> M S (ctl T)) (I : Z -> T -> S -> Prop) Q n :
  forall i t s,
    I i t s ->
    (forall j t s, i <= j < i + Z.of_nat n -> I j t s ->
       wpx E (body j t) s
         (fun c s' => match c with
                      | Next t' => I (j + 1) t' s'
                      | Break t' => Q t' s'
                      end)) ->
    (forall t s, I (i + Z.of_nat n) t s -> Q t s) ->
    wpx E (for_loop n i body t) s Q.
Proof.
  induction n as [|n IH]; intros i t s HI Hbody Hexit.
  - simpl. apply wpx_ret. apply Hexit. now rewrite Z.add_0_r.
  - cbn [for_loop]. apply wpx_bind.
    eapply wpx_mono; [apply (Hbody i t s); [lia | exact HI]|].
    intros [t'|t'] s' H; [|now apply wpx_ret].
    apply IH; auto.
    + intros j t0 s0 Hj. apply Hbody. lia.
    + intros t0 s0 H0. apply Hexit. now replace (i + Z.of_nat (Datatypes.S n)) with (i + 1 + Z.of_nat n) by lia.
Qed.

(** The invariant rule of [for]: [I i t s] holds whenever the loop is
    about to test [i < hi]. *)
Lemma wpx_for_range {T} (body : Z -> T -> M S (ctl T)) (I : Z -> T -> S -> Prop)
    Q lo hi t s :
  I lo t s ->
  (forall j t s, lo <= j < hi -> I j t s ->
     wpx E (body j t) s
       (fun c s' => match c with
                    | Next t' => I (j + 1) t' s'
                    | Break t' => Q t' s'
                    end)) ->
  (forall t s, I (Z.max lo hi) t s -> Q t s) ->
  wpx E (for_range lo hi body t) s Q.
Proof.
  intros HI Hbody Hexit. unfold for_range.
  apply wpx_for_loop with (I := I); auto.
  - intros j t0 s0 Hj. apply Hbody. lia.
  - intros t0 s0 H. apply Hexit.
    now replace (Z.max lo hi) with (lo + Z.of_nat (Z.to_nat (hi - lo))) by lia.
Qed.

Lemma wpx_for_each {A T} (l : list A) (body : Z -> A -> T -> M S (ctl T))
    (I : Z -> T -> S -> Prop) Q t s :
  I 0 t s ->
  (forall j v t s, elem l j v -> I j t s ->
     wpx E (body j v t) s
       (fun c s' => match c with
                    | Next t' => I (j + 1) t' s'
                    | Break t' => Q t' s'
                    end)) ->
  (forall t s, I (len l) t s -> Q t s) ->
  wpx E (for_each l body t) s Q.
Proof.
  intros HI Hbody Hexit. unfold for_each.
  apply wpx_for_range with (I := I); auto.
  - intros j t0 s0 Hj HIj. apply wpx_bind. apply wpx_get; [right; lia|].
    intros v Hv. now apply Hbody.
  - intros t0 s0 H. apply Hexit.
    now replace (len l) with (Z.max 0 (len l)) by (pose proof (len_nonneg l); lia).
Qed.

End Rules.

Lemma wp_Done {S A} (m : M S A) s Q :
  wp m s Q -> exists a s', m s = Done (a, s') /\ Q a s'.
Proof.
  unfold wpx. destruct (m s) as [[a s']|p]; [eauto | tauto].
Qed.

Lemma wlp_Done {S A} (m : M S A) s Q a s' :
  wlp m s Q -> m s = Done (a, s') -> Q a s'.
Proof.
  unfold wpx. intros H Hm. now rewrite Hm in H.
Qed.

Lemma wlp_false_Panicked {S A} (m : M S A) s :
  wlp m s (fun _ _ => False) -> exists p, m s = Panicked p.
Proof.
  unfold wpx. destruct (m s) as [[a s']|p]; [tauto | eauto].
Qed.

Lemma wp_wpx {S A} (E : Prop) (m : M S A) s Q : wp m s Q -> wpx E m s Q.
Proof.
  unfold wpx. destruct (m s) as [[a s']|p]; tauto.
Qed.

Lemma bind_Done {S A B} (m : M S A) (k : A -> M S B) s a s' :
  m s = Done (a, s') -> (x <- m ;; k x) s = k a s'.
Proof. unfold bind. now intros ->. Qed.

Lemma wpx_run {S A} (E : Prop) (m : M S A) s Q :
  wpx E m s (fun a s' => m s = Done (a, s') -> Q a s') -> wpx E m s Q.
Proof. unfold wpx. destruct (m s) as [[a s']|p]; auto. Qed.

Lemma get_elem {A} (l : list A) i v : elem l i v -> get l i = Done v.
Proof.
  intros [H0 H]. unfold get. destruct (Z.ltb_spec i 0); [lia|]. now rewrite H.
Qed.

Lemma wrap64_small z : - 2 ^ 63 <= z < 2 ^ 63 -> wrap64 z = z.
Proof.
  intros H. unfold wrap64. rewrite Z.mod_small; lia.
Qed.

Lemma bind_Panicked {S A B} (m : M S A) (k : A -> M S B) s p :
  m s = Panicked p -> (x <- m ;; k x) s = Panicked p.
Proof. unfold bind. now intros ->. Qed.

Lemma wpx_eq {S A} (E : Prop) (m : M S A) s a s' Q :
  m s = Done (a, s') -> Q a s' -> wpx E m s Q.
Proof. unfold wpx. now intros ->. Qed.

(** ** Loops that fill a slice, loops that append *)

Section Fill.
Context {S B : Type}.
Variable E : Prop.

(** A loop whose body writes only index [i], and there a value that
    satisfies [P i]; [R] is what every turn keeps of the state. *)
Lemma wpx_fill (R : S -> Prop) (P : Z -> B -> Prop) lo hi
    (body : Z -> list B -> M S (ctl (list B))) (dst0 : list B) s0 :
  R s0 ->
  (forall i dst s, lo <= i < hi -> len dst = len dst0 -> R s ->
     (forall j w, i <= j -> (elem dst j w <-> elem dst0 j w)) ->
     wpx E (body i dst) s
       (fun c s' => R s' /\ exists dst', c = Next dst' /\ len dst' = len dst /\
          (forall j w, j <> i -> (elem dst' j w <-> elem dst j w)) /\
          exists v, elem dst' i v /\ P i v)) ->
  wpx E (for_range lo hi body dst0) s0
    (fun dst' s' => R s' /\ len dst' = len dst0 /\
       (forall j, lo <= j < hi -> exists v, elem dst' j v /\ P j v) /\
       (forall j w, ~ lo <= j < hi -> (elem dst' j w <-> elem dst0 j w))).
Proof.
  intros HR0 Hbody.
  apply wpx_for_range with
    (I := fun i dst s =>
            R s /\ len dst = len dst0 /\
            (forall j, lo <= j < i -> exists v, elem dst j v /\ P j v) /\
            (forall j w, ~ lo <= j < i -> (elem dst j w <-> elem dst0 j w))).
  - split; [assumption|]. split; [reflexivity|].
    split; [intros; lia | intros; tauto].
  - intros i dst s Hi (HR & Hlen & Hdone & Hrest).
    eapply wpx_mono.
    + apply Hbody; auto. intros j w Hj. apply Hrest. lia.
    + cbv beta. intros c s' (HR' & dst' & -> & Hlen' & Hother & v & Hv & HPv).
      split; [assumption|]. split; [congruence|]. split.
      * intros j Hj. destruct (Z.eq_dec j i) as [->|Hne]; [eauto|].
        destruct (Hdone j) as (w & Hw & HPw); [lia|].
        exists w. split; auto. now apply Hother.
      * intros j w Hj. rewrite Hother by lia. apply Hrest. lia.
  - intros dst s (HR & Hlen & Hdone & Hrest). split; auto. split; auto.
    destruct (Z.le_ge_cases lo hi).
    + rewrite Z.max_r in * by auto. auto.
    + rewrite Z.max_l in * by auto. split.
      * intros; lia.
      * intros j w _. apply Hrest. lia.
Qed.

Lemma for_loop_ext {T} (body body' : Z -> T -> M S (ctl T)) n :
  (forall i t s, body i t s = body' i t s) ->
  forall i t s, for_loop n i body t s = for_loop n i body' t s.
Proof.
  intros Hext. induction n as [|n IH]; intros i t s; [reflexivity|].
  cbn [for_loop]. unfold bind. rewrite Hext.
  destruct (body' i t s) as [[[t'|t'] s']|p]; auto.
Qed.

Lemma for_range_ext {T} (body body' : Z -> T -> M S (ctl T)) lo hi t s :
  (forall i t s, body i t s = body' i t s) ->
  for_range lo hi body t s = for_range lo hi body' t s.
Proof. intros; now apply for_loop_ext. Qed.

(** A loop that appends [g i] at each turn. *)
Lemma for_loop_append (g : Z -> B) n :
  forall i (l : list B) (s : S),
    for_loop n i (fun i l => ret (Next (l ++ [g i]))) l s
    = Done (l ++ map g (map (fun k => i + Z.of_nat k) (seq 0 n)), s).
Proof.
  induction n as [|n IH]; intros i l s.
  - simpl. now rewrite app_nil_r.
  - cbn [for_loop]. unfold bind, ret at 1. rewrite IH.
    rewrite <- app_assoc. simpl. rewrite <- seq_shift, !map_map.
    rewrite Z.add_0_r. do 4 f_equal.
    apply map_ext. intros k. f_equal. lia.
Qed.

Lemma for_range_append (g : Z -> B) lo hi (l : list B) (s : S) :
  for_range lo hi (fun i l => ret (Next (l ++ [g i]))) l s
  = Done (l ++ map g (map (fun k => lo + Z.of_nat k) (seq 0 (Z.to_nat (hi - lo)))), s).
Proof. apply for_loop_append. Qed.

Lemma for_range_append_const (x : B) lo hi (l : list B) (s : S) :
  for_range lo hi (fun _ l => ret (Next (l ++ [x]))) l s
  = Done (l ++ repeat x (Z.to_nat (hi - lo)), s).
Proof.
  rewrite (for_range_append (fun _ => x)). rewrite map_map.
  assert (H : forall n k, map (fun _ : nat => x) (seq k n) = repeat x n).
  { induction n as [|n IH]; intros k; simpl; [auto | now rewrite IH]. }
  now rewrite H.
Qed.

End Fill.

(** ** What each function of the package establishes *)

Lemma side_weaken (E P P' : Prop) : E \/ P -> (P -> P') -> E \/ P'.
Proof. tauto. Qed.

Ltac side :=
  first [ right; lia
        | eapply side_weaken; [eassumption | intros; lia] ].

Section Specs.
Context {math : MathPkg} {rand : RandPkg}.
Variable E : Prop.


Lemma wpx_normFloat64 s Q :
  Q (fst (NormFloat64 s)) (snd (NormFloat64 s)) -> wpx E normFloat64 s Q.
Proof. unfold wpx, normFloat64. now destruct (NormFloat64 s). Qed.

Lemma wpx_intn n s Q :
  Q (fst (Intn n s)) (snd (Intn n s)) -> wpx E (intn n) s Q.
Proof. unfold wpx, intn. now destruct (Intn n s). Qed.

Lemma wpx_store {B} (dst : list B) i v s (R : Src -> Prop) (P : B -> Prop) :
  E \/ 0 <= i < len dst ->
  R s ->
  (0 <= i < len dst -> P v) ->
  wpx E (store dst i v) s
    (fun c s' => R s' /\ exists dst', c = Next dst' /\ len dst' = len dst /\
       (forall j w, j <> i -> (elem dst' j w <-> elem dst j w)) /\
       exists v, elem dst' i v /\ P v).
Proof.
  intros Hi HR HP. apply wpx_bind, wpx_set; auto. intros Hb.
  apply wpx_ret. split; auto. eexists; split; [reflexivity|].
  split; [apply len_update|]. split.
  - intros j w Hj. apply elem_update_neq; lia.
  - exists v. split; [now apply elem_update_eq | auto].
Qed.

(** The body of a filling loop that leaves the slice as it is. *)
Lemma wpx_keep {B} (dst : list B) i v s (R : Src -> Prop) (P : B -> Prop) :
  R s -> elem dst i v -> P v ->
  wpx E (ret (Next dst)) s
    (fun c s' => R s' /\ exists dst', c = Next dst' /\ len dst' = len dst /\
       (forall j w, j <> i -> (elem dst' j w <-> elem dst j w)) /\
       exists v, elem dst' i v /\ P v).
Proof.
  intros HR Hv HP. apply wpx_ret. split; auto.
  exists dst. split; [reflexivity|]. split; [reflexivity|].
  split; [tauto | eauto].
Qed.

Lemma generateTimestamps_spec n interval start s :
  E \/ 0 <= n ->
  wpx E (generateTimestamps n interval start) s
    (fun ts s' =>
       s' = s /\ len ts = n /\
       forall i, 0 <= i < n ->
         elem ts i (Time_Add start (wrap64 (wrap64 (i * interval) * Second)))).
Proof.
  intros Hn. unfold generateTimestamps.
  apply wpx_bind, wpx_make; auto. intros Hn0.
  eapply wpx_mono.
  - apply wpx_fill with
      (R := fun s' => s' = s)
      (P := fun i v => v = Time_Add start (wrap64 (wrap64 (i * interval) * Second)));
      [reflexivity|].
    intros i dst s1 Hi Hlen HR _.
    apply wpx_store; auto.
    right. rewrite Hlen, len_repeat; lia.
  - cbv beta. intros ts s' (-> & Hlen & Hfill & _).
    rewrite len_repeat in Hlen by auto.
    split; [reflexivity|]. split; [assumption|].
    intros i Hi. destruct (Hfill i Hi) as (v & Hv & ->). exact Hv.
Qed.

Lemma createSpeedProfile_spec totalSeconds avgSpeed speedDecrease s :
  E \/ 1 <= totalSeconds ->
  wpx E (createSpeedProfile totalSeconds avgSpeed speedDecrease) s
    (fun sp _ =>
       1 <= totalSeconds /\ len sp = totalSeconds /\
       forall i, 0 <= i < totalSeconds ->
         exists f, elem sp i (speedValue totalSeconds avgSpeed speedDecrease i f) /\
                   (i = 0 -> f = (0.2 * avgSpeed)%float) /\
                   (0 < i -> exists s0, f = (fst (NormFloat64 s0) * 1.8)%float)).
Proof.
  intros Hpre. unfold createSpeedProfile.
  apply wpx_bind, wpx_make; [side|]. intros Hn.
  set (z := repeat 0%float (Z.to_nat totalSeconds)).
  assert (Hz : len z = totalSeconds) by (apply len_repeat; auto).
  (* t *)
  apply wpx_bind. eapply wpx_mono.
  { apply wpx_fill with (R := fun _ => True) (P := fun _ _ => True); [exact I|].
    intros i dst s1 Hi Hlen _ _. apply wpx_store; auto. right; lia. }
  cbv beta. intros _ s1 _.
  apply wpx_bind, wpx_make; [right; auto|]. intros _. fold z.
  (* randomFluctuations *)
  apply wpx_bind. eapply wpx_mono.
  { apply wpx_fill with
      (R := fun _ => True)
      (P := fun (_ : Z) v => exists s0, v = (fst (NormFloat64 s0) * 1.8)%float);
      [exact I|].
    intros i dst s2 Hi Hlen _ _.
    apply wpx_bind, wpx_normFloat64. apply wpx_store; eauto. right; lia. }
  cbv beta. intros rf s2 (_ & Hlen_rf & Hrf & _).
  apply wpx_bind, wpx_set; [side|]. intros H0.
  set (rf' := update rf (Z.to_nat 0) (0.2 * avgSpeed)%float).
  assert (Hlen_rf' : len rf' = totalSeconds) by (unfold rf'; rewrite len_update; lia).
  apply wpx_bind, wpx_make; [right; auto|]. intros _. fold z.
  (* desiredSpeeds *)
  apply wpx_bind. eapply wpx_mono.
  { apply wpx_fill with
      (R := fun _ => True)
      (P := fun i v => exists f, elem rf' i f /\ v = (avgSpeed + f)%float);
      [exact I|].
    intros i dst s3 Hi Hlen _ _.
    apply wpx_bind, wpx_get; [right; lia|]. intros f Hf.
    apply wpx_store; eauto. right; lia. }
  cbv beta. intros ds s3 (_ & Hlen_ds & Hds & _).
  apply wpx_bind, wpx_make; [right; auto|]. intros _. fold z.
  (* speedProfile *)
  apply wpx_bind. eapply wpx_mono.
  { apply wpx_fill with
      (R := fun _ => True)
      (P := fun i v =>
              exists d, elem ds i d /\
                v = (d - speedDecrease * float64_of_int i
                         / float64_of_int totalSeconds)%float);
      [exact I|].
    intros i dst s4 Hi Hlen _ _.
    apply wpx_bind, wpx_get; [right; lia|]. intros d Hd.
    apply wpx_store; eauto. right; lia. }
  cbv beta. intros sp s4 (_ & Hlen_sp & Hsp & _).
  (* the floor *)
  eapply wpx_mono.
  { apply wpx_fill with
      (R := fun _ => True)
      (P := fun i v =>
              exists w, elem sp i w /\
                v = if (w <? avgSpeed * 0.90)%float then (avgSpeed * 0.90)%float else w);
      [exact I|].
    intros i dst s5 Hi Hlen _ Hsame.
    apply wpx_bind, wpx_get; [right; lia|]. intros w Hw.
    assert (Hw0 : elem sp i w) by (apply Hsame; [lia | auto]).
    destruct (w <? avgSpeed * 0.90)%float eqn:Hlt.
    - apply wpx_store; [right; lia | exact I |].
      intros _. exists w. now rewrite Hlt.
    - apply wpx_keep with (v := w); auto.
      exists w. now rewrite Hlt. }
  cbv beta. intros out s5 (_ & Hlen_out & Hout & _).
  split; [lia|]. split; [lia|].
  intros i Hi.
  destruct (Hout i Hi) as (v & Hv & w & Hw & ->).
  destruct (Hsp i Hi) as (w' & Hw' & d & Hd & ->).
  pose proof (elem_fun _ _ _ _ Hw Hw') as ->.
  destruct (Hds i Hi) as (d' & Hd' & f & Hf & ->).
  pose proof (elem_fun _ _ _ _ Hd Hd') as ->.
  exists f. split; [exact Hv|]. split.
  - intros ->. eapply elem_fun; [exact Hf|].
    apply (elem_update_eq rf 0). lia.
  - intros Hpos. destruct (Hrf i Hi) as (f' & Hf' & s0 & ->).
    exists s0. eapply elem_fun; [exact Hf|].
    apply (elem_update_neq rf 0 i); auto; lia.
Qed.

Lemma wpx_elevationAt (elevationChanges : list float) t (s : Src) Q :
  0 <= t ->
  (forall e, elevationAt elevationChanges t e -> Q e s) ->
  wpx E (if t <? len elevationChanges then lift (get elevationChanges t)
         else ret 0%float) s Q.
Proof.
  intros Ht HQ. unfold elevationAt in HQ.
  destruct (Z.ltb_spec t (len elevationChanges)).
  - apply wpx_get; [right; lia | auto].
  - apply wpx_ret. auto.
Qed.

Lemma createBPMProfile_spec totalSeconds avgBPM avgSpeed speedProfile elevationChanges s :
  E \/ (1 <= totalSeconds /\ totalSeconds <= len speedProfile) ->
  wpx E (createBPMProfile totalSeconds avgBPM avgSpeed speedProfile elevationChanges) s
    (fun bpm _ =>
       1 <= totalSeconds /\ len bpm = totalSeconds /\
       elem bpm 0 (avgBPM - 20)%float /\
       forall t, 1 <= t < totalSeconds ->
         exists speed e s0,
           elem speedProfile t speed /\ elevationAt elevationChanges t e /\
           elem bpm t
             (clamp 60 200
                (bpmTotalOf totalSeconds avgBPM avgSpeed t speed e (fst (Intn 3 s0))))).
Proof.
  intros Hpre. unfold createBPMProfile.
  apply wpx_bind, wpx_make; [side|]. intros Hn.
  set (z := repeat 0%float (Z.to_nat totalSeconds)).
  assert (Hz : len z = totalSeconds) by (apply len_repeat; auto).
  apply wpx_bind, wpx_set; [side|]. intros H0.
  set (bpm0 := update z (Z.to_nat 0) (avgBPM - 20)%float).
  assert (Hlen0 : len bpm0 = totalSeconds) by (unfold bpm0; rewrite len_update; lia).
  eapply wpx_mono.
  { apply wpx_fill with
      (R := fun _ => True)
      (P := fun t v =>
              exists speed e s0,
                elem speedProfile t speed /\ elevationAt elevationChanges t e /\
                v = clamp 60 200
                      (bpmTotalOf totalSeconds avgBPM avgSpeed t speed e (fst (Intn 3 s0))));
      [exact I|].
    intros t dst s1 Ht Hlen _ _.
    apply wpx_bind, wpx_get; [side|]. intros speed Hspeed.
    apply wpx_bind, wpx_elevationAt; [lia|]. intros e He.
    apply wpx_bind, wpx_intn.
    apply wpx_store; [right; lia | exact I |].
    intros _. exists speed, e, s1. auto. }
  cbv beta. intros bpm s1 (_ & Hlen & Hfill & Hrest).
  split; [lia|]. split; [lia|]. split.
  - apply Hrest; [lia|]. apply (elem_update_eq z 0). lia.
  - intros t Ht. destruct (Hfill t Ht) as (v & Hv & speed & e & s0 & H1 & H2 & ->).
    exists speed, e, s0. auto.
Qed.

Lemma createCadenceProfile_spec totalSeconds avgCadence avgSpeed speedProfile
    elevationChanges s :
  E \/ (1 <= totalSeconds /\ totalSeconds <= len speedProfile) ->
  wpx E (createCadenceProfile totalSeconds avgCadence avgSpeed speedProfile
           elevationChanges) s
    (fun cadence _ =>
       1 <= totalSeconds /\ len cadence = totalSeconds /\
       (exists s0, elem cadence 0 (avgCadence + float64_of_int (fst (Intn 3 s0) - 1))%float) /\
       forall t, 1 <= t < totalSeconds ->
         exists speed e s0,
           elem speedProfile t speed /\ elevationAt elevationChanges t e /\
           elem cadence t
             (clamp 30 150
                (cadenceTotalOf avgCadence avgSpeed speed e (fst (Intn 3 s0))))).
Proof.
  intros Hpre. unfold createCadenceProfile.
  apply wpx_bind, wpx_make; [side|]. intros Hn.
  set (z := repeat 0%float (Z.to_nat totalSeconds)).
  assert (Hz : len z = totalSeconds) by (apply len_repeat; auto).
  apply wpx_bind, wpx_intn.
  apply wpx_bind, wpx_set; [side|]. intros H0.
  set (c0 := update z (Z.to_nat 0) _).
  assert (Hlen0 : len c0 = totalSeconds) by (unfold c0; rewrite len_update; lia).
  eapply wpx_mono.
  { apply wpx_fill with
      (R := fun _ => True)
      (P := fun t v =>
              exists speed e s0,
                elem speedProfile t speed /\ elevationAt elevationChanges t e /\
                v = clamp 30 150
                      (cadenceTotalOf avgCadence avgSpeed speed e (fst (Intn 3 s0))));
      [exact I|].
    intros t dst s1 Ht Hlen _ _.
    apply wpx_bind, wpx_get; [side|]. intros speed Hspeed.
    apply wpx_bind, wpx_elevationAt; [lia|]. intros e He.
    apply wpx_bind, wpx_intn.
    apply wpx_store; [right; lia | exact I |].
    intros _. exists speed, e, s1. auto. }
  cbv beta. intros cadence s1 (_ & Hlen & Hfill & Hrest).
  split; [lia|]. split; [lia|]. split.
  - exists s. apply Hrest; [lia|]. apply (elem_update_eq z 0). lia.
  - intros t Ht. destruct (Hfill t Ht) as (v & Hv & speed & e & s0 & H1 & H2 & ->).
    exists speed, e, s0. auto.
Qed.

Lemma elem_consecutive {A} (l : list A) i p q :
  elem (consecutive l) i (p, q) <-> (elem l i p /\ elem l (i + 1) q).
Proof.
  unfold elem. split.
  - intros [H0 H]. rewrite Z2Nat.inj_add by lia.
    remember (Z.to_nat i) as n eqn:Hn. clear Hn. change (Z.to_nat 1) with 1%nat.
    revert n H. induction l as [|a [|b t] IH]; intros n H.
    + destruct n; discriminate.
    + destruct n; discriminate.
    + destruct n as [|n].
      * simpl in H. injection H as <- <-. repeat split; auto; lia.
      * cbn [consecutive nth_error] in H. apply IH in H.
        destruct H as [[_ H1] [_ H2]]. repeat split; auto; lia.
  - intros [[H0 H1] [_ H2]]. split; auto.
    rewrite Z2Nat.inj_add in H2 by lia.
    remember (Z.to_nat i) as n eqn:Hn. clear Hn. change (Z.to_nat 1) with 1%nat in H2.
    revert n H1 H2. induction l as [|a [|b t] IH]; intros n H1 H2.
    + destruct n; discriminate.
    + destruct n as [|[|n]]; discriminate.
    + destruct n as [|n].
      * simpl in *. congruence.
      * cbn [consecutive nth_error]. apply IH; auto.
Qed.

Lemma len_consecutive {A} (l : list A) : len (consecutive l) = Z.max 0 (len l - 1).
Proof.
  unfold len. induction l as [|a [|b t] IH]; [reflexivity | reflexivity |].
  cbn [consecutive length] in *. lia.
Qed.

Lemma firstn_snoc {A} (l : list A) i x :
  elem l i x -> firstn (Z.to_nat (i + 1)) l = firstn (Z.to_nat i) l ++ [x].
Proof.
  intros [H0 H]. rewrite Z2Nat.inj_add by lia. change (Z.to_nat 1) with 1%nat.
  remember (Z.to_nat i) as n eqn:Hn. clear Hn.
  revert n H. induction l as [|a t IH]; intros [|n] H; try discriminate.
  - simpl in *. congruence.
  - simpl in *. f_equal. now apply IH.
Qed.

Lemma firstn_len {A} (l : list A) : firstn (Z.to_nat (len l)) l = l.
Proof. unfold len. rewrite Nat2Z.id. apply firstn_all. Qed.

Lemma extractElevationChanges_eq points totalTimeSeconds s :
  0 <= totalTimeSeconds ->
  extractElevationChanges points totalTimeSeconds s
  = Done (specElevationSeries points totalTimeSeconds, s).
Proof.
  intros Htot.
  assert (Hloop :
    wp (for_range 0 (len points - 1)
          (fun i elevationChanges =>
             q <- lift (get points (i + 1)) ;;
             p <- lift (get points i) ;;
             let eleChange := (Ele q - Ele p)%float in
             let distance := haversineDistance (Lat p) (Lon p) (Lat q) (Lon q) in
             let numSeconds := int_of_float64 (distance / AvgSpeed)%float in
             elevationChanges <-
               for_range 0 numSeconds
                 (fun j elevationChanges =>
                    if numSeconds >? 0
                    then ret (Next (elevationChanges
                                    ++ [(eleChange / float64_of_int numSeconds)%float]))
                    else ret (Next (elevationChanges ++ [0%float])))
                 elevationChanges ;;
             ret (Next elevationChanges))
          []) s
       (fun ec s' => s' = s /\ ec = flat_map spreadDelta (consecutive points))).
  { apply wpx_for_range with
      (I := fun i ec s' =>
              s' = s /\
              ec = flat_map spreadDelta (firstn (Z.to_nat i) (consecutive points))).
    - split; reflexivity.
    - intros i ec s1 Hi [-> ->].
      apply wpx_bind, wpx_get; [right; lia|]. intros q Hq.
      apply wpx_bind, wpx_get; [right; lia|]. intros p Hp.
      cbv zeta.
      set (n := int_of_float64 _).
      set (x := (_ / float64_of_int n)%float).
      apply wpx_bind.
      match goal with |- wpx _ (for_range 0 n ?b ?l) _ _ =>
        apply wpx_eq with (a := l ++ repeat x (Z.to_nat (n - 0))) (s' := s)
      end.
      + rewrite <- (for_range_append_const x 0 n).
        destruct (Z.gtb_spec n 0) as [Hpos|Hneg]; [reflexivity|].
        (* the loop runs only when [n] is positive *)
        unfold for_range. now replace (Z.to_nat (n - 0)) with 0%nat by lia.
      + apply wpx_ret. split; [reflexivity|].
        assert (Hpq : elem (consecutive points) i (p, q))
          by (apply elem_consecutive; auto).
        rewrite (firstn_snoc _ _ _ Hpq), flat_map_app. simpl.
        rewrite app_nil_r, Z.sub_0_r. reflexivity.
    - intros ec s1 [-> ->]. split; [reflexivity|].
      pose proof (len_consecutive points) as Hc.
      pose proof (len_nonneg points).
      replace (Z.max 0 (len points - 1)) with (len (consecutive points)) by lia.
      now rewrite firstn_len. }
  apply wp_Done in Hloop as (ec & s' & Hrun & -> & ->).
  unfold extractElevationChanges.
  erewrite bind_Done by exact Hrun.
  unfold specElevationSeries.
  destruct (Z.ltb_spec (len (flat_map spreadDelta (consecutive points))) totalTimeSeconds).
  - apply for_range_append_const.
  - unfold lift, slice_to.
    pose proof (len_nonneg (flat_map spreadDelta (consecutive points))).
    destruct (Z.leb_spec 0 totalTimeSeconds); [|lia].
    destruct (Z.leb_spec totalTimeSeconds
                (len (flat_map spreadDelta (consecutive points)))); [|lia].
    reflexivity.
Qed.

Lemma len_specElevationSeries points horizon :
  0 <= horizon -> len (specElevationSeries points horizon) = horizon.
Proof.
  intros H. unfold specElevationSeries.
  set (series := flat_map spreadDelta (consecutive points)).
  pose proof (len_nonneg series).
  destruct (Z.ltb_spec (len series) horizon).
  - rewrite len_app, len_repeat; lia.
  - apply len_firstn; lia.
Qed.

Lemma interpolatePoints_eq p1 p2 speedProfile totalTime currentTime s speed :
  elem speedProfile
    (if currentTime >=? len speedProfile then len speedProfile - 1 else currentTime)
    speed ->
  exists pts,
    interpolatePoints p1 p2 speedProfile totalTime currentTime s = Done (pts, s) /\
    len pts =
      Z.max 0 (numSecondsOf (haversineDistance (Lat p1) (Lon p1) (Lat p2) (Lon p2)) speed).
Proof.
  intros Hspeed. unfold interpolatePoints. cbv zeta.
  erewrite bind_Done by (unfold lift; rewrite (get_elem _ _ _ Hspeed); reflexivity).
  set (n := numSecondsOf _ speed).
  set (g := fun i : Z =>
              let d := destinationPoint (Lat p1) (Lon p1)
                         (calculateInitialCompassBearing (Lat p1, Lon p1) (Lat p2, Lon p2))
                         (speed * float64_of_int i)%float in
              mkTrkpt (fst d) (snd d)
                (Ele p1 + (Ele p2 - Ele p1) * (float64_of_int i / float64_of_int n))%float).
  eexists. split.
  - rewrite <- (for_range_append g 1 (n + 1) [] s).
    apply for_range_ext. intros i l s1. unfold g. cbv zeta.
    now destruct (destinationPoint _ _ _ _).
  - simpl. unfold len. rewrite !length_map, length_seq. lia.
Qed.

Lemma interpolateRoute_spec points speedProfile totalTimeSeconds s :
  E \/ (1 <= totalTimeSeconds <= len speedProfile /\
         durationsInRange points speedProfile totalTimeSeconds) ->
  wpx E (interpolateRoute points speedProfile totalTimeSeconds) s
    (fun _ s' => s' = s).
Proof.
  intros Hpre. unfold interpolateRoute.
  apply wpx_bind.
  apply wpx_for_range with
    (I := fun (_ : Z) (st : list Trkpt * Z) s' =>
            s' = s /\ (E \/ 0 <= snd st < totalTimeSeconds)).
  - split; [reflexivity|]. simpl. side.
  - intros i [interpolatedPoints currentTime] s1 Hi [-> Hct]. simpl in Hct.
    apply wpx_bind, wpx_get; [right; lia|]. intros p1 Hp1.
    apply wpx_bind, wpx_get; [right; lia|]. intros p2 Hp2.
    assert (Hidx : E \/ 0 <= currentTime < len speedProfile).
    { destruct Hct as [|Hct]; [now left|].
      destruct Hpre as [|[Hlen _]]; [now left | right; lia]. }
    (* interpolatePoints reads the same index *)
    apply wpx_bind.
    unfold interpolatePoints at 1. cbv zeta.
    apply wpx_bind, wpx_get.
    { destruct Hidx as [|Hidx]; [now left | right].
      destruct (Z.geb_spec currentTime (len speedProfile)); lia. }
    intros speed0 Hspeed0.
    destruct (interpolatePoints_eq p1 p2 speedProfile totalTimeSeconds currentTime s
                speed0 Hspeed0) as (pts & Hpts & _).
    unfold interpolatePoints in Hpts. cbv zeta in Hpts.
    erewrite bind_Done in Hpts
      by (unfold lift; rewrite (get_elem _ _ _ Hspeed0); reflexivity).
    eapply wpx_eq; [exact Hpts|].
    apply wpx_bind, wpx_get; [exact Hidx|]. intros speed Hspeed.
    set (d := segmentDuration _ speed).
    assert (Hd : E \/ (0 <= d /\ totalTimeSeconds + d <= 2 ^ 63)).
    { destruct Hpre as [|[_ Hdur]]; [now left | right].
      unfold durationsInRange in Hdur. rewrite Forall_forall in Hdur.
      assert (Hpq : In (p1, p2) (consecutive points)).
      { eapply elem_In. apply elem_consecutive. eauto. }
      specialize (Hdur _ Hpq). rewrite Forall_forall in Hdur.
      apply (Hdur speed). eapply elem_In; eauto. }
    destruct (Z.geb_spec (wrap64 (currentTime + d)) totalTimeSeconds).
    + apply wpx_ret. apply wpx_ret. reflexivity.
    + apply wpx_ret. split; [reflexivity|]. simpl.
      destruct Hct as [|Hct]; [now left|].
      destruct Hd as [|Hd]; [now left | right].
      rewrite wrap64_small in * by lia. lia.
  - intros st s1 [-> _]. apply wpx_ret. reflexivity.
Qed.

Lemma In_firstn {A} (l : list A) n v : In v (firstn n l) -> In v l.
Proof.
  intros H. rewrite <- (firstn_skipn n l). apply in_or_app. now left.
Qed.

Lemma adjustProfile_spec profile totalInterpolated s :
  0 <= totalInterpolated ->
  E \/ 1 <= len profile ->
  wpx E (adjustProfile profile totalInterpolated) s
    (fun r s' =>
       s' = s /\ len r = totalInterpolated /\
       (forall v, In v r -> In v profile) /\
       (forall i v, i < totalInterpolated -> elem profile i v -> elem r i v)).
Proof.
  intros Hn Hpre. unfold adjustProfile.
  destruct (Z.ltb_spec (len profile) totalInterpolated) as [Hlt|Hge].
  - apply wpx_bind, wpx_get; [side|]. intros last Hlast.
    eapply wpx_eq; [apply for_range_append_const|].
    split; [reflexivity|]. split; [|split].
    + rewrite len_app, len_repeat; lia.
    + intros v Hv. apply in_app_or in Hv as [Hv|Hv]; auto.
      apply repeat_spec in Hv as ->. eapply elem_In; eauto.
    + intros i v _ [H0 Hv]. split; auto.
      rewrite nth_error_app1; auto.
      apply nth_error_Some. congruence.
  - pose proof (len_nonneg profile).
    apply wpx_slice_to; [right; lia|]. intros _.
    split; [reflexivity|]. split; [|split].
    + apply len_firstn; lia.
    + intros v. apply In_firstn.
    + intros i v Hi Hv. apply elem_firstn. split; [lia | auto].
Qed.

Lemma convertBPM_spec bpmProfileFloat s :
  wpx E (convertBPM bpmProfileFloat (len bpmProfileFloat)) s
    (fun r s' => s' = s /\ r = map int_of_float64 bpmProfileFloat).
Proof.
  unfold convertBPM. pose proof (len_nonneg bpmProfileFloat) as Hn.
  apply wpx_bind, wpx_make; [right; lia|]. intros _.
  set (z := repeat 0 _).
  assert (Hz : len z = len bpmProfileFloat) by (apply len_repeat; auto).
  unfold for_each. eapply wpx_mono.
  { apply wpx_fill with
      (R := fun s' => s' = s)
      (P := fun i w => exists v, elem bpmProfileFloat i v /\ w = int_of_float64 v);
      [reflexivity|].
    intros i dst s1 Hi Hlen -> _.
    apply wpx_bind, wpx_get; [right; lia|]. intros v Hv.
    apply wpx_store; eauto. right; lia. }
  cbv beta. intros r s' (-> & Hlen & Hfill & _).
  split; [reflexivity|]. apply list_eq_elem.
  - rewrite len_map. lia.
  - intros i w Hw. pose proof (elem_lt _ _ _ Hw) as Hi.
    destruct (Hfill i) as (w' & Hw' & v & Hv & ->); [lia|].
    rewrite (elem_fun _ _ _ _ Hw Hw').
    destruct Hv as [H0 Hv]. split; auto.
    now rewrite nth_error_map, Hv.
Qed.

Lemma createRoute_spec interpolatedPoints s :
  wpx E (createRoute interpolatedPoints (len interpolatedPoints)) s
    (fun r s' => s' = s /\ r = map toCoordinate interpolatedPoints).
Proof.
  unfold createRoute. pose proof (len_nonneg interpolatedPoints) as Hn.
  apply wpx_bind, wpx_make; [right; lia|]. intros _.
  set (z := repeat _ _).
  assert (Hz : len z = len interpolatedPoints) by (apply len_repeat; auto).
  unfold for_each. eapply wpx_mono.
  { apply wpx_fill with
      (R := fun s' => s' = s)
      (P := fun i w => exists v, elem interpolatedPoints i v /\ w = toCoordinate v);
      [reflexivity|].
    intros i dst s1 Hi Hlen -> _.
    apply wpx_bind, wpx_get; [right; lia|]. intros v Hv.
    apply wpx_store; eauto. right; lia. }
  cbv beta. intros r s' (-> & Hlen & Hfill & _).
  split; [reflexivity|]. apply list_eq_elem.
  - rewrite len_map. lia.
  - intros i w Hw. pose proof (elem_lt _ _ _ Hw) as Hi.
    destruct (Hfill i) as (w' & Hw' & v & Hv & ->); [lia|].
    rewrite (elem_fun _ _ _ _ Hw Hw').
    destruct Hv as [H0 Hv]. split; auto.
    now rewrite nth_error_map, Hv.
Qed.

Lemma createPaceProfile_spec speedProfile totalInterpolated s :
  0 <= totalInterpolated ->
  wpx E (createPaceProfile speedProfile totalInterpolated) s
    (fun r s' =>
       s' = s /\ len r = totalInterpolated /\
       (forall i v, i < totalInterpolated -> elem speedProfile i v ->
                    elem r i (paceOf v)) /\
       (forall i, len speedProfile <= i < totalInterpolated -> elem r i 0%float)).
Proof.
  intros Hn. unfold createPaceProfile.
  pose proof (len_nonneg speedProfile) as Hsp.
  apply wpx_bind.
  apply wpx_mono with
    (Q := fun sp' s' =>
            s' = s /\ len sp' = Z.min (len speedProfile) totalInterpolated /\
            forall i v, elem sp' i v <-> (i < totalInterpolated /\ elem speedProfile i v)).
  { destruct (Z.gtb_spec (len speedProfile) totalInterpolated).
    - apply wpx_slice_to; [right; lia|]. intros _.
      split; [reflexivity|]. split; [rewrite len_firstn; lia|].
      intros i v. rewrite elem_firstn. rewrite Z2Nat.id by lia. reflexivity.
    - apply wpx_ret. split; [reflexivity|]. split; [lia|].
      intros i v. split; [|tauto].
      intros Hv. split; auto. apply elem_lt in Hv. lia. }
  cbv beta. intros sp' s' (-> & Hlen' & Hsp').
  apply wpx_bind, wpx_make; [right; lia|]. intros _.
  set (z := repeat 0%float _).
  assert (Hz : len z = totalInterpolated) by (apply len_repeat; auto).
  unfold for_each. eapply wpx_mono.
  { apply wpx_fill with
      (R := fun s' => s' = s)
      (P := fun i w => exists v, elem sp' i v /\ w = paceOf v);
      [reflexivity|].
    intros i dst s1 Hi Hlen -> _.
    apply wpx_bind, wpx_get; [right; lia|]. intros v Hv.
    apply wpx_store; eauto. right; lia. }
  cbv beta. intros r s' (-> & Hlen & Hfill & Hrest).
  split; [reflexivity|]. split; [lia|]. split.
  - intros i v Hi Hv. pose proof (elem_lt _ _ _ Hv).
    destruct (Hfill i) as (w & Hw & v' & Hv' & ->); [lia|].
    apply Hsp' in Hv' as [_ Hv'].
    now rewrite (elem_fun _ _ _ _ Hv Hv').
  - intros i Hi. destruct (elem_exists z i) as (w & Hw); [lia|].
    pose proof (elem_repeat _ _ _ _ Hw) as ->.
    apply Hrest; [lia | exact Hw].
Qed.

End Specs.

(** ** Runs of the handler *)

Section Runs.
Context {math : MathPkg} {rand : RandPkg}.

Lemma len_timestampsOf n interval start :
  0 <= n -> len (timestampsOf n interval start) = n.
Proof.
  intros H. unfold timestampsOf, len. rewrite !length_map, length_seq. lia.
Qed.

Lemma elem_timestampsOf n interval start i :
  0 <= i < n ->
  elem (timestampsOf n interval start) i
    (Time_Add start (wrap64 (wrap64 (i * interval) * Second))).
Proof.
  intros H. split; [lia|]. unfold timestampsOf.
  rewrite nth_error_map, nth_error_map, nth_error_seq.
  assert (Hb : (Z.to_nat i <? Z.to_nat n)%nat = true) by (apply Nat.ltb_lt; lia).
  rewrite Hb. simpl. now rewrite Z2Nat.id by lia.
Qed.

Lemma generateTimestamps_eq n interval start s :
  0 <= n ->
  generateTimestamps n interval start s = Done (timestampsOf n interval start, s).
Proof.
  intros Hn.
  destruct (wp_Done _ _ _ (generateTimestamps_spec False n interval start s (or_intror Hn)))
    as (ts & s' & -> & -> & Hlen & Hts).
  do 2 f_equal. apply list_eq_elem.
  - now rewrite len_timestampsOf.
  - intros i v Hv. pose proof (elem_lt _ _ _ Hv) as Hi. rewrite Hlen in Hi.
    rewrite (elem_fun _ _ _ _ Hv (Hts i Hi)).
    now apply elem_timestampsOf.
Qed.

(** Every run of [synthesize] that does not panic goes through the steps
    of a [trace]; with a horizon of at least 3 and durations in range it
    does not panic. *)
Lemma synthesize_traced (E : Prop) routeLength points now s :
  E \/ (3 <= horizonOf routeLength /\
         forall sp s1,
           createSpeedProfile (horizonOf routeLength) AvgSpeed 0.2 s = Done (sp, s1) ->
           durationsInRange points sp (horizonOf routeLength - 2)) ->
  wpx E (synthesize routeLength points now) s
    (fun resp s' => exists tr, traced routeLength points now s tr resp s').
Proof.
  intros Hpre. unfold synthesize. cbv zeta.
  set (h := horizonOf routeLength) in *.
  apply wpx_bind, wpx_run. eapply wpx_mono.
  { apply createSpeedProfile_spec.
    destruct Hpre as [|[H3 _]]; [now left | right; lia]. }
  cbv beta. intros sp s1 (Hh1 & Hlen_sp & _) Hrun1.
  apply wpx_bind. eapply wpx_eq; [apply extractElevationChanges_eq; lia|].
  apply wpx_bind, wpx_run. eapply wpx_mono.
  { apply createBPMProfile_spec.
    destruct Hpre as [|[H3 _]]; [now left | right; lia]. }
  cbv beta. intros bpm s2 (Hh3 & Hlen_bpm & _) Hrun2.
  apply wpx_bind, wpx_run. eapply wpx_mono.
  { apply createCadenceProfile_spec. right; lia. }
  cbv beta. intros cad s3 (_ & Hlen_cad & _) Hrun3.
  apply wpx_bind, wpx_run. eapply wpx_mono.
  { apply interpolateRoute_spec.
    destruct Hpre as [|[H3 Hdur]]; [now left | right].
    split; [lia | eauto]. }
  cbv beta. intros interp s4 -> Hrun4.
  pose proof (len_nonneg interp) as Hn.
  apply wpx_bind, wpx_run. eapply wpx_mono.
  { apply adjustProfile_spec; [exact Hn | right; lia]. }
  cbv beta. intros bpmAdj s5 (-> & Hlen_adj & _) Hrun5.
  apply wpx_bind, wpx_run. eapply wpx_mono.
  { apply adjustProfile_spec; [exact Hn | right; lia]. }
  cbv beta. intros cadAdj s6 (-> & _) Hrun6.
  apply wpx_bind. eapply wpx_eq; [apply generateTimestamps_eq; exact Hn|].
  rewrite len_timestampsOf, Z.eqb_refl by exact Hn. cbn [negb].
  apply wpx_bind. rewrite <- Hlen_adj at 1. eapply wpx_mono; [apply convertBPM_spec|].
  cbv beta. intros bpmInt s7 [-> ->].
  apply wpx_bind, wpx_run. eapply wpx_mono.
  { apply createPaceProfile_spec; exact Hn. }
  cbv beta. intros pace s8 (-> & _) Hrun8.
  apply wpx_bind. eapply wpx_mono; [apply createRoute_spec|].
  cbv beta. intros route s9 [-> ->].
  apply wpx_ret.
  exists (@mkTrace rand sp bpm cad interp bpmAdj cadAdj pace s1 s2).
  unfold traced. cbn [t_speedProfile t_bpmProfileFloat t_cadenceProfile
                      t_interpolatedPoints t_bpmAdjusted t_cadenceAdjusted
                      t_paceProfile t_s1 t_s2].
  fold h. repeat (split; [first [lia | assumption | reflexivity]|]). reflexivity.
Qed.



Lemma adjustProfile_len profile n s r s' :
  adjustProfile profile n s = Done (r, s') -> len r = n.
Proof.
  intros H. destruct (Z.le_gt_cases 0 n) as [Hn|Hn].
  - pose proof (adjustProfile_spec True profile n s Hn (or_introl I)) as Hs.
    apply (wlp_Done _ _ _ _ _ Hs) in H. tauto.
  - exfalso. unfold adjustProfile in H.
    pose proof (len_nonneg profile).
    destruct (Z.ltb_spec (len profile) n); [lia|].
    unfold lift, slice_to in H.
    destruct (Z.leb_spec 0 n); [lia|]. discriminate.
Qed.


Lemma traced_complete routeLength points now s resp s' :
  synthesize routeLength points now s = Done (resp, s') ->
  exists tr, traced routeLength points now s tr resp s'.
Proof.
  intros H.
  exact (wlp_Done _ _ _ _ _
           (synthesize_traced True routeLength points now s (or_introl I)) H).
Qed.


(** What the trace says about lengths. *)
Lemma traced_lengths routeLength points now s tr resp s' :
  traced routeLength points now s tr resp s' ->
  len (t_speedProfile tr) = horizonOf routeLength /\
  len (t_bpmProfileFloat tr) = horizonOf routeLength - 2 /\
  len (t_cadenceProfile tr) = horizonOf routeLength - 2 /\
  len (t_bpmAdjusted tr) = len (t_interpolatedPoints tr) /\
  len (t_cadenceAdjusted tr) = len (t_interpolatedPoints tr) /\
  len (t_paceProfile tr) = len (t_interpolatedPoints tr).
Proof.
  unfold traced. cbv zeta.
  intros (H3 & Hsp & Hbpm & Hcad & Hroute & Habpm & Hacad & Hpace & ->).
  pose proof (len_nonneg (t_interpolatedPoints tr)) as Hn.
  pose proof (wlp_Done _ _ _ _ _
                (createSpeedProfile_spec True _ _ _ _ (or_introl I)) Hsp) as (_ & H1 & _).
  pose proof (wlp_Done _ _ _ _ _
                (createBPMProfile_spec True _ _ _ _ _ _ (or_introl I)) Hbpm) as (_ & H2 & _).
  pose proof (wlp_Done _ _ _ _ _
                (createCadenceProfile_spec True _ _ _ _ _ _ (or_introl I)) Hcad)
    as (_ & H4 & _).
  pose proof (wlp_Done _ _ _ _ _ (createPaceProfile_spec True _ _ _ Hn) Hpace)
    as (_ & H5 & _).
  repeat split; auto; eapply adjustProfile_len; eauto.
Qed.

End Runs.

(** ** From the specification of binary64 to [float64] *)

Lemma number_is_nan x : number x <-> is_nan x = false.
Proof.
  unfold number, is_nan. rewrite eqb_spec. unfold SFeqb. split.
  - intros H. now rewrite (SFcompare_refl _ H).
  - destruct (Prim2SF x); cbn; auto; discriminate.
Qed.

Lemma is_finite_finite x : is_finite x = true -> finite x.
Proof.
  unfold finite, is_finite, is_nan, is_infinity.
  rewrite !eqb_spec, abs_spec. unfold SFeqb.
  change (Prim2SF infinity) with (S754_infinity false).
  destruct (Prim2SF x) as [s|s| |s m e]; cbn; auto; try discriminate.
  destruct s; discriminate.
Qed.

Lemma below_finite k x : below k x -> finite x.
Proof. apply sf_below_finite. Qed.

Lemma finite_number x : finite x -> number x.
Proof. apply sf_finite_number. Qed.

Lemma below_number k x : below k x -> number x.
Proof. intros H. eapply finite_number, below_finite, H. Qed.

Lemma proper_finite x : proper x -> finite x.
Proof. unfold proper, finite. destruct (Prim2SF x); cbn; auto. Qed.

Lemma below_le k k' x : below k x -> k <= k' -> below k' x.
Proof. apply sf_below_le. Qed.

Lemma add_number_l x y : finite x -> number y -> number (x + y)%float.
Proof. unfold number, finite. rewrite add_spec. apply SFadd_number_l. Qed.


Lemma sub_number_l x y : finite x -> number y -> number (x - y)%float.
Proof. unfold number, finite. rewrite sub_spec. apply SFsub_number_l. Qed.

Lemma sub_number_r x y : number x -> finite y -> number (x - y)%float.
Proof. unfold number, finite. rewrite sub_spec. apply SFsub_number_r. Qed.

Lemma mul_number_l x y : proper x -> number y -> number (x * y)%float.
Proof. unfold number, proper. rewrite mul_spec. apply SFmul_number_l. Qed.

Lemma mul_number_r x y : number x -> proper y -> number (x * y)%float.
Proof. unfold number, proper. rewrite mul_spec. apply SFmul_number_r. Qed.


Lemma div_number_r x y : number x -> proper y -> number (x / y)%float.
Proof. unfold number, proper. rewrite div_spec. apply SFdiv_number_r. Qed.

Lemma mul_below a b x y :
  below a x -> below b y -> -1074 <= a + b <= 1023 -> below (a + b + 1) (x * y)%float.
Proof.
  unfold below. rewrite mul_spec. apply SFmul_below; apply Prim2SF_valid.
Qed.


Lemma sub_below a b x y :
  below a x -> below b y -> -1074 <= Z.max a b + 1 <= 1023 ->
  below (Z.max a b + 2) (x - y)%float.
Proof.
  unfold below. rewrite sub_spec. apply SFsub_below; apply Prim2SF_valid.
Qed.

Lemma div_below a b x y :
  below a x -> proper y -> atleast b y -> -1074 <= a - b + 1 <= 1023 ->
  below (a - b + 2) (x / y)%float.
Proof.
  unfold below, proper, atleast. rewrite div_spec.
  apply SFdiv_below; apply Prim2SF_valid.
Qed.

Lemma ltb_false_leb x y :
  number x -> number y -> (x <? y)%float = false -> (y <=? x)%float = true.
Proof.
  unfold number. rewrite ltb_spec, leb_spec. apply SFltb_false_leb.
Qed.

Lemma leb_refl x : number x -> (x <=? x)%float = true.
Proof.
  unfold number. rewrite leb_spec. intros H. unfold SFleb.
  now rewrite SFcompare_refl.
Qed.


Lemma ltb_number x y : (x <? y)%float = true -> number x /\ number y.
Proof.
  rewrite ltb_spec. intros H. apply SFleb_number. now apply SFltb_true_leb.
Qed.

(** [float64(z)] for a non-negative [int] z. *)
Lemma Prim2SF_float64_of_int z :
  0 <= z < 2 ^ 63 ->
  Prim2SF (float64_of_int z) = binary_normalize prec emax z 0 false.
Proof.
  intros Hz. unfold float64_of_int. apply Prim2SF_SF2Prim.
  assert (Hphi : Uint63Axioms.to_Z (Uint63Axioms.of_Z z) = z).
  { rewrite Uint63.of_Z_spec. apply Z.mod_small. exact Hz. }
  rewrite <- Hphi at 1. rewrite <- of_uint63_spec. apply Prim2SF_valid.
Qed.

Lemma Zdigits2_63 z : 0 <= z < 2 ^ 63 -> Zdigits2 z <= 63.
Proof. intros H. apply Zdigits2_lt_pow2; lia. Qed.

Lemma float64_of_int_below z : 0 <= z < 2 ^ 63 -> below 64 (float64_of_int z).
Proof.
  intros Hz. unfold below. rewrite Prim2SF_float64_of_int by exact Hz.
  pose proof (Zdigits2_63 z Hz).
  change 64 with (63 + 1). apply binary_normalize_below; lia.
Qed.

Lemma float64_of_int_proper z :
  1 <= z < 2 ^ 63 -> proper (float64_of_int z) /\ atleast 1 (float64_of_int z).
Proof.
  intros Hz.
  assert (Hz0 : 0 <= z < 2 ^ 63) by lia.
  pose proof (float64_of_int_below z Hz0) as Hb.
  unfold below, proper, atleast in *.
  rewrite Prim2SF_float64_of_int in * by exact Hz0.
  assert (Hd : 1 <= Zdigits2 z) by (apply Zdigits2_pos; lia).
  assert (Ha : sf_atleast (Zdigits2 z + 0) (binary_normalize prec emax z 0 false))
    by (apply binary_normalize_atleast; lia).
  destruct (binary_normalize prec emax z 0 false); cbn in *; try contradiction.
  split; [exact I | lia].
Qed.

Lemma int_of_float64_range f : - 2 ^ 63 <= int_of_float64 f < 2 ^ 63.
Proof.
  unfold int_of_float64, int_indefinite.
  destruct (Prim2SF f) as [s|s| |s m e]; try lia.
  destruct (andb _ _) eqn:E; [|lia].
  apply andb_true_iff in E as [H1 H2].
  apply Z.leb_le in H1. apply Z.ltb_lt in H2. lia.
Qed.

(** ** Magnitudes in the speed profile *)

Ltac fconst := vm_compute; first [exact I | reflexivity | intro; discriminate].

(** The clamp at the end of [createSpeedProfile]. *)
Lemma speedValue_floor totalSeconds avgSpeed speedDecrease i f :
  number (avgSpeed * 0.90) ->
  number (avgSpeed + f
          - speedDecrease * float64_of_int i / float64_of_int totalSeconds) ->
  (avgSpeed * 0.90 <=? speedValue totalSeconds avgSpeed speedDecrease i f)%float = true.
Proof.
  intros Hm Hv. unfold speedValue. cbv zeta.
  destruct (_ <? _)%float eqn:E.
  - now apply leb_refl.
  - now apply ltb_false_leb.
Qed.

Lemma linearDecline_below speedDecrease i totalSeconds :
  below 900 speedDecrease -> 0 <= i < 2 ^ 63 -> 1 <= totalSeconds < 2 ^ 63 ->
  below 966 (speedDecrease * float64_of_int i / float64_of_int totalSeconds).
Proof.
  intros Hsd Hi Ht.
  destruct (float64_of_int_proper totalSeconds Ht) as [Hp Ha].
  change 966 with (965 - 1 + 2).
  apply div_below; [|exact Hp|exact Ha|lia].
  change 965 with (900 + 64 + 1).
  apply mul_below; [exact Hsd| |lia].
  now apply float64_of_int_below.
Qed.

Section SpeedFloor.
Context {rand : RandPkg}.

Lemma fluctuation_number avgSpeed i f :
  number avgSpeed ->
  (forall s0, number (fst (NormFloat64 s0))) ->
  (i = 0 -> f = (0.2 * avgSpeed)%float) ->
  (0 < i -> exists s0, f = (fst (NormFloat64 s0) * 1.8)%float) ->
  0 <= i -> number f.
Proof.
  intros Ha Hn H0 H1 Hi.
  destruct (Z.eq_dec i 0) as [->|Hne].
  - rewrite H0 by reflexivity. apply mul_number_l; [fconst | exact Ha].
  - destruct H1 as [s0 ->]; [lia|]. apply mul_number_r; [apply Hn | fconst].
Qed.

End SpeedFloor.

(** ** Magnitudes in the heart-rate and cadence profiles *)

Lemma SFleb_finite m1 e1 m2 e2 :
  SFleb (S754_finite false m1 e1) (S754_finite false m2 e2) = true ->
  e1 < e2 \/ (e1 = e2 /\ Z.pos m1 <= Z.pos m2).
Proof.
  unfold SFleb, SFcompare.
  destruct (Z.compare_spec e1 e2) as [He|He|He]; try discriminate.
  - intros H. right. split; [exact He|].
    intros E. change (PosDef.Pos.compare_cont Eq m1 m2 = Gt) in E.
    rewrite E in H. discriminate.
  - intros _. left. exact He.
Qed.










Section Vitals.
Context {math : MathPkg} {rand : RandPkg}.











End Vitals.

(** ** More about slices and conversions *)

Lemma elem_map {A B} (f : A -> B) (l : list A) i v :
  elem l i v -> elem (map f l) i (f v).
Proof.
  intros [H0 H]. split; [exact H0|]. rewrite nth_error_map, H. reflexivity.
Qed.

Lemma elem_map_inv {A B} (f : A -> B) (l : list A) i w :
  elem (map f l) i w -> exists v, elem l i v /\ w = f v.
Proof.
  intros [H0 H]. rewrite nth_error_map in H.
  destruct (nth_error l (Z.to_nat i)) as [v|] eqn:E; [|discriminate].
  injection H as <-. exists v. split; [split; assumption | reflexivity].
Qed.

Lemma elem_app_l {A} (l1 l2 : list A) i v : elem l1 i v -> elem (l1 ++ l2) i v.
Proof.
  intros H. pose proof (elem_lt _ _ _ H) as Hlt. destruct H as [H0 H].
  split; [exact H0|]. rewrite nth_error_app1; [exact H|]. unfold len in Hlt. lia.
Qed.

Lemma elem_seq_map {B} (g : Z -> B) lo n i :
  0 <= i < Z.of_nat n ->
  elem (map g (map (fun k => lo + Z.of_nat k) (seq 0 n))) i (g (lo + i)).
Proof.
  intros Hi. split; [lia|].
  rewrite !nth_error_map, nth_error_seq.
  destruct (Nat.ltb_spec (Z.to_nat i) n) as [_|H]; [|lia].
  cbn. do 2 f_equal. lia.
Qed.

(** The sign of [float64(z)] for a positive [z]. *)
Lemma float64_of_int_positive z :
  1 <= z < 2 ^ 63 ->
  exists m e, Prim2SF (float64_of_int z) = S754_finite false m e.
Proof.
  intros Hz. destruct (float64_of_int_proper z Hz) as [Hp _].
  unfold proper in Hp. rewrite Prim2SF_float64_of_int in * by lia.
  destruct z as [|p|p]; try lia.
  cbn [binary_normalize] in *. unfold binary_round in *.
  destruct (shl_align _ _ _) as [mz ez].
  destruct (binary_round_aux_spec false (Zpos mz) ez loc_Exact ltac:(lia))
    as (m1 & e1 & e2 & _ & _ & _ & E).
  rewrite E in *. destruct (m1 / 2 ^ (e2 - e1)); try contradiction.
  destruct (e2 <=? 971); [|contradiction]. eauto.
Qed.

Lemma zero_div_positive x m e :
  Prim2SF x = S754_finite false m e -> (0 / x)%float = 0%float.
Proof.
  intros Hx. apply Prim2SF_inj. rewrite div_spec, Hx. reflexivity.
Qed.

Lemma floor_positive c v :
  (0 <? c)%float = true -> (c <=? v)%float = true -> (v <=? 0)%float = false.
Proof.
  rewrite ltb_spec, !leb_spec. change (Prim2SF 0) with (S754_zero false).
  unfold SFltb, SFleb, SFcompare.
  destruct (Prim2SF c) as [sc|sc| |sc mc ec], (Prim2SF v) as [sv|sv| |sv mv ev];
    try discriminate; try (destruct sc; discriminate);
    try (destruct sv; discriminate); try (destruct sc, sv; discriminate).
  all: destruct sc, sv; try discriminate; try reflexivity.

Qed.

(** ** Signs and lower bounds in binary64 *)

Lemma binary_round_aux_sign s m e l :
  match binary_round_aux prec emax s m e l with
  | S754_zero s' | S754_infinity s' | S754_finite s' _ _ => s' = s
  | S754_nan => True
  end.
Proof.
  unfold binary_round_aux.
  destruct (shr_fexp prec emax m e l) as [mrs' e'].
  destruct (shr_fexp prec emax _ e' loc_Exact) as [mrs'' e''].
  destruct (shr_m mrs''); [reflexivity | | exact I].
  destruct (Z.leb e'' (emax - prec)); reflexivity.
Qed.

Lemma binary_round_aux_opp s m e l :
  binary_round_aux prec emax (negb s) m e l = SFopp (binary_round_aux prec emax s m e l).
Proof.
  unfold binary_round_aux.
  destruct (shr_fexp prec emax m e l) as [mrs' e'].
  destruct (shr_fexp prec emax _ e' loc_Exact) as [mrs'' e''].
  destruct (shr_m mrs''); [reflexivity | | reflexivity].
  destruct (Z.leb e'' (emax - prec)); reflexivity.
Qed.

Lemma valid_binary_opp x : valid_binary (SFopp x) = valid_binary x.
Proof. destruct x; reflexivity. Qed.

Lemma sf_atleast_le k k' x : sf_atleast k' x -> k <= k' -> sf_atleast k x.
Proof. destruct x; cbn; auto. lia. Qed.

(** A rounded positive magnitude that is large enough is above zero. *)
Lemma binary_round_aux_gtzero m e l :
  0 < m -> -1021 <= Zdigits2 m + e ->
  sf_gtzero (binary_round_aux prec emax false m e l).
Proof.
  intros Hm He.
  pose proof (binary_round_aux_atleast false m e l Hm He) as Ha.
  pose proof (binary_round_aux_sign false m e l) as Hs.
  destruct (binary_round_aux prec emax false m e l); cbn in *; try contradiction;
    subst; exact I.
Qed.

Lemma binary_round_aux_lezero m e l :
  0 <= m -> sf_lezero (binary_round_aux prec emax true m e l).
Proof.
  intros Hm.
  pose proof (binary_round_aux_number true m e l Hm) as Hn.
  pose proof (binary_round_aux_sign true m e l) as Hs.
  destruct (binary_round_aux prec emax true m e l); cbn in *; try contradiction;
    subst; exact I.
Qed.

(** *** Lower bounds of products and quotients *)

Lemma Zdigits2_ge_pow2 m k : 0 <= k -> 2 ^ k <= m -> k + 1 <= Zdigits2 m.
Proof.
  intros Hk Hm.
  assert (H0 : 0 < 2 ^ k) by (apply Z.pow_pos_nonneg; lia).
  destruct (Z.le_gt_cases (k + 1) (Zdigits2 m)) as [|Hlt]; [assumption|].
  assert (Hle : Zdigits2 m <= k) by lia.
  apply Zdigits2_lt_pow2 in Hle; lia.
Qed.

Lemma SFmul_atleast a b x y :
  sf_proper x -> sf_proper y -> sf_atleast a x -> sf_atleast b y ->
  -1021 <= a + b - 1 ->
  sf_atleast (a + b - 1) (SFmul prec emax x y).
Proof.
  destruct x as [sx|sx| |sx mx ex], y as [sy|sy| |sy my ey];
    cbn [sf_proper sf_atleast SFmul]; intros Hx Hy Ha Hb Hab; try contradiction.
  pose proof (pos_ge_pow2_digits mx) as Bx.
  pose proof (pos_ge_pow2_digits my) as By.
  assert (Hd : Zpos (digits2_pos mx) + Zpos (digits2_pos my) - 1
               <= Zdigits2 (Zpos (mx * my))).
  { replace (Zpos (digits2_pos mx) + Zpos (digits2_pos my) - 1)
      with ((Zpos (digits2_pos mx) - 1 + (Zpos (digits2_pos my) - 1)) + 1) by lia.
    apply Zdigits2_ge_pow2; [lia|].
    rewrite Z.pow_add_r by lia. rewrite Pos2Z.inj_mul.
    apply Z.mul_le_mono_nonneg; try lia; apply Z.pow_nonneg; lia. }
  eapply sf_atleast_le; [apply binary_round_aux_atleast|]; lia.
Qed.

Lemma SFmul_gtzero a b x y :
  sf_gtzero x -> sf_gtzero y -> sf_proper x -> sf_proper y ->
  sf_atleast a x -> sf_atleast b y -> -1021 <= a + b - 1 ->
  sf_gtzero (SFmul prec emax x y).
Proof.
  destruct x as [sx|sx| |sx mx ex], y as [sy|sy| |sy my ey];
    cbn [sf_gtzero sf_proper sf_atleast SFmul]; intros Gx Gy Hx Hy Ha Hb Hab;
    try contradiction.
  destruct sx, sy; try contradiction. cbn [xorb].
  pose proof (pos_ge_pow2_digits mx) as Bx.
  pose proof (pos_ge_pow2_digits my) as By.
  assert (Hd : Zpos (digits2_pos mx) + Zpos (digits2_pos my) - 1
               <= Zdigits2 (Zpos (mx * my))).
  { replace (Zpos (digits2_pos mx) + Zpos (digits2_pos my) - 1)
      with ((Zpos (digits2_pos mx) - 1 + (Zpos (digits2_pos my) - 1)) + 1) by lia.
    apply Zdigits2_ge_pow2; [lia|].
    rewrite Z.pow_add_r by lia. rewrite Pos2Z.inj_mul.
    apply Z.mul_le_mono_nonneg; try lia; apply Z.pow_nonneg; lia. }
  apply binary_round_aux_gtzero; lia.
Qed.

Lemma SFmul_lezero x y :
  sf_lezero x -> sf_gtzero y -> sf_proper y -> sf_lezero (SFmul prec emax x y).
Proof.
  destruct x as [sx|sx| |sx mx ex], y as [sy|sy| |sy my ey];
    cbn [sf_lezero sf_gtzero sf_proper SFmul]; intros Lx Gy Hy; try contradiction;
    try exact I; destruct sx, sy; try contradiction; cbn [xorb]; try exact I.
  apply binary_round_aux_lezero. lia.
Qed.

(** The quotient of the mantissas has at least this many digits. *)
Lemma quotient_digits_ge mx my s :
  0 <= Zpos (digits2_pos mx) + s - Zpos (digits2_pos my) - 1 -> 0 <= s ->
  Zpos (digits2_pos mx) + s - Zpos (digits2_pos my)
  <= Zdigits2 (Zpos mx * 2 ^ s / Zpos my).
Proof.
  intros Hn Hs.
  set (n := Zpos (digits2_pos mx) + s - Zpos (digits2_pos my) - 1) in *.
  replace (Zpos (digits2_pos mx) + s - Zpos (digits2_pos my)) with (n + 1) by (unfold n; lia).
  apply Zdigits2_ge_pow2; [exact Hn|].
  apply Z.div_le_lower_bound; [lia|].
  pose proof (pos_ge_pow2_digits mx) as Bx.
  pose proof (pos_lt_pow2_digits my) as By.
  assert (Pn : 0 < 2 ^ n) by (apply Z.pow_pos_nonneg; lia).
  assert (Ps : 0 < 2 ^ s) by (apply Z.pow_pos_nonneg; lia).
  assert (H1 : Zpos my * 2 ^ n <= 2 ^ Zpos (digits2_pos my) * 2 ^ n) by nia.
  assert (H2 : 2 ^ Zpos (digits2_pos my) * 2 ^ n = 2 ^ (Zpos (digits2_pos mx) - 1) * 2 ^ s).
  { rewrite <- !Z.pow_add_r by lia. f_equal. unfold n. lia. }
  nia.
Qed.

Lemma quotient_shift a b dx ex dy ey :
  0 < dx -> 0 < dy ->
  Z.max (dx + ex - 53) (-1074) = ex ->
  Z.max (dy + ey - 53) (-1074) = ey ->
  a <= dx + ex -> dy + ey <= b -> -1021 <= a - b ->
  let e' := Z.min (Z.max (dx + ex - (dy + ey) - 53) (-1074)) (ex - ey) in
  0 <= ex - ey - e' /\ 0 <= dx + (ex - ey - e') - dy - 1 /\
  a - b <= dx + (ex - ey - e') - dy + e'.
Proof. intros. cbv zeta. lia. Qed.

Lemma SFdiv_digits a b mx ex my ey :
  Z.max (Zpos (digits2_pos mx) + ex - 53) (-1074) = ex ->
  Z.max (Zpos (digits2_pos my) + ey - 53) (-1074) = ey ->
  a <= Zpos (digits2_pos mx) + ex -> Zpos (digits2_pos my) + ey <= b ->
  -1021 <= a - b ->
  let e' := Z.min (fexp prec emax (Zdigits2 (Zpos mx) + ex - (Zdigits2 (Zpos my) + ey)))
                  (ex - ey) in
  let q := Zpos mx * 2 ^ (ex - ey - e') / Zpos my in
  0 < q /\ a - b <= Zdigits2 q + e'.
Proof.
  intros Vx Vy Ha Hb Hab. cbv zeta. rewrite fexp64. cbn [Zdigits2].
  destruct (quotient_shift a b _ ex _ ey (Pos2Z.is_pos (digits2_pos mx))
              (Pos2Z.is_pos (digits2_pos my)) Vx Vy Ha Hb Hab) as (Hs & Hn & Hd).
  cbv zeta in Hs, Hn, Hd.
  set (e' := Z.min _ (ex - ey)) in *.
  set (s := ex - ey - e') in *.
  pose proof (quotient_digits_ge mx my s Hn Hs) as Hq.
  split.
  - assert (H1 : 1 <= Zdigits2 (Zpos mx * 2 ^ s / Zpos my)) by lia.
    destruct (Zpos mx * 2 ^ s / Zpos my) as [|q|q] eqn:E; [cbn in H1; lia | lia |].
    assert (0 <= Zpos mx * 2 ^ s / Zpos my); [|lia].
    apply Z.div_pos; [|lia]. apply Z.mul_nonneg_nonneg; [lia|]. apply Z.pow_nonneg. lia.
  - lia.
Qed.

Lemma SFdiv_atleast a b x y :
  valid_binary x = true -> valid_binary y = true ->
  sf_proper x -> sf_proper y -> sf_atleast a x -> sf_below b y ->
  -1021 <= a - b ->
  sf_atleast (a - b) (SFdiv prec emax x y).
Proof.
  destruct x as [sx|sx| |sx mx ex], y as [sy|sy| |sy my ey];
    cbn [sf_proper sf_atleast sf_below SFdiv]; intros Vx Vy Hx Hy Ha Hb Hab;
    try contradiction.
  apply valid_finite in Vx, Vy.
  destruct (SFdiv_core_spec mx ex my ey) as (l & ->).
  destruct (SFdiv_digits a b mx ex my ey (proj1 Vx) (proj1 Vy) Ha Hb Hab) as [Hq Hd].
  eapply sf_atleast_le; [apply binary_round_aux_atleast|]; lia.
Qed.

Lemma SFdiv_gtzero a b x y :
  valid_binary x = true -> valid_binary y = true ->
  sf_gtzero x -> sf_gtzero y -> sf_proper x -> sf_proper y ->
  sf_atleast a x -> sf_below b y -> -1021 <= a - b ->
  sf_gtzero (SFdiv prec emax x y).
Proof.
  destruct x as [sx|sx| |sx mx ex], y as [sy|sy| |sy my ey];
    cbn [sf_gtzero sf_proper sf_atleast sf_below SFdiv];
    intros Vx Vy Gx Gy Hx Hy Ha Hb Hab; try contradiction.
  destruct sx, sy; try contradiction. cbn [xorb].
  apply valid_finite in Vx, Vy.
  destruct (SFdiv_core_spec mx ex my ey) as (l & ->).
  destruct (SFdiv_digits a b mx ex my ey (proj1 Vx) (proj1 Vy) Ha Hb Hab) as [Hq Hd].
  apply binary_round_aux_gtzero; lia.
Qed.

Lemma SFdiv_lezero x y :
  sf_lezero x -> sf_gtzero y -> sf_proper y -> sf_lezero (SFdiv prec emax x y).
Proof.
  destruct x as [sx|sx| |sx mx ex], y as [sy|sy| |sy my ey];
    cbn [sf_lezero sf_gtzero sf_proper SFdiv]; intros Lx Gy Hy; try contradiction;
    try exact I; destruct sx, sy; try contradiction; cbn [xorb]; try exact I.
  destruct (SFdiv_core_spec mx ex my ey) as (l & ->).
  apply binary_round_aux_lezero.
  apply Z.div_pos; [|lia]. apply Z.mul_nonneg_nonneg; [lia|]. apply Z.pow_nonneg. lia.
Qed.

(** *** On [float64] *)

Lemma gtzero_proper x : gtzero x -> finite x -> proper x.
Proof. unfold gtzero, finite, proper. destruct (Prim2SF x) as [s|s| |s m e]; cbn; auto. Qed.

Lemma mul_atleast a b x y :
  proper x -> proper y -> atleast a x -> atleast b y -> -1021 <= a + b - 1 ->
  atleast (a + b - 1) (x * y)%float.
Proof. unfold proper, atleast. rewrite mul_spec. apply SFmul_atleast. Qed.

Lemma mul_gtzero a b x y :
  gtzero x -> gtzero y -> proper x -> proper y ->
  atleast a x -> atleast b y -> -1021 <= a + b - 1 ->
  gtzero (x * y)%float.
Proof. unfold gtzero, proper, atleast. rewrite mul_spec. apply SFmul_gtzero. Qed.

Lemma mul_lezero x y : lezero x -> gtzero y -> proper y -> lezero (x * y)%float.
Proof. unfold lezero, gtzero, proper. rewrite mul_spec. apply SFmul_lezero. Qed.

Lemma div_atleast a b x y :
  proper x -> proper y -> atleast a x -> below b y -> -1021 <= a - b ->
  atleast (a - b) (x / y)%float.
Proof.
  unfold proper, atleast, below. rewrite div_spec.
  apply SFdiv_atleast; apply Prim2SF_valid.
Qed.

Lemma div_gtzero a b x y :
  gtzero x -> gtzero y -> proper x -> proper y ->
  atleast a x -> below b y -> -1021 <= a - b ->
  gtzero (x / y)%float.
Proof.
  unfold gtzero, proper, atleast, below. rewrite div_spec.
  apply SFdiv_gtzero; apply Prim2SF_valid.
Qed.

Lemma div_lezero x y : lezero x -> gtzero y -> proper y -> lezero (x / y)%float.
Proof. unfold lezero, gtzero, proper. rewrite div_spec. apply SFdiv_lezero. Qed.

(** *** Conversions *)

Lemma shiftl_bounds m e d :
  0 < m -> 2 ^ (d - 1) <= m < 2 ^ d -> 1 <= d ->
  (1 <= d + e -> 2 ^ (d + e - 1) <= Z.shiftl m e) /\
  (0 <= d + e -> Z.shiftl m e < 2 ^ (d + e)) /\
  0 <= Z.shiftl m e /\
  (d + e <= 0 -> Z.shiftl m e = 0).
Proof.
  intros Hm [Hlo Hhi] Hd.
  destruct (Z.le_gt_cases 0 e) as [He|He].
  - rewrite Z.shiftl_mul_pow2 by lia.
    assert (Pe : 0 < 2 ^ e) by (apply Z.pow_pos_nonneg; lia).
    split; [|split; [|split]].
    + intros _. replace (d + e - 1) with (d - 1 + e) by lia.
      rewrite Z.pow_add_r by lia. nia.
    + intros _. rewrite Z.pow_add_r by lia. nia.
    + nia.
    + lia.
  - rewrite Z.shiftl_div_pow2 by lia.
    assert (Pe : 0 < 2 ^ (- e)) by (apply Z.pow_pos_nonneg; lia).
    split; [|split; [|split]].
    + intros H. apply Z.div_le_lower_bound; [lia|].
      rewrite <- Z.pow_add_r by lia. replace (- e + (d + e - 1)) with (d - 1) by lia.
      exact Hlo.
    + intros H. apply Z.div_lt_upper_bound; [lia|].
      rewrite <- Z.pow_add_r by lia. replace (- e + (d + e)) with d by lia. exact Hhi.
    + apply Z.div_pos; lia.
    + intros H. apply Z.div_small. split; [lia|].
      assert (2 ^ d <= 2 ^ (- e)) by (apply Z.pow_le_mono_r; lia). lia.
Qed.

Lemma pos_digits_bounds m :
  2 ^ (Zpos (digits2_pos m) - 1) <= Zpos m < 2 ^ Zpos (digits2_pos m).
Proof. split; [apply pos_ge_pow2_digits | apply pos_lt_pow2_digits]. Qed.

(** [int(x)] for [|x| < 2 ^ k]. *)
Lemma int_of_float64_below k x :
  below k x -> 0 <= k <= 63 -> - 2 ^ k < int_of_float64 x < 2 ^ k.
Proof.
  unfold below, int_of_float64. intros Hb Hk.
  assert (Pk : 0 < 2 ^ k) by (apply Z.pow_pos_nonneg; lia).
  assert (Hk63 : 2 ^ k <= 2 ^ 63) by (apply Z.pow_le_mono_r; lia).
  destruct (Prim2SF x) as [s|s| |s m e]; cbn [sf_below] in Hb; try contradiction; [lia|].
  destruct (shiftl_bounds (Zpos m) e (Zpos (digits2_pos m)) ltac:(lia)
              (pos_digits_bounds m) ltac:(lia)) as (_ & Hhi & H0 & Hz).
  assert (Hmag : Z.shiftl (Zpos m) e < 2 ^ k).
  { destruct (Z.le_gt_cases 0 (Zpos (digits2_pos m) + e)) as [H|H].
    - specialize (Hhi H).
      assert (2 ^ (Zpos (digits2_pos m) + e) <= 2 ^ k) by (apply Z.pow_le_mono_r; lia).
      lia.
    - rewrite Hz by lia. lia. }
  cbv zeta.
  set (v := if s then - Z.shiftl (Zpos m) e else Z.shiftl (Zpos m) e).
  assert (Hv : - 2 ^ k < v < 2 ^ k) by (unfold v; destruct s; lia).
  destruct (Z.leb_spec (- 2 ^ 63) v); [|lia].
  destruct (Z.ltb_spec v (2 ^ 63)); [|lia].
  exact Hv.
Qed.

Lemma int_of_float64_atleast k x :
  gtzero x -> atleast k x -> below 63 x -> 1 <= k -> 2 ^ (k - 1) <= int_of_float64 x.
Proof.
  unfold gtzero, atleast, below, int_of_float64. intros Hg Ha Hb Hk.
  destruct (Prim2SF x) as [s|s| |s m e]; cbn [sf_gtzero sf_atleast sf_below] in Hg, Ha, Hb;
    try contradiction.
  destruct s; [contradiction|].
  destruct (shiftl_bounds (Zpos m) e (Zpos (digits2_pos m)) ltac:(lia)
              (pos_digits_bounds m) ltac:(lia)) as (Hlo & Hhi & H0 & _).
  specialize (Hlo ltac:(lia)). specialize (Hhi ltac:(lia)).
  assert (H1 : 2 ^ (k - 1) <= 2 ^ (Zpos (digits2_pos m) + e - 1))
    by (apply Z.pow_le_mono_r; lia).
  assert (H2 : 2 ^ (Zpos (digits2_pos m) + e) <= 2 ^ 63) by (apply Z.pow_le_mono_r; lia).
  cbv zeta.
  destruct (Z.leb_spec (- 2 ^ 63) (Z.shiftl (Zpos m) e)); [|lia].
  destruct (Z.ltb_spec (Z.shiftl (Zpos m) e) (2 ^ 63)); [|lia].
  cbn [andb]. lia.
Qed.

Lemma int_of_float64_lezero x : lezero x -> int_of_float64 x <= 0.
Proof.
  unfold lezero, int_of_float64, int_indefinite. intros Hl.
  destruct (Prim2SF x) as [s|s| |s m e]; cbn [sf_lezero] in Hl; try contradiction; try lia.
  destruct s; [|contradiction]. cbv zeta.
  destruct (shiftl_bounds (Zpos m) e (Zpos (digits2_pos m)) ltac:(lia)
              (pos_digits_bounds m) ltac:(lia)) as (_ & _ & H0 & _).
  destruct (andb _ _); lia.
Qed.

(** [float64(z)], magnitude and sign. *)
Lemma float64_of_int_below_pow z k :
  0 <= z < 2 ^ k -> 0 <= k <= 63 -> below (k + 1) (float64_of_int z).
Proof.
  intros Hz Hk.
  assert (H63 : 2 ^ k <= 2 ^ 63) by (apply Z.pow_le_mono_r; lia).
  unfold below. rewrite Prim2SF_float64_of_int by lia.
  apply binary_normalize_below; [|lia|lia].
  rewrite Z.add_0_r. apply Zdigits2_lt_pow2; lia.
Qed.

Lemma float64_of_int_atleast z k :
  2 ^ (k - 1) <= z < 2 ^ 63 -> 1 <= k ->
  gtzero (float64_of_int z) /\ proper (float64_of_int z) /\ atleast k (float64_of_int z).
Proof.
  intros Hz Hk.
  assert (Pk : 0 < 2 ^ (k - 1)) by (apply Z.pow_pos_nonneg; lia).
  destruct (float64_of_int_positive z ltac:(lia)) as (m & e & E).
  assert (Hd : k <= Zdigits2 z).
  { replace k with (k - 1 + 1) by lia. apply Zdigits2_ge_pow2; lia. }
  assert (Ha : sf_atleast (Zdigits2 z + 0) (binary_normalize prec emax z 0 false))
    by (apply binary_normalize_atleast; lia).
  rewrite <- Prim2SF_float64_of_int in Ha by lia.
  unfold gtzero, proper, atleast. rewrite E in *.
  cbn [sf_gtzero sf_proper sf_atleast] in *.
  split; [exact I|]. split; [exact I|]. lia.
Qed.

Lemma Prim2SF_float64_of_int_neg p :
  Zpos p < 2 ^ 63 ->
  Prim2SF (float64_of_int (Zneg p)) = SFopp (Prim2SF (float64_of_int (Zpos p))).
Proof.
  intros Hp.
  assert (E : binary_normalize prec emax (Zneg p) 0 false
              = SFopp (binary_normalize prec emax (Zpos p) 0 false)).
  { cbn [binary_normalize]. unfold binary_round.
    destruct (shl_align _ _ _) as [mz ez].
    apply (binary_round_aux_opp false). }
  assert (V : valid_binary (binary_normalize prec emax (Zpos p) 0 false) = true).
  { rewrite <- Prim2SF_float64_of_int by lia. apply Prim2SF_valid. }
  rewrite (Prim2SF_float64_of_int (Zpos p)) by lia.
  unfold float64_of_int. rewrite <- E. apply Prim2SF_SF2Prim.
  rewrite E, valid_binary_opp. exact V.
Qed.

Lemma float64_of_int_lezero z : - 2 ^ 63 <= z <= 0 -> lezero (float64_of_int z).
Proof.
  intros Hz.
  destruct (Z.eq_dec z (- 2 ^ 63)) as [->|Hmin]; [fconst|].
  destruct z as [|p|p]; [exact I | lia |].
  unfold lezero. rewrite Prim2SF_float64_of_int_neg by lia.
  destruct (float64_of_int_positive (Zpos p) ltac:(lia)) as (m & e & ->).
  exact I.
Qed.

Lemma horizonOf_small routeLength :
  - 2 ^ 63 <= routeLength <= 4 -> horizonOf routeLength < 3.
Proof.
  intros Hr.
  destruct (Z.le_gt_cases routeLength 0) as [Hneg|Hpos].
  - assert (horizonOf routeLength <= 0); [|lia].
    unfold horizonOf. cbv zeta.
    apply int_of_float64_lezero. apply mul_lezero; [|fconst|fconst].
    apply float64_of_int_lezero.
    pose proof (int_of_float64_range (float64_of_int routeLength / AvgSpeed)).
    assert (int_of_float64 (float64_of_int routeLength / AvgSpeed) <= 0); [|lia].
    apply int_of_float64_lezero. apply div_lezero; [|fconst|fconst].
    apply float64_of_int_lezero. lia.
  - assert (Hc : routeLength = 1 \/ routeLength = 2 \/ routeLength = 3 \/ routeLength = 4)
      by lia.
    destruct Hc as [Hc|[Hc|[Hc|Hc]]]; subst routeLength; vm_compute; reflexivity.
Qed.

Lemma horizonOf_large routeLength :
  5 <= routeLength < 2 ^ 58 -> 3 <= horizonOf routeLength.
Proof.
  intros Hr.
  destruct (Z.le_gt_cases 8 routeLength) as [H8|H8].
  2:{ assert (Hc : routeLength = 5 \/ routeLength = 6 \/ routeLength = 7) by lia.
      destruct Hc as [Hc|[Hc|Hc]]; subst routeLength; vm_compute; intro; discriminate. }
  assert (H58 : 2 ^ 58 < 2 ^ 63) by (vm_compute; reflexivity).
  destruct (float64_of_int_atleast routeLength 4 ltac:(change (2 ^ (4 - 1)) with 8; lia)
              ltac:(lia)) as (Gx & Px & Ax).
  pose proof (float64_of_int_below_pow routeLength 58 ltac:(lia) ltac:(lia)) as Bx.
  set (x := float64_of_int routeLength) in *.
  assert (Gq : gtzero (x / AvgSpeed)).
  { apply (div_gtzero 4 1); try assumption; try fconst; try lia. }
  assert (Aq : atleast 3 (x / AvgSpeed)).
  { change 3 with (4 - 1). apply div_atleast; try assumption; try fconst; try lia. }
  assert (Bq : below 60 (x / AvgSpeed)).
  { change 60 with (58 + 1 - 1 + 2). apply div_below; try assumption; try fconst; try lia. }
  set (q := (x / AvgSpeed)%float) in *.
  assert (Ht : 4 <= int_of_float64 q).
  { change 4 with (2 ^ (3 - 1)). apply int_of_float64_atleast; try assumption; [|lia].
    eapply below_le; [exact Bq | lia]. }
  pose proof (int_of_float64_below 60 q Bq ltac:(lia)) as Ht'.
  set (t := int_of_float64 q) in *.
  assert (H60 : 2 ^ 60 < 2 ^ 63) by (vm_compute; reflexivity).
  destruct (float64_of_int_atleast t 3 ltac:(change (2 ^ (3 - 1)) with 4; lia)
              ltac:(lia)) as (Gy & Py & Ay).
  pose proof (float64_of_int_below_pow t 60 ltac:(lia) ltac:(lia)) as By.
  set (y := float64_of_int t) in *.
  unfold horizonOf. cbv zeta. fold x. fold q. fold t. fold y.
  assert (4 <= int_of_float64 (y * 1.3)%float); [|lia].
  change 4 with (2 ^ (3 - 1)). apply int_of_float64_atleast; [| | |lia].
  - apply (mul_gtzero 3 1); try assumption; try fconst; try lia.
  - change 3 with (3 + 1 - 1). apply mul_atleast; try assumption; try fconst; try lia.
  - change 63 with (60 + 1 + 1 + 1). apply mul_below; try assumption; try fconst; try lia.
Qed.

(** The first sample of the speed profile, at the handler's settings. *)
Lemma speedValue_first totalSeconds :
  1 <= totalSeconds < 2 ^ 63 ->
  speedValue totalSeconds AvgSpeed 0.2 0 (0.2 * AvgSpeed)%float = 1.8%float.
Proof.
  intros Ht. destruct (float64_of_int_positive totalSeconds Ht) as (m & e & Hx).
  unfold speedValue. cbv zeta.
  change (0.2 * float64_of_int 0)%float with 0%float.
  rewrite (zero_div_positive _ m e Hx). reflexivity.
Qed.

(** ** More about the runs of the handler *)

Section Runs2.
Context {math : MathPkg} {rand : RandPkg}.

(** Whatever was drawn, a run's speeds are at or above the floor. *)
Lemma speedProfile_floor h s sp s1 :
  createSpeedProfile h AvgSpeed 0.2 s = Done (sp, s1) ->
  h < 2 ^ 63 ->
  (forall s0, is_nan (fst (NormFloat64 s0)) = false) ->
  forall i v, elem sp i v -> (AvgSpeed * 0.90 <=? v)%float = true.
Proof.
  intros Hrun Hh Hn i v Hv.
  pose proof (wlp_Done _ _ _ _ _
                (createSpeedProfile_spec True h AvgSpeed 0.2 s (or_introl I)) Hrun)
    as (H1 & Hlen & Hval).
  pose proof (elem_lt _ _ _ Hv) as Hi. rewrite Hlen in Hi.
  destruct (Hval i Hi) as (f & Hf & H0 & Hpos).
  rewrite (elem_fun _ _ _ _ Hv Hf).
  assert (Havg : number AvgSpeed) by fconst.
  assert (Hnum : number f).
  { apply (fluctuation_number AvgSpeed i f); auto; [|lia].
    intros s0. now apply number_is_nan. }
  apply speedValue_floor.
  - fconst.
  - apply sub_number_r.
    + apply add_number_l; [fconst | exact Hnum].
    + eapply below_finite. apply linearDecline_below; [fconst|lia|lia].
Qed.

Lemma speedProfile_first h s sp s1 :
  createSpeedProfile h AvgSpeed 0.2 s = Done (sp, s1) ->
  h < 2 ^ 63 -> elem sp 0 1.8%float.
Proof.
  intros Hrun Hh.
  pose proof (wlp_Done _ _ _ _ _
                (createSpeedProfile_spec True h AvgSpeed 0.2 s (or_introl I)) Hrun)
    as (H1 & Hlen & Hval).
  destruct (Hval 0 ltac:(lia)) as (f & Hf & H0 & _).
  rewrite H0 in Hf by reflexivity.
  rewrite speedValue_first in Hf by lia. exact Hf.
Qed.

Lemma horizonOf_range routeLength : horizonOf routeLength < 2 ^ 63.
Proof. unfold horizonOf. cbv zeta. apply int_of_float64_range. Qed.

Lemma adjustProfile_run profile n s r s' :
  adjustProfile profile n s = Done (r, s') ->
  (forall i v, i < n -> elem profile i v -> elem r i v) /\
  (forall i last, len profile <= i < n -> elem profile (len profile - 1) last ->
                  elem r i last).
Proof.
  intros Hrun. split.
  - destruct (Z.le_gt_cases 0 n) as [Hn|Hn].
    + pose proof (wlp_Done _ _ _ _ _
                    (adjustProfile_spec True profile n s Hn (or_introl I)) Hrun)
        as (_ & _ & _ & Hkeep). exact Hkeep.
    + intros i v Hi Hv. pose proof (elem_lt _ _ _ Hv). lia.
  - intros i last Hi Hlast. unfold adjustProfile in Hrun.
    pose proof (len_nonneg profile).
    destruct (Z.ltb_spec (len profile) n); [|lia].
    erewrite bind_Done in Hrun
      by (unfold lift; rewrite (get_elem _ _ _ Hlast); reflexivity).
    rewrite for_range_append_const in Hrun. injection Hrun as <- _.
    split; [lia|].
    rewrite nth_error_app2 by (unfold len in *; lia).
    apply nth_error_repeat. unfold len in *. lia.
Qed.

Lemma interpolatePoints_run p1 p2 speedProfile totalTime currentTime s speed :
  elem speedProfile
    (if currentTime >=? len speedProfile then len speedProfile - 1 else currentTime)
    speed ->
  let numSeconds :=
    numSecondsOf (haversineDistance (Lat p1) (Lon p1) (Lat p2) (Lon p2)) speed in
  exists pts,
    interpolatePoints p1 p2 speedProfile totalTime currentTime s = Done (pts, s) /\
    len pts = Z.max 0 numSeconds /\
    forall i, 1 <= i <= numSeconds ->
      elem pts (i - 1) (interpolatedPoint p1 p2 speed numSeconds i).
Proof.
  intros Hspeed. cbv zeta. unfold interpolatePoints. cbv zeta.
  erewrite bind_Done by (unfold lift; rewrite (get_elem _ _ _ Hspeed); reflexivity).
  set (n := numSecondsOf _ speed).
  eexists. split; [|split].
  - rewrite <- (for_range_append (interpolatedPoint p1 p2 speed n) 1 (n + 1) [] s).
    apply for_range_ext. intros i l s1. unfold interpolatedPoint. cbv zeta.
    now destruct (destinationPoint _ _ _ _).
  - simpl. unfold len. rewrite !length_map, length_seq. lia.
  - intros i Hi. cbn [app].
    replace i with (1 + (i - 1)) at 2 by lia.
    apply elem_seq_map. lia.
Qed.

(** A route of two waypoints is one segment, walked at the first speed. *)
Lemma interpolateRoute_two p1 p2 speedProfile totalTimeSeconds s speed :
  elem speedProfile 0 speed ->
  exists pts,
    interpolatePoints p1 p2 speedProfile totalTimeSeconds 0 s = Done (pts, s) /\
    interpolateRoute [p1; p2] speedProfile totalTimeSeconds s = Done (pts, s).
Proof.
  intros Hspeed.
  pose proof (elem_lt _ _ _ Hspeed) as Hlen.
  assert (Hidx : elem speedProfile
                   (if 0 >=? len speedProfile then len speedProfile - 1 else 0) speed).
  { destruct (Z.geb_spec 0 (len speedProfile)); [lia | exact Hspeed]. }
  destruct (interpolatePoints_run p1 p2 speedProfile totalTimeSeconds 0 s speed Hidx)
    as (pts & Hrun & _).
  exists pts. split; [exact Hrun|].
  unfold interpolateRoute. change (len [p1; p2] - 1) with 1.
  unfold for_range. change (Z.to_nat (1 - 0)) with 1%nat. cbn [for_loop].
  unfold bind at 1. unfold bind at 1.
  change (lift (get [p1; p2] 0)) with (@ret Src _ p1).
  erewrite bind_Done by reflexivity.
  erewrite bind_Done by reflexivity.
  erewrite bind_Done by exact Hrun.
  erewrite bind_Done by (unfold lift; rewrite (get_elem _ _ _ Hspeed); reflexivity).
  cbn [app]. destruct (wrap64 _ >=? _); reflexivity.
Qed.

(** [synthesize] returns as soon as the interpolation does. *)
Lemma synthesize_interpolating (E : Prop) routeLength points now s :
  E \/ 3 <= horizonOf routeLength ->
  (forall sp s1 s3,
     createSpeedProfile (horizonOf routeLength) AvgSpeed 0.2 s = Done (sp, s1) ->
     wpx E (interpolateRoute points sp (horizonOf routeLength - 2)) s3
       (fun _ s' => s' = s3)) ->
  wpx E (synthesize routeLength points now) s
    (fun resp s' => exists tr, traced routeLength points now s tr resp s').
Proof.
  intros Hpre Hinterp. unfold synthesize. cbv zeta.
  set (h := horizonOf routeLength) in *.
  apply wpx_bind, wpx_run. eapply wpx_mono.
  { apply createSpeedProfile_spec. destruct Hpre; [now left | right; lia]. }
  cbv beta. intros sp s1 (Hh1 & Hlen_sp & _) Hrun1.
  apply wpx_bind. eapply wpx_eq; [apply extractElevationChanges_eq; lia|].
  apply wpx_bind, wpx_run. eapply wpx_mono.
  { apply createBPMProfile_spec. destruct Hpre; [now left | right; lia]. }
  cbv beta. intros bpm s2 (Hh3 & Hlen_bpm & _) Hrun2.
  apply wpx_bind, wpx_run. eapply wpx_mono.
  { apply createCadenceProfile_spec. right; lia. }
  cbv beta. intros cad s3 (_ & Hlen_cad & _) Hrun3.
  apply wpx_bind, wpx_run. eapply wpx_mono.
  { eapply Hinterp. exact Hrun1. }
  cbv beta. intros interp s4 -> Hrun4.
  pose proof (len_nonneg interp) as Hn.
  apply wpx_bind, wpx_run. eapply wpx_mono.
  { apply adjustProfile_spec; [exact Hn | right; lia]. }
  cbv beta. intros bpmAdj s5 (-> & Hlen_adj & _) Hrun5.
  apply wpx_bind, wpx_run. eapply wpx_mono.
  { apply adjustProfile_spec; [exact Hn | right; lia]. }
  cbv beta. intros cadAdj s6 (-> & _) Hrun6.
  apply wpx_bind. eapply wpx_eq; [apply generateTimestamps_eq; exact Hn|].
  rewrite len_timestampsOf, Z.eqb_refl by exact Hn. cbn [negb].
  apply wpx_bind. rewrite <- Hlen_adj at 1. eapply wpx_mono; [apply convertBPM_spec|].
  cbv beta. intros bpmInt s7 [-> ->].
  apply wpx_bind, wpx_run. eapply wpx_mono.
  { apply createPaceProfile_spec; exact Hn. }
  cbv beta. intros pace s8 (-> & _) Hrun8.
  apply wpx_bind. eapply wpx_mono; [apply createRoute_spec|].
  cbv beta. intros route s9 [-> ->].
  apply wpx_ret.
  exists (@mkTrace rand sp bpm cad interp bpmAdj cadAdj pace s1 s2).
  unfold traced. cbn [t_speedProfile t_bpmProfileFloat t_cadenceProfile
                      t_interpolatedPoints t_bpmAdjusted t_cadenceAdjusted
                      t_paceProfile t_s1 t_s2].
  fold h. repeat (split; [first [lia | assumption | reflexivity]|]). reflexivity.
Qed.

End Runs2.

(** ** The request limiter *)

Lemma assign_same m k v : assign m k v k = Some v.
Proof. unfold assign. now rewrite String.eqb_refl. Qed.

Lemma assign_other m k v k' : k' <> k -> assign m k v k' = m k'.
Proof. unfold assign. intros H. apply String.eqb_neq in H. now rewrite H. Qed.

Lemma delete_same m k : delete m k k = None.
Proof. unfold delete. now rewrite String.eqb_refl. Qed.

Lemma delete_other m k k' : k' <> k -> delete m k k' = m k'.
Proof. unfold delete. intros H. apply String.eqb_neq in H. now rewrite H. Qed.

Lemma bump_same f k d : bump f k d k = f k + d.
Proof. unfold bump. now rewrite String.eqb_refl. Qed.

Lemma bump_other f k d k' : k' <> k -> bump f k d k' = f k'.
Proof. unfold bump. intros H. apply String.eqb_neq in H. now rewrite H. Qed.

Lemma limited_started : limited started.
Proof. intros ip. cbn. lia. Qed.

Lemma limited_step e sv sv' log :
  limited sv -> step e sv = Some (sv', log) -> limited sv'.
Proof.
  intros Hinv Hstep ip. destruct e as [c now|c now]; cbn [step] in Hstep.
  - unfold Middleware in Hstep. pose proof (Hinv c) as [Hs Hc].
    destruct (client_counter (handler sv) c) as [ci|] eqn:E.
    + destruct (Z.geb_spec (Count ci) CLIENT_USE_THRESHOLD).
      * injection Hstep as <- _. apply Hinv.
      * injection Hstep as <- _. cbn.
        destruct (string_dec ip c) as [->|Hne].
        -- rewrite assign_same. cbn. unfold CLIENT_USE_THRESHOLD in *.
           rewrite wrap64_small by lia. lia.
        -- rewrite assign_other by assumption. apply Hinv.
    + injection Hstep as <- _. cbn.
      destruct (string_dec ip c) as [->|Hne].
      * rewrite assign_same, bump_same. cbn. unfold CLIENT_USE_THRESHOLD. lia.
      * rewrite assign_other, bump_other by assumption. apply Hinv.
  - destruct (Z.ltb_spec 0 (sleeping sv c)) as [Hpos|]; [|discriminate].
    injection Hstep as <- _. cbn. unfold resetClientCounter.
    pose proof (Hinv c) as [Hs Hc].
    destruct (client_counter (handler sv) c) as [ci|] eqn:E; [|lia].
    destruct (Since now (LastSeen ci) >=? CLIENT_USE_RESET_TIME); cbn.
    + destruct (string_dec ip c) as [->|Hne].
      * rewrite delete_same, bump_same. lia.
      * rewrite delete_other, bump_other by assumption. apply Hinv.
    + destruct (string_dec ip c) as [->|Hne].
      * rewrite assign_same, bump_same. cbn. unfold CLIENT_USE_THRESHOLD. lia.
      * rewrite assign_other, bump_other by assumption. apply Hinv.
Qed.

Lemma limited_run es : forall sv sv' log,
  limited sv -> run es sv = Some (sv', log) -> limited sv'.
Proof.
  induction es as [|e es IH]; intros sv sv' log Hinv Hrun; cbn [run] in Hrun.
  - now injection Hrun as <- _.
  - destruct (step e sv) as [[sv1 log1]|] eqn:E; [|discriminate].
    destruct (run es sv1) as [[sv2 log2]|] eqn:E2; [|discriminate].
    injection Hrun as <- _. eapply IH; [|exact E2]. eapply limited_step; eauto.
Qed.

Lemma quota_pass c k :
  0 <= k -> c < CLIENT_USE_THRESHOLD -> quota c (k + 1) = Passed :: quota (c + 1) k.
Proof.
  intros Hk Hc. unfold quota, CLIENT_USE_THRESHOLD in *.
  replace (Z.to_nat (Z.min (k + 1) (5 - c)))
    with (S (Z.to_nat (Z.min k (5 - (c + 1))))) by lia.
  replace (k + 1 - Z.min (k + 1) (5 - c)) with (k - Z.min k (5 - (c + 1))) by lia.
  reflexivity.
Qed.

Lemma quota_abort k :
  0 <= k -> quota CLIENT_USE_THRESHOLD (k + 1) = tooMany :: quota CLIENT_USE_THRESHOLD k.
Proof.
  intros Hk. unfold quota, CLIENT_USE_THRESHOLD.
  replace (Z.to_nat (Z.min (k + 1) (5 - 5))) with 0%nat by lia.
  replace (Z.to_nat (Z.min k (5 - 5))) with 0%nat by lia.
  replace (Z.to_nat (k + 1 - Z.min (k + 1) (5 - 5)))
    with (S (Z.to_nat (k - Z.min k (5 - 5)))) by lia.
  reflexivity.
Qed.

Lemma quota_0 c : 0 <= c <= CLIENT_USE_THRESHOLD -> quota c 0 = [].
Proof.
  intros Hc. unfold quota, CLIENT_USE_THRESHOLD in *.
  replace (Z.to_nat (Z.min 0 (5 - c))) with 0%nat by lia.
  replace (Z.to_nat (0 - Z.min 0 (5 - c))) with 0%nat by lia.
  reflexivity.
Qed.

Lemma requestsOf_nonneg ip es : 0 <= requestsOf ip es.
Proof. apply len_nonneg. Qed.

Lemma requestsOf_cons ip e es :
  requestsOf ip (e :: es)
  = (match e with
     | Request c _ => if String.eqb c ip then 1 else 0
     | Wake _ _ => 0
     end) + requestsOf ip es.
Proof.
  unfold requestsOf. cbn [filter].
  destruct e as [c now|c now]; [destruct (String.eqb c ip)|]; unfold len; cbn [length]; lia.
Qed.

Lemma wakesOf_cons ip e es :
  wakesOf ip (e :: es)
  = (match e with
     | Wake c _ => if String.eqb c ip then 1 else 0
     | Request _ _ => 0
     end) + wakesOf ip es.
Proof.
  unfold wakesOf. cbn [filter].
  destruct e as [c now|c now]; [|destruct (String.eqb c ip)]; unfold len; cbn [length]; lia.
Qed.

Lemma wakesOf_nonneg ip es : 0 <= wakesOf ip es.
Proof. apply len_nonneg. Qed.

Lemma verdictsOf_app ip l1 l2 :
  verdictsOf ip (l1 ++ l2) = verdictsOf ip l1 ++ verdictsOf ip l2.
Proof. unfold verdictsOf. now rewrite filter_app, map_app. Qed.

(** A step that is not a step of [clientIP] leaves its entry alone. *)
Lemma step_other e sv sv' log ip :
  step e sv = Some (sv', log) ->
  match e with Request c _ | Wake c _ => c <> ip end ->
  client_counter (handler sv') ip = client_counter (handler sv) ip /\
  sleeping sv' ip = sleeping sv ip /\
  verdictsOf ip log = [].
Proof.
  intros Hstep Hne. destruct e as [c now|c now]; cbn [step] in Hstep.
  - unfold Middleware in Hstep.
    assert (Hlog : verdictsOf ip log = []).
    { destruct (client_counter (handler sv) c) as [ci|];
        [destruct (Count ci >=? CLIENT_USE_THRESHOLD)|];
        injection Hstep as _ <-; unfold verdictsOf; cbn;
        apply String.eqb_neq in Hne; now rewrite Hne. }
    destruct (client_counter (handler sv) c) as [ci|] eqn:E.
    + destruct (Count ci >=? CLIENT_USE_THRESHOLD); injection Hstep as <- _; cbn.
      * auto.
      * rewrite assign_other by congruence. auto.
    + injection Hstep as <- _. cbn.
      rewrite assign_other, bump_other by congruence. auto.
  - destruct (0 <? sleeping sv c); [|discriminate].
    injection Hstep as <- <-. cbn. rewrite bump_other by congruence.
    split; [|split; reflexivity]. unfold resetClientCounter.
    destruct (client_counter (handler sv) c) as [ci|] eqn:E; [|reflexivity].
    destruct (Since now (LastSeen ci) >=? CLIENT_USE_RESET_TIME); cbn.
    + now rewrite delete_other by congruence.
    + now rewrite assign_other by congruence.
Qed.

(** A request of [clientIP]. *)
Lemma step_request sv now ip :
  0 <= countOf (handler sv) ip <= CLIENT_USE_THRESHOLD ->
  exists sv' v,
    step (Request ip now) sv = Some (sv', [(ip, v)]) /\
    (client_counter (handler sv) ip <> None -> sleeping sv' ip = sleeping sv ip) /\
    (exists ci, client_counter (handler sv') ip = Some ci) /\
    if countOf (handler sv) ip <? CLIENT_USE_THRESHOLD
    then v = Passed /\ countOf (handler sv') ip = countOf (handler sv) ip + 1
    else v = tooMany /\ countOf (handler sv') ip = countOf (handler sv) ip.
Proof.
  intros Hc. cbn [step]. unfold Middleware, countOf in *.
  destruct (client_counter (handler sv) ip) as [ci|] eqn:E.
  - destruct (Z.geb_spec (Count ci) CLIENT_USE_THRESHOLD) as [Hge|Hlt].
    + eexists _, _. split; [reflexivity|]. split; [auto|]. cbn. rewrite E.
      split; [eauto|].
      destruct (Z.ltb_spec (Count ci) CLIENT_USE_THRESHOLD); [lia|]. auto.
    + eexists _, _. split; [reflexivity|]. split; [auto|]. cbn.
      rewrite assign_same. split; [eauto|].
      destruct (Z.ltb_spec (Count ci) CLIENT_USE_THRESHOLD); [|lia].
      split; [reflexivity|]. cbn. unfold CLIENT_USE_THRESHOLD in *.
      apply wrap64_small. lia.
  - eexists _, _. split; [reflexivity|]. split; [congruence|]. cbn.
    rewrite assign_same. split; [eauto|].
    destruct (Z.ltb_spec 0 CLIENT_USE_THRESHOLD) as [|H]; [|unfold CLIENT_USE_THRESHOLD in H; lia].
    split; reflexivity.
Qed.

Lemma verdictsOf_single ip v : verdictsOf ip [(ip, v)] = [v].
Proof. unfold verdictsOf. cbn. now rewrite String.eqb_refl. Qed.

Lemma quota_run es : forall sv sv' log ip,
  run es sv = Some (sv', log) ->
  wakesOf ip es = 0 ->
  0 <= countOf (handler sv) ip <= CLIENT_USE_THRESHOLD ->
  verdictsOf ip log = quota (countOf (handler sv) ip) (requestsOf ip es) /\
  countOf (handler sv') ip
  = Z.min CLIENT_USE_THRESHOLD (countOf (handler sv) ip + requestsOf ip es) /\
  (client_counter (handler sv) ip <> None ->
   client_counter (handler sv') ip <> None /\ sleeping sv' ip = sleeping sv ip).
Proof.
  induction es as [|e es IH]; intros sv sv' log ip Hrun Hw Hc; cbn [run] in Hrun.
  - injection Hrun as <- <-. change (requestsOf ip []) with 0.
    rewrite quota_0 by exact Hc.
    split; [reflexivity|]. split; [lia | auto].
  - destruct (step e sv) as [[sv1 log1]|] eqn:E; [|discriminate].
    destruct (run es sv1) as [[sv2 log2]|] eqn:E2; [|discriminate].
    injection Hrun as <- <-.
    rewrite wakesOf_cons in Hw. pose proof (wakesOf_nonneg ip es) as Hw0.
    rewrite requestsOf_cons, verdictsOf_app.
    pose proof (requestsOf_nonneg ip es) as Hk.
    assert (Hother :
              match e with Request c _ | Wake c _ => c <> ip end ->
              (match e with
               | Request c _ => if String.eqb c ip then 1 else 0
               | Wake _ _ => 0
               end) = 0 ->
              verdictsOf ip log1 ++ verdictsOf ip log2
              = quota (countOf (handler sv) ip) (0 + requestsOf ip es) /\
              countOf (handler sv2) ip
              = Z.min CLIENT_USE_THRESHOLD (countOf (handler sv) ip + (0 + requestsOf ip es)) /\
              (client_counter (handler sv) ip <> None ->
               client_counter (handler sv2) ip <> None /\ sleeping sv2 ip = sleeping sv ip)).
    { intros Hne _. destruct (step_other _ _ _ _ ip E Hne) as (Hsame & Hsl & Hlog).
      assert (Hcnt : countOf (handler sv1) ip = countOf (handler sv) ip)
        by (unfold countOf; now rewrite Hsame).
      destruct (IH sv1 sv2 log2 ip E2 ltac:(destruct e; [|destruct (String.eqb _ _)]; lia)
                  ltac:(rewrite Hcnt; exact Hc))
        as (Hv & Hcount & Hkeep).
      rewrite Hlog, Hv. cbn [app]. rewrite !Z.add_0_l, Hcnt.
      split; [reflexivity|]. split; [rewrite Hcount, Hcnt; reflexivity|].
      intros Hsome. rewrite <- Hsame in Hsome.
      destruct (Hkeep Hsome) as [Hk1 Hk2]. split; [exact Hk1 | congruence]. }
    destruct e as [c now|c now].
    + destruct (String.eqb_spec c ip) as [->|Hne]; [|now apply Hother].
      destruct (step_request sv now ip Hc) as (sv1' & v & Hs & Hsl & Hex & Hv).
      rewrite Hs in E. injection E as <- <-.
      rewrite verdictsOf_single.
      destruct (Z.ltb_spec (countOf (handler sv) ip) CLIENT_USE_THRESHOLD) as [Hlt|Hge];
        destruct Hv as [-> Hcnt].
      * destruct (IH sv1' sv2 log2 ip E2 ltac:(lia) ltac:(rewrite Hcnt; lia))
          as (Hv & Hcount & Hkeep).
        rewrite Hv, Hcount, Hcnt.
        replace (1 + requestsOf ip es) with (requestsOf ip es + 1) by lia.
        rewrite quota_pass by lia.
        split; [reflexivity|]. split; [lia|].
        intros Hsome. destruct Hex as [ci Hci].
        destruct Hkeep as [Hk1 Hk2]; [congruence|]. split; [exact Hk1|].
        rewrite Hk2. now apply Hsl.
      * destruct (IH sv1' sv2 log2 ip E2 ltac:(lia) ltac:(rewrite Hcnt; lia))
          as (Hv & Hcount & Hkeep).
        rewrite Hv, Hcount, Hcnt.
        assert (Heq : countOf (handler sv) ip = CLIENT_USE_THRESHOLD) by lia.
        rewrite Heq.
        replace (1 + requestsOf ip es) with (requestsOf ip es + 1) by lia.
        rewrite quota_abort by lia.
        split; [reflexivity|]. split; [lia|].
        intros Hsome. destruct Hex as [ci Hci].
        destruct Hkeep as [Hk1 Hk2]; [congruence|]. split; [exact Hk1|].
        rewrite Hk2. now apply Hsl.
    + destruct (String.eqb_spec c ip) as [->|Hne]; [lia|]. now apply Hother.
Qed.

(** With its entry in the table and no goroutine asleep, a client is
    never reset. *)
Lemma settled_run es : forall sv sv' log ip,
  run es sv = Some (sv', log) ->
  client_counter (handler sv) ip <> None ->
  sleeping sv ip = 0 ->
  wakesOf ip es = 0.
Proof.
  induction es as [|e es IH]; intros sv sv' log ip Hrun Hsome Hsl; [reflexivity|].
  cbn [run] in Hrun.
  destruct (step e sv) as [[sv1 log1]|] eqn:E; [|discriminate].
  destruct (run es sv1) as [[sv2 log2]|] eqn:E2; [|discriminate].
  rewrite wakesOf_cons.
  assert (Hnext : client_counter (handler sv1) ip <> None /\ sleeping sv1 ip = 0).
  { destruct e as [c now|c now].
    - destruct (String.eqb_spec c ip) as [->|Hne].
      + cbn [step] in E. unfold Middleware in E.
        destruct (client_counter (handler sv) ip) as [ci|] eqn:Eci; [|congruence].
        destruct (Count ci >=? CLIENT_USE_THRESHOLD); injection E as <- _; cbn.
        * rewrite Eci. split; [congruence | exact Hsl].
        * rewrite assign_same. split; [congruence | exact Hsl].
      + destruct (step_other _ _ _ _ ip E Hne) as (-> & -> & _). auto.
    - destruct (String.eqb_spec c ip) as [->|Hne].
      + cbn [step] in E. rewrite Hsl in E. discriminate.
      + destruct (step_other _ _ _ _ ip E Hne) as (-> & -> & _). auto. }
  destruct Hnext as [H1 H2]. rewrite (IH sv1 sv2 log2 ip E2 H1 H2).
  destruct e as [c now|c now]; [reflexivity|].
  destruct (String.eqb_spec c ip) as [->|Hne]; [|reflexivity].
  cbn [step] in E. rewrite Hsl in E. discriminate.
Qed.

Lemma run_others es : forall sv sv' log ip,
  run es sv = Some (sv', log) ->
  Forall (fun e => clientOf e <> ip) es ->
  client_counter (handler sv') ip = client_counter (handler sv) ip /\
  sleeping sv' ip = sleeping sv ip /\
  verdictsOf ip log = [].
Proof.
  induction es as [|e es IH]; intros sv sv' log ip Hrun Hall; cbn [run] in Hrun.
  - injection Hrun as <- <-. auto.
  - destruct (step e sv) as [[sv1 log1]|] eqn:E; [|discriminate].
    destruct (run es sv1) as [[sv2 log2]|] eqn:E2; [|discriminate].
    injection Hrun as <- <-. inversion Hall as [|e' es' He Hes]; subst.
    assert (Hne : match e with Request c _ | Wake c _ => c <> ip end)
      by (destruct e; exact He).
    destruct (step_other _ _ _ _ ip E Hne) as (H1 & H2 & H3).
    destruct (IH _ _ _ ip E2 Hes) as (H4 & H5 & H6).
    rewrite verdictsOf_app, H3, H6, H4, H5, H1, H2. auto.
Qed.

Lemma run_app es1 : forall es2 sv,
  run (es1 ++ es2) sv
  = match run es1 sv with
    | Some (sv1, log1) =>
        match run es2 sv1 with
        | Some (sv2, log2) => Some (sv2, log1 ++ log2)
        | None => None
        end
    | None => None
    end.
Proof.
  induction es1 as [|e es1 IH]; intros es2 sv; cbn [run app].
  - destruct (run es2 sv) as [[sv2 log2]|]; reflexivity.
  - destruct (step e sv) as [[sv1 log1]|]; [|reflexivity].
    rewrite IH. destruct (run es1 sv1) as [[sv1' log1']|]; [|reflexivity].
    destruct (run es2 sv1') as [[sv2 log2]|]; [|reflexivity].
    now rewrite app_assoc.
Qed.

(** ** [parseGPX] *)

Section ParseLemmas.
Context {text : TextPkg}.

Lemma parses_readsAs pt : parses pt = true <-> exists p, readsAs pt p.
Proof.
  unfold parses, readsAs. split.
  - destruct (ParseFloat (GPXParse.Lat pt)) as [lat|]; [|discriminate].
    destruct (ParseFloat (GPXParse.Lon pt)) as [lon|]; [|discriminate].
    destruct (ParseFloat (GPXParse.Ele pt)) as [ele|]; [|discriminate].
    intros _. exists (mkTrkpt lat lon ele). auto.
  - intros (p & -> & -> & ->). reflexivity.
Qed.

Lemma parsePoint_valid points pt p :
  readsAs pt p -> Parse.parsePoint points pt = points ++ [p].
Proof.
  intros (H1 & H2 & H3). unfold Parse.parsePoint. rewrite H1, H2, H3.
  now destruct p.
Qed.

Lemma parsePoint_invalid points pt :
  parses pt = false -> Parse.parsePoint points pt = points.
Proof.
  unfold parses, Parse.parsePoint.
  destruct (ParseFloat (GPXParse.Lat pt)); [|reflexivity].
  destruct (ParseFloat (GPXParse.Lon pt)); [|reflexivity].
  destruct (ParseFloat (GPXParse.Ele pt)); [discriminate|reflexivity].
Qed.

(** The points the loop has collected: those of the entries that parse,
    in their order. *)
Lemma fold_parsePoint rtepts : forall points,
  exists kept,
    fold_left Parse.parsePoint rtepts points = points ++ kept /\
    Forall2 readsAs (filter parses rtepts) kept.
Proof.
  induction rtepts as [|pt rtepts IH]; intros points; cbn [fold_left filter].
  - exists []. split; [now rewrite app_nil_r | constructor].
  - destruct (parses pt) eqn:E.
    + apply parses_readsAs in E as [p Hp].
      rewrite (parsePoint_valid _ _ _ Hp).
      destruct (IH (points ++ [p])) as (kept & -> & Hk).
      exists (p :: kept). split; [now rewrite <- app_assoc | now constructor].
    + rewrite (parsePoint_invalid _ _ E). apply IH.
Qed.

End ParseLemmas.

(** ** The front end *)

Section PopupLemmas.
Context {Date : Type} (newDate : string -> Date).

Lemma nth_error_map_index_from {A B} (f : A -> nat -> B) arr : forall index i,
  nth_error (Popup.map_index_from f index arr) i
  = option_map (fun v => f v (index + i)%nat) (nth_error arr i).
Proof.
  induction arr as [|v arr IH]; intros index [|i]; cbn; try reflexivity.
  - now rewrite Nat.add_0_r.
  - rewrite IH. now rewrite Nat.add_succ_r.
Qed.

Lemma length_map_index_from {A B} (f : A -> nat -> B) arr : forall index,
  length (Popup.map_index_from f index arr) = length arr.
Proof. induction arr as [|v arr IH]; intros index; cbn; [reflexivity | now rewrite IH]. Qed.

Lemma minLength_bounds timestamps bpmProfile paceProfile :
  let n := Popup.minLength timestamps bpmProfile paceProfile in
  0 <= n /\ n <= len timestamps /\ n <= len bpmProfile /\ n <= len paceProfile.
Proof.
  cbv zeta. unfold Popup.minLength.
  pose proof (len_nonneg timestamps). pose proof (len_nonneg bpmProfile).
  pose proof (len_nonneg paceProfile). lia.
Qed.

Lemma dataPoints_spec timestamps bpmProfile paceProfile series :
  Popup.minLength timestamps bpmProfile paceProfile <= len series ->
  let n := Popup.minLength timestamps bpmProfile paceProfile in
  len (Popup.dataPoints newDate timestamps bpmProfile paceProfile series) = n /\
  forall i, 0 <= i < n ->
    exists timestamp v,
      elem timestamps i timestamp /\ elem series i v /\
      elem (Popup.dataPoints newDate timestamps bpmProfile paceProfile series) i
        (Popup.mkDataPoint (newDate timestamp) (Some v)).
Proof.
  intros Hs. cbv zeta.
  pose proof (minLength_bounds timestamps bpmProfile paceProfile) as (H0 & Ht & _).
  cbv zeta in H0, Ht.
  set (n := Popup.minLength timestamps bpmProfile paceProfile) in *.
  unfold Popup.dataPoints. fold n. cbv zeta. unfold Popup.map_index, Popup.slice.
  split.
  - unfold len in *. rewrite length_map_index_from, length_firstn. lia.
  - intros i Hi.
    destruct (elem_exists timestamps i ltac:(lia)) as [timestamp Hts].
    destruct (elem_exists series i ltac:(lia)) as [v Hv].
    exists timestamp, v. split; [exact Hts|]. split; [exact Hv|].
    split; [lia|].
    rewrite nth_error_map_index_from. cbn [Nat.add].
    assert (Hlt : (Z.to_nat i < Z.to_nat n)%nat) by lia.
    rewrite !nth_error_firstn.
    apply Nat.ltb_lt in Hlt. rewrite Hlt.
    destruct Hts as [_ ->], Hv as [_ ->]. reflexivity.
Qed.

End PopupLemmas.

Lemma indexAfter_mod length k :
  1 <= length ->
  ShiftingTitle.indexAfter length k = Some (Z.of_nat k mod length).
Proof.
  intros Hn. induction k as [|k IH].
  - cbn [ShiftingTitle.indexAfter]. change (Z.of_nat 0) with 0.
    now rewrite Z.mod_0_l by lia.
  - cbn [ShiftingTitle.indexAfter]. rewrite IH. unfold ShiftingTitle.nextIndex.
    destruct (Z.eqb_spec length 0); [lia|]. f_equal.
    pose proof (Z.mod_pos_bound (Z.of_nat k) length ltac:(lia)).
    rewrite Z.rem_mod_nonneg by lia.
    rewrite Nat2Z.inj_succ, <- Z.add_1_r.
    rewrite Z.add_mod_idemp_l by lia. reflexivity.
Qed.

(** ** Segment durations from distances *)

Lemma leb_zero_gezero x : (0 <=? x)%float = true -> gezero x.
Proof.
  rewrite leb_spec. change (Prim2SF 0) with (S754_zero false).
  unfold gezero, SFleb, SFcompare.
  destruct (Prim2SF x) as [s|s| |s m e]; cbn [sf_gezero]; try discriminate; auto;
    destruct s; try discriminate; auto.
Qed.

Lemma floor_cases v :
  (AvgSpeed * 0.90 <=? v)%float = true ->
  Prim2SF v = S754_infinity false \/ (gtzero v /\ proper v /\ atleast 1 v).
Proof.
  rewrite leb_spec. intros Hle.
  pose proof (Prim2SF_valid v) as Hv.
  unfold gtzero, proper, atleast.
  let c := eval vm_compute in (Prim2SF (AvgSpeed * 0.90)) in
    change (Prim2SF (AvgSpeed * 0.90)) with c in Hle.
  destruct (Prim2SF v) as [s|s| |s m e].
  - destruct s; vm_compute in Hle; discriminate.
  - destruct s; [vm_compute in Hle; discriminate|]. now left.
  - vm_compute in Hle; discriminate.
  - destruct s; [cbn in Hle; discriminate|]. right.
    apply SFleb_finite in Hle.
    apply valid_finite in Hv as [Hcan _].
    cbn [sf_gtzero sf_proper sf_atleast]. repeat split. lia.
Qed.

Lemma div_infinity x y :
  finite x -> Prim2SF y = S754_infinity false -> int_of_float64 (x / y) = 0.
Proof.
  unfold finite, int_of_float64. intros Hx Hy. rewrite div_spec, Hy.
  destruct (Prim2SF x) as [s|s| |s m e]; cbn [sf_finite] in Hx; try contradiction;
    reflexivity.
Qed.

Lemma SFdiv_gezero x y :
  sf_gezero x -> sf_finite x -> sf_gtzero y -> sf_proper y ->
  sf_gezero (SFdiv prec emax x y).
Proof.
  destruct x as [sx|sx| |sx mx ex], y as [sy|sy| |sy my ey];
    cbn [sf_gezero sf_finite sf_gtzero sf_proper SFdiv]; intros Gx Fx Gy Hy;
    try contradiction; try exact I.
  destruct sx, sy; try contradiction. cbn [xorb].
  destruct (SFdiv_core_spec mx ex my ey) as (l & ->).
  pose proof (binary_round_aux_sign false
                (Zpos mx * 2 ^ (ex - ey - Z.min (fexp prec emax (Zdigits2 (Zpos mx) + ex
                                                      - (Zdigits2 (Zpos my) + ey)))
                                     (ex - ey)) / Zpos my)
                (Z.min (fexp prec emax (Zdigits2 (Zpos mx) + ex - (Zdigits2 (Zpos my) + ey)))
                   (ex - ey)) l) as Hs.
  pose proof (binary_round_aux_number false
                (Zpos mx * 2 ^ (ex - ey - Z.min (fexp prec emax (Zdigits2 (Zpos mx) + ex
                                                      - (Zdigits2 (Zpos my) + ey)))
                                     (ex - ey)) / Zpos my)
                (Z.min (fexp prec emax (Zdigits2 (Zpos mx) + ex - (Zdigits2 (Zpos my) + ey)))
                   (ex - ey)) l) as Hn.
  destruct (binary_round_aux _ _ _ _ _ _); cbn [sf_gezero] in *; subst; try exact I.
  apply Hn. apply Z.div_pos; [|lia].
  apply Z.mul_nonneg_nonneg; [lia|]. apply Z.pow_nonneg. lia.
Qed.

Lemma div_gezero x y :
  gezero x -> finite x -> gtzero y -> proper y -> gezero (x / y)%float.
Proof.
  unfold gezero, finite, gtzero, proper. rewrite div_spec. apply SFdiv_gezero.
Qed.

Lemma int_of_float64_gezero k x :
  gezero x -> below k x -> 0 <= k <= 63 -> 0 <= int_of_float64 x < 2 ^ k.
Proof.
  intros Hg Hb Hk.
  pose proof (int_of_float64_below k x Hb Hk) as Hlt.
  split; [|lia]. clear Hlt.
  unfold gezero, below, int_of_float64 in *.
  destruct (Prim2SF x) as [s|s| |s m e]; cbn [sf_gezero sf_below] in *;
    try contradiction; [lia|].
  destruct s; [contradiction|]. cbv zeta.
  assert (Hk63 : 2 ^ k <= 2 ^ 63) by (apply Z.pow_le_mono_r; lia).
  destruct (shiftl_bounds (Zpos m) e (Zpos (digits2_pos m)) ltac:(lia)
              (pos_digits_bounds m) ltac:(lia)) as (_ & Hhi & H0 & Hz).
  assert (Hmag : Z.shiftl (Zpos m) e < 2 ^ k).
  { destruct (Z.le_gt_cases 0 (Zpos (digits2_pos m) + e)) as [H|H].
    - specialize (Hhi H).
      assert (2 ^ (Zpos (digits2_pos m) + e) <= 2 ^ k) by (apply Z.pow_le_mono_r; lia).
      lia.
    - rewrite Hz by lia. apply Z.pow_pos_nonneg; lia. }
  destruct (Z.leb_spec (- 2 ^ 63) (Z.shiftl (Zpos m) e)); [|lia].
  destruct (Z.ltb_spec (Z.shiftl (Zpos m) e) (2 ^ 63)); [|lia].
  exact H0.
Qed.

Section Durations.
Context {math : MathPkg} {rand : RandPkg}.

(** The handler's duration of a segment whose length is a distance, at a
    speed that is NaN or at the floor of the speed profile or above. *)
Lemma segmentDuration_range distance speed :
  (0 <=? distance)%float = true -> below 60 distance ->
  is_nan speed = true \/ (AvgSpeed * 0.90 <=? speed)%float = true ->
  0 <= segmentDuration distance speed < 2 ^ 61.
Proof.
  intros H0 Hb Hs. unfold segmentDuration.
  destruct (0 <? speed)%float eqn:E; [|lia].
  destruct Hs as [Hnan|Hfl].
  { apply ltb_number in E as [_ Hn]. apply number_is_nan in Hn. congruence. }
  pose proof (leb_zero_gezero _ H0) as Hg.
  pose proof (below_finite _ _ Hb) as Hf.
  destruct (floor_cases _ Hfl) as [Hinf|(Hgt & Hp & Ha)].
  - rewrite (div_infinity _ _ Hf Hinf). lia.
  - apply int_of_float64_gezero; [now apply div_gezero| |lia].
    apply (div_below 60 1); auto. lia.
Qed.

(** A sample of the speed profile is NaN, or at the floor or above,
    whatever the normal variates are. *)
Lemma speedProfile_nan_or_floor h s sp s1 :
  createSpeedProfile h AvgSpeed 0.2 s = Done (sp, s1) ->
  forall v, In v sp ->
    is_nan v = true \/ (AvgSpeed * 0.90 <=? v)%float = true.
Proof.
  intros Hrun v Hv.
  pose proof (wlp_Done _ _ _ _ _
                (createSpeedProfile_spec True h AvgSpeed 0.2 s (or_introl I)) Hrun)
    as (H1 & Hlen & Hval).
  destruct (In_elem _ _ Hv) as (i & Hi).
  pose proof (elem_lt _ _ _ Hi) as Hlt. rewrite Hlen in Hlt.
  destruct (Hval i Hlt) as (f & Hf & _).
  rewrite (elem_fun _ _ _ _ Hi Hf).
  unfold speedValue. cbv zeta.
  destruct (_ <? _)%float eqn:E.
  - right. apply leb_refl. fconst.
  - match goal with |- is_nan ?x = true \/ _ => destruct (is_nan x) eqn:N end;
      [now left | right].
    apply ltb_false_leb; [now apply number_is_nan | fconst | exact E].
Qed.

Lemma distances_durations points h s sp s1 :
  createSpeedProfile h AvgSpeed 0.2 s = Done (sp, s1) ->
  h <= 2 ^ 62 ->
  distancesInRange points ->
  durationsInRange points sp (h - 2).
Proof.
  intros Hrun Hh Hd. unfold durationsInRange, distancesInRange in *.
  rewrite Forall_forall in *. intros pq Hpq.
  destruct (Hd pq Hpq) as [H0 Hb]. cbv zeta in H0, Hb.
  rewrite Forall_forall. intros speed Hsp. cbv zeta.
  pose proof (segmentDuration_range _ speed H0 Hb
                (speedProfile_nan_or_floor _ _ _ _ Hrun speed Hsp)) as Hr.
  assert (2 ^ 62 + 2 ^ 61 <= 2 ^ 63) by lia.
  lia.
Qed.

End Durations.

(** * Part III: the claims *)

Section Claims.
Context {math : MathPkg} {rand : RandPkg} {up : Upstream}.

(** Once the route is there and not empty, the handler is [synthesize]. *)
Lemma handler_served requestBody points now :
  served requestBody points -> len points <> 0 ->
  HandleGenerateFileSingleMarker (Value requestBody) now
  = synthesize (RouteLength requestBody) points now.
Proof.
  intros (gpx & Hfetch & Hparse) Hne.
  unfold HandleGenerateFileSingleMarker. cbv zeta.
  unfold routeTypeOf in Hfetch. rewrite Hfetch, Hparse.
  destruct (Z.eqb_spec (len points) 0); [contradiction | reflexivity].
Qed.

(** A [ResultJSON] body only comes out of [synthesize]. *)
Lemma handler_result bound now s resp s' r :
  HandleGenerateFileSingleMarker bound now s = Done (resp, s') ->
  body resp = ResultJSON r ->
  exists requestBody points,
    bound = Value requestBody /\ served requestBody points /\ len points <> 0 /\
    synthesize (RouteLength requestBody) points now s = Done (resp, s').
Proof.
  unfold HandleGenerateFileSingleMarker. cbv zeta.
  destruct bound as [requestBody|e].
  2:{ intros H Hb. injection H as <- _. discriminate. }
  destruct (fetchRoundTripRoute _ _ _ _ _) as [gpx|e] eqn:Hfetch.
  2:{ intros H Hb. injection H as <- _. discriminate. }
  destruct (parseGPX gpx) as [points|e] eqn:Hparse.
  2:{ intros H Hb. injection H as <- _. discriminate. }
  destruct (Z.eqb_spec (len points) 0) as [H0|Hne].
  { intros H Hb. injection H as <- _. discriminate. }
  intros H _. exists requestBody, points. repeat split; auto.
  exists gpx. split; auto.
Qed.

(** C1. Every response that carries a record comes from a request whose
    route has at least one point and whose horizon is at least 3, and in
    that record the timestamps, the heart rates, the paces and the route
    all have the length of the interpolated trajectory. *)
Theorem C1_record_lengths bound now s resp s' r :
  HandleGenerateFileSingleMarker bound now s = Done (resp, s') ->
  body resp = ResultJSON r ->
  exists requestBody points tr,
    bound = Value requestBody /\ served requestBody points /\
    len points <> 0 /\ 3 <= horizonOf (RouteLength requestBody) /\
    traced (RouteLength requestBody) points now s tr resp s' /\
    len (Timestamps r) = len (t_interpolatedPoints tr) /\
    len (BPMProfile r) = len (t_interpolatedPoints tr) /\
    len (PaceProfile r) = len (t_interpolatedPoints tr) /\
    len (Route r) = len (t_interpolatedPoints tr).
Proof.
  intros Hrun Hbody.
  destruct (handler_result _ _ _ _ _ _ Hrun Hbody)
    as (requestBody & points & -> & Hserved & Hne & Hsyn).
  destruct (traced_complete _ _ _ _ _ _ Hsyn) as (tr & Htr).
  exists requestBody, points, tr.
  pose proof (traced_lengths _ _ _ _ _ _ _ Htr) as (_ & _ & _ & Hb & _ & Hp).
  pose proof Htr as Htr'. unfold traced in Htr'. cbv zeta in Htr'.
  destruct Htr' as (H3 & _ & _ & _ & _ & _ & _ & _ & Hresp).
  rewrite Hresp in Hbody. cbn [body] in Hbody. injection Hbody as <-.
  cbn [Timestamps BPMProfile PaceProfile Route].
  rewrite len_timestampsOf by apply len_nonneg. rewrite !len_map.
  repeat (split; [first [reflexivity | assumption]|]). reflexivity.
Qed.

(** C3, as the code has it. In every run of [synthesize] that returns, the
    speed profile has the length of the horizon, and the heart-rate and
    cadence profiles are both two samples shorter: the handler subtracts
    2 from the horizon before it generates them. *)
Theorem C3_profile_lengths routeLength points now s resp s' :
  synthesize routeLength points now s = Done (resp, s') ->
  exists tr,
    traced routeLength points now s tr resp s' /\
    len (t_speedProfile tr) = horizonOf routeLength /\
    len (t_bpmProfileFloat tr) = horizonOf routeLength - 2 /\
    len (t_cadenceProfile tr) = horizonOf routeLength - 2.
Proof.
  intros H. destruct (traced_complete _ _ _ _ _ _ H) as (tr & Htr).
  exists tr. split; [exact Htr|].
  pose proof (traced_lengths _ _ _ _ _ _ _ Htr). tauto.
Qed.

(** C9. For every waypoint sequence and every horizon, the handler's
    elevation block returns the series of the specification: the
    per-second deltas of the segments, concatenated, then padded with
    zeros or truncated; its length is the horizon. *)
Theorem C9_elevation_series points horizon s :
  0 <= horizon ->
  extractElevationChanges points horizon s
  = Done (specElevationSeries points horizon, s) /\
  len (specElevationSeries points horizon) = horizon.
Proof.
  intros H. split.
  - now apply extractElevationChanges_eq.
  - now apply len_specElevationSeries.
Qed.

Lemma len_0_nil {A} (l : list A) : len l = 0 -> l = [].
Proof. destruct l; [reflexivity | unfold len; simpl; lia]. Qed.

(** C10. A route of exactly one point, with a horizon of at least 3, is
    answered with status 200 and a record whose four sequences are
    empty: of the two policies the specification allows, the code
    follows the second. *)
Theorem C10_single_waypoint requestBody p now s :
  served requestBody [p] ->
  3 <= horizonOf (RouteLength requestBody) ->
  exists s',
    HandleGenerateFileSingleMarker (Value requestBody) now s
    = Done (mkResponse 200 (ResultJSON (mkResult [] [] [] [])), s').
Proof.
  intros Hserved H3.
  rewrite (handler_served _ _ _ Hserved) by discriminate.
  destruct (wp_Done _ _ _
              (synthesize_traced False (RouteLength requestBody) [p] now s
                 (or_intror (conj H3 (fun _ _ _ => Forall_nil _)))))
    as (resp & s' & Hrun & tr & Htr).
  exists s'. rewrite Hrun. do 2 f_equal.
  pose proof (traced_lengths _ _ _ _ _ _ _ Htr) as (_ & _ & _ & Hb & _ & Hp).
  unfold traced in Htr. cbv zeta in Htr.
  destruct Htr as (_ & _ & _ & _ & Hroute & _ & _ & _ & ->).
  assert (Hnil : t_interpolatedPoints tr = []).
  { assert (Hone : forall sp total s0,
              interpolateRoute [p] sp total s0 = Done ([], s0)) by reflexivity.
    rewrite Hone in Hroute. congruence. }
  rewrite Hnil in *. cbn in Hb, Hp.
  rewrite (len_0_nil _ Hb), (len_0_nil _ Hp). reflexivity.
Qed.

Lemma rangePanic_nonpositive total :
  total <= 0 ->
  rangePanic (if total <? 0 then MakeLenOutOfRange total else IndexOutOfRange 0 0).
Proof.
  intros H. destruct (Z.ltb_spec total 0); [right; eauto | now left].
Qed.

Lemma createBPMProfile_nonpositive total avgBPM avgSpeed sp ec s :
  total <= 0 ->
  createBPMProfile total avgBPM avgSpeed sp ec s
  = Panicked (if total <? 0 then MakeLenOutOfRange total else IndexOutOfRange 0 0).
Proof.
  intros H. unfold createBPMProfile, bind, lift, make.
  destruct (Z.ltb_spec total 0); [reflexivity|].
  assert (total = 0) as -> by lia. reflexivity.
Qed.

Lemma createCadenceProfile_nonpositive total avgCadence avgSpeed sp ec s :
  total <= 0 ->
  createCadenceProfile total avgCadence avgSpeed sp ec s
  = Panicked (if total <? 0 then MakeLenOutOfRange total else IndexOutOfRange 0 0).
Proof.
  intros H. unfold createCadenceProfile, bind, lift, make.
  destruct (Z.ltb_spec total 0); [reflexivity|].
  assert (total = 0) as -> by lia.
  unfold intn. now destruct (Intn 3 s).
Qed.

Lemma createSpeedProfile_nonpositive total avgSpeed speedDecrease s :
  total <= 0 ->
  createSpeedProfile total avgSpeed speedDecrease s
  = Panicked (if total <? 0 then MakeLenOutOfRange total else IndexOutOfRange 0 0).
Proof.
  intros H. unfold createSpeedProfile, bind, lift, make.
  destruct (Z.ltb_spec total 0); [reflexivity|].
  assert (total = 0) as -> by lia. reflexivity.
Qed.

Lemma synthesize_short_horizon routeLength points now s :
  horizonOf routeLength < 3 ->
  exists p, synthesize routeLength points now s = Panicked p /\ rangePanic p.
Proof.
  intros Hh. unfold synthesize. cbv zeta.
  set (h := horizonOf routeLength) in *.
  destruct (Z.le_gt_cases h 0) as [H0|H1].
  - eexists. split.
    + apply bind_Panicked. now apply createSpeedProfile_nonpositive.
    + now apply rangePanic_nonpositive.
  - assert (Hh1 : False \/ 1 <= h) by (right; lia).
    destruct (wp_Done _ _ _ (createSpeedProfile_spec False h AvgSpeed 0.2 s Hh1))
      as (sp & s1 & Hsp & _).
    eexists. split.
    + erewrite bind_Done by exact Hsp.
      erewrite bind_Done by (apply extractElevationChanges_eq; lia).
      apply bind_Panicked. apply createBPMProfile_nonpositive. lia.
    + apply rangePanic_nonpositive. lia.
Qed.

(** C7, as the code has it. The heart-rate and cadence generators panic
    on a non-positive length; a handler that holds a non-empty route
    panics when the horizon is below 3; from 3 on the three generators
    return; and when moreover the horizon is at most [2 ^ 62] and the
    distance between any two consecutive waypoints is a number from 0 to
    below [2 ^ 60], the whole handler returns, with status 200: no index
    leaves its slice, in the generators or in the segment loop. Nothing is
    assumed of the normal variates: a speed sample is NaN, or at the floor
    or above, and either way the duration of a segment is not negative. *)
Theorem C7_positive_length requestBody points now s :
  served requestBody points -> len points <> 0 ->
  let h := horizonOf (RouteLength requestBody) in
  (forall total avg avgSpeed sp ec s0, total <= 0 ->
     (exists p, createBPMProfile total avg avgSpeed sp ec s0 = Panicked p /\ rangePanic p) /\
     (exists p, createCadenceProfile total avg avgSpeed sp ec s0 = Panicked p /\
                rangePanic p)) /\
  (h < 3 ->
     exists p, HandleGenerateFileSingleMarker (Value requestBody) now s = Panicked p /\
               rangePanic p) /\
  (3 <= h ->
     exists sp s1 bpm s2 cadence s3,
       createSpeedProfile h AvgSpeed 0.2 s = Done (sp, s1) /\
       createBPMProfile (h - 2) AvgBPM AvgSpeed sp (specElevationSeries points h) s1
       = Done (bpm, s2) /\
       createCadenceProfile (h - 2) AvgCadence AvgSpeed sp (specElevationSeries points h) s2
       = Done (cadence, s3)) /\
  (3 <= h <= 2 ^ 62 -> distancesInRange points ->
     exists resp s',
       HandleGenerateFileSingleMarker (Value requestBody) now s = Done (resp, s') /\
       status resp = 200).
Proof.
  intros Hserved Hne h. split; [|split; [|split]].
  - intros total avg avgSpeed sp ec s0 Ht. split; eexists; split.
    + now apply createBPMProfile_nonpositive.
    + now apply rangePanic_nonpositive.
    + now apply createCadenceProfile_nonpositive.
    + now apply rangePanic_nonpositive.
  - intros Hh. rewrite (handler_served _ _ _ Hserved Hne).
    now apply synthesize_short_horizon.
  - intros H3.
    assert (Hh1 : False \/ 1 <= h) by (right; lia).
    destruct (wp_Done _ _ _ (createSpeedProfile_spec False h AvgSpeed 0.2 s Hh1))
      as (sp & s1 & Hsp & _ & Hlen & _).
    assert (Hh2 : False \/ (1 <= h - 2 /\ h - 2 <= len sp)) by (right; lia).
    destruct (wp_Done _ _ _
                (createBPMProfile_spec False (h - 2) AvgBPM AvgSpeed sp
                   (specElevationSeries points h) s1 Hh2))
      as (bpm & s2 & Hbpm & _).
    destruct (wp_Done _ _ _
                (createCadenceProfile_spec False (h - 2) AvgCadence AvgSpeed sp
                   (specElevationSeries points h) s2 Hh2))
      as (cad & s3 & Hcad & _).
    exists sp, s1, bpm, s2, cad, s3. auto.
  - intros [H3 H62] Hdist. rewrite (handler_served _ _ _ Hserved Hne).
    assert (Hdur : forall sp s1,
               createSpeedProfile (horizonOf (RouteLength requestBody)) AvgSpeed 0.2 s
               = Done (sp, s1) ->
               durationsInRange points sp (horizonOf (RouteLength requestBody) - 2)).
    { intros sp s1 Hsp. now apply (distances_durations points _ s sp s1). }
    destruct (wp_Done _ _ _
                (synthesize_traced False (RouteLength requestBody) points now s
                   (or_intror (conj H3 Hdur))))
      as (resp & s' & Hrun & tr & Htr).
    exists resp, s'. split; [exact Hrun|].
    unfold traced in Htr. cbv zeta in Htr.
    destruct Htr as (_ & _ & _ & _ & _ & _ & _ & _ & ->). reflexivity.
Qed.



(** C4: for every horizon length of at least 1 and every target average
    speed (a finite [float64]), whatever the normal variates drawn (as long
    as none is NaN), [createSpeedProfile] returns a profile of the length
    of the horizon in which every value is at least 0.9 times the target
    average speed. The decline rate is any finite value below [2 ^ 900] in
    magnitude; the handler passes 0.2. *)
Theorem C4_speed_floor totalSeconds avgSpeed speedDecrease s :
  1 <= totalSeconds < 2 ^ 63 ->
  is_finite avgSpeed = true ->
  below 900 speedDecrease ->
  (forall s0, is_nan (fst (NormFloat64 s0)) = false) ->
  exists speedProfile s',
    createSpeedProfile totalSeconds avgSpeed speedDecrease s = Done (speedProfile, s') /\
    len speedProfile = totalSeconds /\
    Forall (fun v => (avgSpeed * 0.90 <=? v)%float = true) speedProfile.
Proof.
  intros Ht Hfin Hsd Hnoise.
  assert (Hone : False \/ 1 <= totalSeconds) by (right; lia).
  destruct (wp_Done _ _ _
              (createSpeedProfile_spec False totalSeconds avgSpeed speedDecrease s Hone))
    as (sp & s' & Hrun & _ & Hlen & Hval).
  exists sp, s'. split; [exact Hrun|]. split; [exact Hlen|].
  apply is_finite_finite in Hfin.
  assert (Havg : number avgSpeed) by now apply finite_number.
  apply Forall_forall. intros v Hv.
  apply In_elem in Hv as [i Hi].
  pose proof (elem_lt _ _ _ Hi) as Hrange. rewrite Hlen in Hrange.
  destruct (Hval i Hrange) as (f & Hf & H0 & H1).
  rewrite (elem_fun _ _ _ _ Hi Hf).
  assert (Hnum : number f).
  { apply (fluctuation_number avgSpeed i f); auto; [|lia].
    intros s0. now apply number_is_nan. }
  apply speedValue_floor.
  - apply mul_number_r; [exact Havg | fconst].
  - apply sub_number_r.
    + now apply add_number_l.
    + eapply below_finite. apply linearDecline_below; [exact Hsd|lia|lia].
Qed.


End Claims.

(** * Part IV: closed instances *)

Ltac zdecide := vm_compute; first [reflexivity | intro; discriminate].

Lemma served_fixedRoute requestBody points :
  @served (fixedRoute points) requestBody points.
Proof. eexists. split; reflexivity. Qed.

(** Distances are in range on a concrete route. *)
Ltac distances :=
  unfold distancesInRange;
  repeat (apply Forall_cons || apply Forall_nil);
  split; vm_compute; first [reflexivity | intro; discriminate].

Lemma C1_record_lengths_witness :
  exists resp s' r,
    @HandleGenerateFileSingleMarker refMath lcgRand
      (fixedRoute [Example.origin; Example.east1m; Example.east11m])
      (Value (Example.request 20)) Example.clock Example.seed = Done (resp, s') /\
    body resp = ResultJSON r /\
    len (Timestamps r) = 6 /\ len (BPMProfile r) = 6 /\
    len (PaceProfile r) = 6 /\ len (Route r) = 6.
Proof.
  assert (H : exists resp s',
             @HandleGenerateFileSingleMarker refMath lcgRand
               (fixedRoute [Example.origin; Example.east1m; Example.east11m])
               (Value (Example.request 20)) Example.clock Example.seed = Done (resp, s') /\
             exists r, body resp = ResultJSON r /\ len (Route r) = 6).
  { vm_compute. eexists. eexists. split; [reflexivity|].
    eexists. split; reflexivity. }
  destruct H as (resp & s' & H1 & r & H2 & H3).
  exists resp, s', r. split; [exact H1|]. split; [exact H2|].
  destruct (@C1_record_lengths refMath lcgRand _ _ _ _ _ _ _ H1 H2)
    as (rb & pts & tr & _ & _ & _ & _ & _ & Ht & Hb & Hp & Hr).
  rewrite Ht, Hb, Hp, <- Hr. auto.
Defined.

(** C2, evaluated: with a horizon of 3 and a trajectory of 6 samples, the
    paces at the indices 3, 4 and 5 are 0, neither derived from a speed
    nor the sentinel 999. *)
Lemma C2_pace_left_underived :
  exists resp s' r speedProfile s1,
    @HandleGenerateFileSingleMarker refMath lcgRand
      (fixedRoute [Example.origin; Example.east11m])
      (Value (Example.request 5)) Example.clock Example.seed = Done (resp, s') /\
    body resp = ResultJSON r /\
    horizonOf (RouteLength (Example.request 5)) = 3 /\
    @createSpeedProfile lcgRand 3 AvgSpeed 0.2 Example.seed = Done (speedProfile, s1) /\
    len (Route r) = 6 /\
    PaceProfile r = (map paceOf speedProfile ++ [0; 0; 0])%float.
Proof.
  vm_compute. do 5 eexists.
  repeat (split; [reflexivity|]). reflexivity.
Qed.

(** C3, refuted as stated: a run whose speed profile has 3 samples and
    whose heart-rate and cadence profiles have 1. *)
Lemma C3_counterexample :
  exists tr resp s',
    @traced refMath lcgRand 5 [Example.origin; Example.east1m] Example.clock
      Example.seed tr resp s' /\
    horizonOf 5 = 3 /\
    len (t_speedProfile tr) = 3 /\
    len (t_bpmProfileFloat tr) = 1 /\
    len (t_cadenceProfile tr) = 1.
Proof.
  assert (H : exists resp s',
             @synthesize refMath lcgRand 5 [Example.origin; Example.east1m]
               Example.clock Example.seed = Done (resp, s')).
  { vm_compute. eexists. eexists. reflexivity. }
  destruct H as (resp & s' & H).
  destruct (traced_complete _ _ _ _ _ _ H) as (tr & Htr).
  exists tr, resp, s'. split; [exact Htr|].
  pose proof (traced_lengths _ _ _ _ _ _ _ Htr) as (H1 & H2 & H3 & _).
  assert (Hh : horizonOf 5 = 3) by (vm_compute; reflexivity).
  rewrite Hh in *. auto.
Qed.

Lemma C3_profile_lengths_witness :
  exists resp s' tr,
    @synthesize refMath lcgRand 20
      [Example.origin; Example.east1m; Example.east11m]
      Example.clock Example.seed = Done (resp, s') /\
    len (t_speedProfile tr) = 16 /\
    len (t_bpmProfileFloat tr) = 14 /\
    len (t_cadenceProfile tr) = 14.
Proof.
  assert (H : exists resp s',
             @synthesize refMath lcgRand 20
               [Example.origin; Example.east1m; Example.east11m]
               Example.clock Example.seed = Done (resp, s')).
  { vm_compute. eexists. eexists. reflexivity. }
  destruct H as (resp & s' & H).
  destruct (@C3_profile_lengths refMath lcgRand _ _ _ _ _ _ H)
    as (tr & _ & H1 & H2 & H3).
  exists resp, s', tr. split; [exact H|].
  assert (Hh : horizonOf 20 = 16) by (vm_compute; reflexivity).
  rewrite Hh in *. auto.
Defined.

(** C6, evaluated: the speed profile of a request for 20 m starts at
    1.8 m/s; for a first segment of about 1.11 m at that speed the
    interpolator emits one sample (its duration is raised from 0 to 1)
    while the handler advances the elapsed time by 0. *)
Lemma C6_elapsed_time_stalls :
  let distance :=
    @haversineDistance refMath (Lat Example.origin) (Lon Example.origin)
      (Lat Example.east1m) (Lon Example.east1m) in
  (exists speedProfile s1,
     @createSpeedProfile lcgRand (horizonOf 20) AvgSpeed 0.2 Example.seed
     = Done (speedProfile, s1) /\
     nth_error speedProfile 0 = Some 1.8%float) /\
  int_of_float64 (distance / 1.8)%float = 0 /\
  numSecondsOf distance 1.8 = 1 /\
  segmentDuration distance 1.8 = 0.
Proof.
  vm_compute. split; [|auto]. eexists. eexists. split; reflexivity.
Qed.

Lemma C7_positive_length_witness :
  (exists p,
     @HandleGenerateFileSingleMarker refMath lcgRand
       (fixedRoute [Example.origin; Example.east11m])
       (Value (Example.request 4)) Example.clock Example.seed = Panicked p /\
     rangePanic p) /\
  (exists resp s',
     @HandleGenerateFileSingleMarker refMath lcgRand
       (fixedRoute [Example.origin; Example.east1m; Example.east11m])
       (Value (Example.request 20)) Example.clock Example.seed = Done (resp, s') /\
     status resp = 200).
Proof.
  split.
  - apply (@C7_positive_length refMath lcgRand
             (fixedRoute [Example.origin; Example.east11m])
             (Example.request 4) [Example.origin; Example.east11m]
             Example.clock Example.seed
             (served_fixedRoute _ _)); zdecide.
  - apply (@C7_positive_length refMath lcgRand
             (fixedRoute [Example.origin; Example.east1m; Example.east11m])
             (Example.request 20) [Example.origin; Example.east1m; Example.east11m]
             Example.clock Example.seed
             (served_fixedRoute _ _)); [zdecide | split; zdecide | distances].
Defined.

(** C7, refuted as stated: a horizon of 16 and a route whose first
    waypoint has a NaN latitude. The distance of the first segment is
    NaN, its duration [int(NaN)] is negative, and the second turn of the
    segment loop reads [speedProfile] at that negative index. *)
Lemma C7_counterexample :
  3 <= horizonOf 20 /\
  @served (fixedRoute [nanPoint; Example.origin; Example.east11m])
    (Example.request 20) [nanPoint; Example.origin; Example.east11m] /\
  (exists speedProfile s1,
     @createSpeedProfile lcgRand 16 AvgSpeed 0.2 Example.seed = Done (speedProfile, s1) /\
     @interpolateRoute nanMath lcgRand [nanPoint; Example.origin; Example.east11m]
       speedProfile 14 s1
     = Panicked (IndexOutOfRange (- 2 ^ 63) 16)) /\
  @HandleGenerateFileSingleMarker nanMath lcgRand
    (fixedRoute [nanPoint; Example.origin; Example.east11m])
    (Value (Example.request 20)) Example.clock Example.seed
  = Panicked (IndexOutOfRange (- 2 ^ 63) 16).
Proof.
  split; [zdecide|]. split; [apply served_fixedRoute|]. split.
  - eexists. eexists. split; [vm_compute; reflexivity|].
    vm_compute. reflexivity.
  - vm_compute. reflexivity.
Qed.


Lemma C9_elevation_series_witness :
  @extractElevationChanges refMath lcgRand [Example.origin; Example.east11m] 10
    Example.seed
  = Done (@specElevationSeries refMath [Example.origin; Example.east11m] 10,
          Example.seed) /\
  len (@specElevationSeries refMath [Example.origin; Example.east11m] 10) = 10.
Proof.
  apply (@C9_elevation_series refMath lcgRand). lia.
Defined.

Lemma C10_single_waypoint_witness :
  exists s',
    @HandleGenerateFileSingleMarker refMath lcgRand (fixedRoute [Example.origin])
      (Value (Example.request 5)) Example.clock Example.seed
    = Done (mkResponse 200 (ResultJSON (mkResult [] [] [] [])), s').
Proof.
  apply (@C10_single_waypoint refMath lcgRand (fixedRoute [Example.origin])
           (Example.request 5) Example.origin).
  - apply served_fixedRoute.
  - zdecide.
Defined.

(** The variates of the reference source are bounded, and its integers
    are in range. *)
Lemma lcg_noise_below s0 : below 900 (fst (@NormFloat64 lcgRand s0)).
Proof.
  change (fst (@NormFloat64 lcgRand s0))
    with ((float64_of_int ((Ref.lcg_next s0 / 2 ^ 32) mod 8001) - 4000) / 1000)%float.
  apply (below_le (66 - 10 + 2)); [|lia].
  apply div_below; [|fconst|fconst|lia].
  change 66 with (Z.max 64 12 + 2). apply sub_below; [|fconst|lia].
  apply float64_of_int_below.
  pose proof (Z.mod_pos_bound (Ref.lcg_next s0 / 2 ^ 32) 8001 ltac:(lia)). lia.
Qed.


Lemma C4_speed_floor_witness :
  exists speedProfile s',
    @createSpeedProfile lcgRand 3 AvgSpeed 0.2 Example.seed = Done (speedProfile, s') /\
    len speedProfile = 3 /\
    Forall (fun v => (AvgSpeed * 0.90 <=? v)%float = true) speedProfile.
Proof.
  apply (@C4_speed_floor lcgRand 3 AvgSpeed 0.2 Example.seed).
  - split; zdecide.
  - reflexivity.
  - fconst.
  - intros s0. apply number_is_nan. apply (below_number 900). apply lcg_noise_below.
Defined.


(** * Part V: the handler's responses, the request limiter, [parseGPX]
      and the front end *)

(** ** The handler *)

Section Handler.
Context {math : MathPkg} {rand : RandPkg} {up : Upstream}.

(** X1. Every response of the handler is one of five: the record with
    status 200; "Invalid request" with 400 when the body did not bind;
    or, with 500, the provider's error, the parser's error, or "No track
    points found in the route." when the route parsed to no point. An
    error response leaves the random source as it was; the response
    about mismatching timestamps is never sent. *)
Theorem handler_responses bound now s resp s' :
  HandleGenerateFileSingleMarker bound now s = Done (resp, s') ->
  (status resp = 200 /\ exists r, body resp = ResultJSON r) \/
  (s' = s /\
   ((status resp = 400 /\ body resp = ErrorJSON "Invalid request" /\
     exists err, bound = Error err) \/
    (status resp = 500 /\
     exists requestBody, bound = Value requestBody /\
       let fetched :=
         fetchRoundTripRoute
           (sLon (startCoords requestBody), sLat (startCoords requestBody))
           API_KEY (RouteLength requestBody) 5 (routeTypeOf requestBody) in
       ((exists err, fetched = Error err /\
           body resp = ErrorJSON ("An error occurred while fetching GPX data: " ++ err)) \/
        (exists gpxData err, fetched = Value gpxData /\ parseGPX gpxData = Error err /\
           body resp = ErrorJSON ("An error occurred while parsing GPX data: " ++ err)) \/
        (exists gpxData, fetched = Value gpxData /\ parseGPX gpxData = Value [] /\
           body resp = ErrorJSON "No track points found in the route."))))).
Proof.
  intros H. destruct bound as [requestBody|err].
  2:{ injection H as <- <-. right. split; [reflexivity|]. left.
      split; [reflexivity|]. split; [reflexivity|]. now exists err. }
  unfold HandleGenerateFileSingleMarker in H. cbv zeta in H.
  fold (routeTypeOf requestBody) in H.
  destruct (fetchRoundTripRoute _ _ _ _ _) as [gpxData|err] eqn:Hf.
  2:{ injection H as <- <-. right. split; [reflexivity|]. right.
      split; [reflexivity|]. exists requestBody. split; [reflexivity|].
      cbv zeta. rewrite Hf. left. now exists err. }
  destruct (parseGPX gpxData) as [points|err] eqn:Hp.
  2:{ injection H as <- <-. right. split; [reflexivity|]. right.
      split; [reflexivity|]. exists requestBody. split; [reflexivity|].
      cbv zeta. rewrite Hf. right. left. now exists gpxData, err. }
  destruct (Z.eqb_spec (len points) 0) as [H0|H0].
  - injection H as <- <-. right. split; [reflexivity|]. right.
    split; [reflexivity|]. exists requestBody. split; [reflexivity|].
    cbv zeta. rewrite Hf. right. right. exists gpxData.
    apply len_0_nil in H0. subst points. auto.
  - left. destruct (traced_complete _ _ _ _ _ _ H) as (tr & Htr).
    destruct Htr as (_ & _ & _ & _ & _ & _ & _ & _ & ->).
    split; [reflexivity|]. eexists. reflexivity.
Qed.

(** X2. In every record the timestamp at index [i] is the clock reading
    of the run plus [i] seconds (as long as [i] seconds fit a
    [time.Duration]). *)
Theorem record_timestamps bound now s resp s' r :
  HandleGenerateFileSingleMarker bound now s = Done (resp, s') ->
  body resp = ResultJSON r ->
  forall i, 0 <= i < len (Timestamps r) -> i <= 9223372036 ->
    elem (Timestamps r) i (now + i * Second).
Proof.
  intros H Hr i Hi Hsmall.
  destruct (handler_result _ _ _ _ _ _ H Hr) as (rb & pts & _ & _ & _ & Hrun).
  destruct (traced_complete _ _ _ _ _ _ Hrun) as (tr & Htr).
  destruct Htr as (_ & _ & _ & _ & _ & _ & _ & _ & ->).
  cbn in Hr. injection Hr as <-. cbn [Timestamps] in *.
  rewrite len_timestampsOf in Hi by apply len_nonneg.
  pose proof (elem_timestampsOf (len (t_interpolatedPoints tr)) 1 now i Hi) as He.
  unfold Time_Add in He. rewrite Z.mul_1_r in He.
  rewrite (wrap64_small i) in He by lia.
  rewrite wrap64_small in He by (unfold Second; lia).
  exact He.
Qed.

(** X3. Every record that is not empty starts the same way, whatever the
    random source and the route: at the clock reading, with a heart rate
    of 100 and the pace of 1.8 m/s. *)
Theorem record_first_sample bound now s resp s' r :
  HandleGenerateFileSingleMarker bound now s = Done (resp, s') ->
  body resp = ResultJSON r ->
  1 <= len (Route r) ->
  elem (Timestamps r) 0 now /\
  elem (BPMProfile r) 0 100 /\
  elem (PaceProfile r) 0 (1000 / (1.8 * 60))%float.
Proof.
  intros H Hr Hn.
  destruct (handler_result _ _ _ _ _ _ H Hr) as (rb & pts & _ & _ & _ & Hrun).
  destruct (traced_complete _ _ _ _ _ _ Hrun) as (tr & Htr).
  pose proof Htr as (Hh & Hsp & Hbpm & _ & _ & Hadj & _ & Hpace & ->).
  cbn in Hr. injection Hr as <-. cbn [Timestamps BPMProfile PaceProfile Route] in *.
  rewrite len_map in Hn.
  pose proof (horizonOf_range (RouteLength rb)) as Hhr.
  split; [|split].
  - pose proof (elem_timestampsOf (len (t_interpolatedPoints tr)) 1 now 0 ltac:(lia)) as He.
    change (wrap64 (wrap64 (0 * 1) * Second)) with 0 in He.
    unfold Time_Add in He. rewrite Z.add_0_r in He. exact He.
  - pose proof (wlp_Done _ _ _ _ _
                  (createBPMProfile_spec True _ _ _ _ _ _ (or_introl I)) Hbpm)
      as (_ & _ & Hfirst & _).
    pose proof (wlp_Done _ _ _ _ _
                  (adjustProfile_spec True _ _ _ (len_nonneg _) (or_introl I)) Hadj)
      as (_ & _ & _ & Hkeep).
    apply (elem_map int_of_float64) with (v := (AvgBPM - 20)%float).
    apply Hkeep; [lia | exact Hfirst].
  - pose proof (wlp_Done _ _ _ _ _
                  (createPaceProfile_spec True _ _ _ (len_nonneg _)) Hpace)
      as (_ & _ & Hderived & _).
    apply (Hderived 0 1.8%float); [lia|].
    eapply speedProfile_first; [exact Hsp | exact Hhr].
Qed.

(** X4. In a record, below the horizon every pace is [1000 / (speed * 60)]
    of the speed sample at its index, which is at the floor or above (the
    sentinel 999 is never used); from the horizon on the paces are 0. The
    normal variates are assumed not to be NaN. *)
Theorem record_paces routeLength points now s tr resp s' r :
  traced routeLength points now s tr resp s' ->
  body resp = ResultJSON r ->
  (forall s0, is_nan (fst (NormFloat64 s0)) = false) ->
  forall i, 0 <= i < len (PaceProfile r) ->
    (i < horizonOf routeLength ->
     exists speed, elem (t_speedProfile tr) i speed /\
                   (AvgSpeed * 0.90 <=? speed)%float = true /\
                   elem (PaceProfile r) i (1000 / (speed * 60))%float) /\
    (horizonOf routeLength <= i -> elem (PaceProfile r) i 0%float).
Proof.
  intros Htr Hr Hnoise i Hi.
  pose proof (traced_lengths _ _ _ _ _ _ _ Htr) as (Hlsp & _ & _ & _ & _ & Hlp).
  destruct Htr as (Hh & Hsp & _ & _ & _ & _ & _ & Hpace & ->).
  cbn in Hr. injection Hr as <-. cbn [PaceProfile] in *.
  pose proof (wlp_Done _ _ _ _ _
                (createPaceProfile_spec True _ _ _ (len_nonneg _)) Hpace)
    as (_ & _ & Hderived & Hrest).
  rewrite Hlp in Hi. rewrite Hlsp in Hrest.
  split.
  - intros Hlt.
    destruct (elem_exists (t_speedProfile tr) i ltac:(lia)) as [speed Hspeed].
    exists speed. split; [exact Hspeed|].
    assert (Hfloor : (AvgSpeed * 0.90 <=? speed)%float = true).
    { eapply speedProfile_floor; [exact Hsp | apply horizonOf_range | exact Hnoise
                                 | exact Hspeed]. }
    split; [exact Hfloor|].
    pose proof (Hderived i speed ltac:(lia) Hspeed) as Hp.
    unfold paceOf in Hp.
    rewrite (floor_positive (AvgSpeed * 0.90) speed) in Hp; [exact Hp | reflexivity | exact Hfloor].
  - intros Hge. apply Hrest. lia.
Qed.

(** X5. In a record, the heart rate at an index below the length of the
    generated profile (horizon - 2) is [int] of the generated sample;
    from there on it is [int] of the last generated sample. *)
Theorem record_heart_rates routeLength points now s tr resp s' r :
  traced routeLength points now s tr resp s' ->
  body resp = ResultJSON r ->
  forall i, 0 <= i < len (BPMProfile r) ->
    (i < horizonOf routeLength - 2 ->
     exists v, elem (t_bpmProfileFloat tr) i v /\
               elem (BPMProfile r) i (int_of_float64 v)) /\
    (horizonOf routeLength - 2 <= i ->
     exists last, elem (t_bpmProfileFloat tr) (horizonOf routeLength - 3) last /\
                  elem (BPMProfile r) i (int_of_float64 last)).
Proof.
  intros Htr Hr i Hi.
  pose proof (traced_lengths _ _ _ _ _ _ _ Htr) as (_ & Hlb & _ & Hla & _).
  destruct Htr as (Hh & _ & _ & _ & _ & Hadj & _ & _ & ->).
  cbn in Hr. injection Hr as <-. cbn [BPMProfile] in *.
  rewrite len_map, Hla in Hi.
  destruct (adjustProfile_run _ _ _ _ _ Hadj) as [Hkeep Hpad].
  split.
  - intros Hlt.
    destruct (elem_exists (t_bpmProfileFloat tr) i ltac:(lia)) as [v Hv].
    exists v. split; [exact Hv|]. apply elem_map. apply Hkeep; [lia | exact Hv].
  - intros Hge.
    destruct (elem_exists (t_bpmProfileFloat tr) (horizonOf routeLength - 3) ltac:(lia))
      as [last Hlast].
    exists last. split; [exact Hlast|]. apply elem_map.
    apply Hpad; [lia|]. rewrite Hlb.
    replace (horizonOf routeLength - 2 - 1) with (horizonOf routeLength - 3) by lia.
    exact Hlast.
Qed.

(** X6. The reconciliation of a profile with a trajectory of [n] samples:
    the first [n] samples when the profile is long enough, the profile
    followed by copies of its last sample when it is shorter, and a panic
    (index -1) on an empty profile when [n] is positive. *)
Theorem adjustProfile_closed profile totalInterpolated s :
  0 <= totalInterpolated ->
  (totalInterpolated <= len profile ->
   adjustProfile profile totalInterpolated s
   = Done (firstn (Z.to_nat totalInterpolated) profile, s)) /\
  (forall last, len profile < totalInterpolated ->
     elem profile (len profile - 1) last ->
     adjustProfile profile totalInterpolated s
     = Done (profile ++ repeat last (Z.to_nat (totalInterpolated - len profile)), s)) /\
  (0 < totalInterpolated ->
   adjustProfile [] totalInterpolated s = Panicked (IndexOutOfRange (-1) 0)).
Proof.
  intros Hn. split; [|split].
  - intros Hle. unfold adjustProfile.
    destruct (Z.ltb_spec (len profile) totalInterpolated); [lia|].
    unfold lift, slice_to.
    destruct (Z.leb_spec 0 totalInterpolated); [|lia].
    destruct (Z.leb_spec totalInterpolated (len profile)); [|lia]. reflexivity.
  - intros last Hlt Hlast. unfold adjustProfile.
    destruct (Z.ltb_spec (len profile) totalInterpolated); [|lia].
    erewrite bind_Done by (unfold lift; rewrite (get_elem _ _ _ Hlast); reflexivity).
    apply for_range_append_const.
  - intros Hpos. unfold adjustProfile. change (len (@nil float)) with 0.
    destruct (Z.ltb_spec 0 totalInterpolated); [|lia]. reflexivity.
Qed.

(** X7. [interpolatePoints] reads the speed at [currentTime], or at the
    last index when [currentTime] is beyond it; it returns [numSeconds]
    samples (none when that is negative), the one of turn [i] being
    [interpolatedPoint]; it leaves the random source alone; it panics on
    an empty speed profile and on a negative [currentTime]. *)
Theorem interpolatePoints_closed p1 p2 speedProfile totalTime currentTime s :
  let distance := haversineDistance (Lat p1) (Lon p1) (Lat p2) (Lon p2) in
  let index :=
    if currentTime >=? len speedProfile then len speedProfile - 1 else currentTime in
  (forall speed, elem speedProfile index speed ->
     let numSeconds := numSecondsOf distance speed in
     exists pts,
       interpolatePoints p1 p2 speedProfile totalTime currentTime s = Done (pts, s) /\
       len pts = Z.max 0 numSeconds /\
       forall i, 1 <= i <= numSeconds ->
         elem pts (i - 1) (interpolatedPoint p1 p2 speed numSeconds i)) /\
  (speedProfile = [] -> 0 <= currentTime ->
   interpolatePoints p1 p2 speedProfile totalTime currentTime s
   = Panicked (IndexOutOfRange (-1) 0)) /\
  (currentTime < 0 ->
   interpolatePoints p1 p2 speedProfile totalTime currentTime s
   = Panicked (IndexOutOfRange currentTime (len speedProfile))).
Proof.
  cbv zeta. split; [|split].
  - intros speed Hspeed. unfold interpolatePoints. cbv zeta.
    erewrite bind_Done by (unfold lift; rewrite (get_elem _ _ _ Hspeed); reflexivity).
    set (n := numSecondsOf _ speed).
    eexists. split; [|split].
    + rewrite <- (for_range_append (interpolatedPoint p1 p2 speed n) 1 (n + 1) [] s).
      apply for_range_ext. intros i l s1. unfold interpolatedPoint. cbv zeta.
      now destruct (destinationPoint _ _ _ _).
    + simpl. unfold len. rewrite !length_map, length_seq. lia.
    + intros i Hi. cbn [app].
      replace i with (1 + (i - 1)) at 2 by lia.
      apply elem_seq_map. lia.
  - intros -> Hct. unfold interpolatePoints. cbv zeta. change (len (@nil float)) with 0.
    destruct (Z.geb_spec currentTime 0) as [Hge|Hlt]; [reflexivity | lia].
  - intros Hneg. unfold interpolatePoints. cbv zeta.
    pose proof (len_nonneg speedProfile).
    destruct (Z.geb_spec currentTime (len speedProfile)); [lia|].
    unfold bind, lift, get. destruct (Z.ltb_spec currentTime 0); [|lia]. reflexivity.
Qed.

(** X8. A route of two waypoints with a horizon of at least 3 is always
    answered with a record, whose length depends on the distance alone,
    not on the requested route length: it is the [numSeconds] that
    [interpolatePoints] computes for the distance at the first speed,
    1.8 m/s (1 when the quotient truncates to 0; no sample when it is
    negative). Its route holds the samples of that one segment. *)
Theorem two_waypoints requestBody p1 p2 now s :
  served requestBody [p1; p2] ->
  3 <= horizonOf (RouteLength requestBody) ->
  let numSeconds :=
    numSecondsOf (haversineDistance (Lat p1) (Lon p1) (Lat p2) (Lon p2)) 1.8 in
  exists resp s' r,
    HandleGenerateFileSingleMarker (Value requestBody) now s = Done (resp, s') /\
    status resp = 200 /\ body resp = ResultJSON r /\
    len (Route r) = Z.max 0 numSeconds /\
    forall i, 1 <= i <= numSeconds ->
      elem (Route r) (i - 1) (toCoordinate (interpolatedPoint p1 p2 1.8 numSeconds i)).
Proof.
  intros Hserved Hh. cbv zeta.
  rewrite (handler_served _ _ _ Hserved ltac:(discriminate)).
  pose proof (horizonOf_range (RouteLength requestBody)) as Hhr.
  assert (Hfirst : forall sp s1,
             createSpeedProfile (horizonOf (RouteLength requestBody)) AvgSpeed 0.2 s
             = Done (sp, s1) -> elem sp 0 1.8%float).
  { intros sp s1 Hrun. eapply speedProfile_first; eauto. }
  destruct (wp_Done _ _ _
              (synthesize_interpolating False (RouteLength requestBody) [p1; p2] now s
                 (or_intror Hh)
                 (fun sp s1 s3 Hrun =>
                    match interpolateRoute_two p1 p2 sp _ s3 1.8%float (Hfirst sp s1 Hrun)
                    with
                    | ex_intro _ pts (conj _ H) => wpx_eq False _ _ _ _ _ H eq_refl
                    end)))
    as (resp & s' & Hrun & tr & Htr).
  pose proof Htr as (_ & Hsp & _ & _ & Hint & _ & _ & _ & Hresp).
  destruct (interpolateRoute_two p1 p2 (t_speedProfile tr)
              (horizonOf (RouteLength requestBody) - 2) s' 1.8%float
              (Hfirst _ _ Hsp)) as (pts & Hpts & Hroute).
  rewrite Hroute in Hint. injection Hint as Hint.
  assert (Hidx : elem (t_speedProfile tr)
                   (if 0 >=? len (t_speedProfile tr) then len (t_speedProfile tr) - 1 else 0)
                   1.8%float).
  { pose proof (elem_lt _ _ _ (Hfirst _ _ Hsp)).
    destruct (Z.geb_spec 0 (len (t_speedProfile tr))); [lia | eauto]. }
  destruct (interpolatePoints_run p1 p2 (t_speedProfile tr)
              (horizonOf (RouteLength requestBody) - 2) 0 s' 1.8%float Hidx)
    as (pts' & Hpts' & Hlen & Helem).
  rewrite Hpts in Hpts'. injection Hpts' as <-.
  exists resp, s'. eexists. split; [exact Hrun|]. rewrite Hresp.
  split; [reflexivity|]. split; [reflexivity|]. cbn [Route].
  rewrite <- Hint, len_map. split; [exact Hlen|].
  intros i Hi. apply elem_map. now apply Helem.
Qed.

(** X9. The horizon [int(1.3 * int(routeLength / 1.5))] is at least 3
    exactly when the route length is at least 5 (for route lengths
    below [2 ^ 58]). *)
Theorem horizon_threshold routeLength :
  - 2 ^ 63 <= routeLength < 2 ^ 58 ->
  (3 <= horizonOf routeLength <-> 5 <= routeLength).
Proof.
  intros Hr. split.
  - intros Hh. destruct (Z.le_gt_cases 5 routeLength) as [|Hlt]; [assumption|].
    pose proof (horizonOf_small routeLength ltac:(lia)). lia.
  - intros H5. apply horizonOf_large. lia.
Qed.

(** X10. A request for a route length of 4 or less (zero and negative
    lengths included) makes the handler panic, once the provider has
    answered with a route that is not empty. *)
Theorem short_route_panics requestBody points now s :
  served requestBody points -> len points <> 0 ->
  - 2 ^ 63 <= RouteLength requestBody <= 4 ->
  exists p,
    HandleGenerateFileSingleMarker (Value requestBody) now s = Panicked p /\
    rangePanic p.
Proof.
  intros Hserved Hne Hr.
  rewrite (handler_served _ _ _ Hserved Hne).
  apply synthesize_short_horizon. now apply horizonOf_small.
Qed.

End Handler.

(** ** The request limiter *)

(** X11. In every state the limiter reaches from [NewHandler], each
    client's count is between 0 and the threshold 5, at most one reset
    goroutine of a client is asleep, and none is for a client without an
    entry. *)
Theorem limiter_invariant es sv log :
  run es started = Some (sv, log) ->
  forall clientIP,
    0 <= sleeping sv clientIP <= 1 /\
    match client_counter (handler sv) clientIP with
    | Some clientInfo => 0 <= Count clientInfo <= CLIENT_USE_THRESHOLD
    | None => sleeping sv clientIP = 0
    end.
Proof. intros Hrun. exact (limited_run es started sv log limited_started Hrun). Qed.

(** X12. As long as no reset of a client runs, the client's requests pass
    until its count reaches 5 and are answered 429 "Too many requests"
    from then on, whatever other clients do in between. *)
Theorem limiter_quota es sv sv' log clientIP :
  run es sv = Some (sv', log) ->
  wakesOf clientIP es = 0 ->
  0 <= countOf (handler sv) clientIP <= CLIENT_USE_THRESHOLD ->
  verdictsOf clientIP log
  = repeat Passed
      (Z.to_nat (Z.min (requestsOf clientIP es)
                   (CLIENT_USE_THRESHOLD - countOf (handler sv) clientIP)))
    ++ repeat (Aborted 429 "Too many requests")
         (Z.to_nat (requestsOf clientIP es
                    - Z.min (requestsOf clientIP es)
                        (CLIENT_USE_THRESHOLD - countOf (handler sv) clientIP))).
Proof.
  intros Hrun Hw Hc. exact (proj1 (quota_run es sv sv' log clientIP Hrun Hw Hc)).
Qed.

(** X13. A client that has an entry while no reset goroutine of it is
    asleep is never reset again: no later run contains a reset of it, its
    entry stays, and after [5 - Count] more requests every request of it
    is answered 429. (A reset goroutine is started only by the request
    that creates the entry; a reset that finds the client seen less than
    five minutes ago keeps the entry.) *)
Theorem limiter_lockout es sv sv' log clientIP clientInfo :
  client_counter (handler sv) clientIP = Some clientInfo ->
  sleeping sv clientIP = 0 ->
  0 <= Count clientInfo <= CLIENT_USE_THRESHOLD ->
  run es sv = Some (sv', log) ->
  wakesOf clientIP es = 0 /\
  sleeping sv' clientIP = 0 /\
  (exists clientInfo',
     client_counter (handler sv') clientIP = Some clientInfo' /\
     Count clientInfo'
     = Z.min CLIENT_USE_THRESHOLD (Count clientInfo + requestsOf clientIP es)) /\
  verdictsOf clientIP log
  = repeat Passed
      (Z.to_nat (Z.min (requestsOf clientIP es) (CLIENT_USE_THRESHOLD - Count clientInfo)))
    ++ repeat (Aborted 429 "Too many requests")
         (Z.to_nat (requestsOf clientIP es
                    - Z.min (requestsOf clientIP es)
                        (CLIENT_USE_THRESHOLD - Count clientInfo))).
Proof.
  intros Hci Hsl Hc Hrun.
  assert (Hsome : client_counter (handler sv) clientIP <> None) by congruence.
  pose proof (settled_run es sv sv' log clientIP Hrun Hsome Hsl) as Hw.
  assert (Hcnt : countOf (handler sv) clientIP = Count clientInfo)
    by (unfold countOf; now rewrite Hci).
  destruct (quota_run es sv sv' log clientIP Hrun Hw ltac:(rewrite Hcnt; exact Hc))
    as (Hv & Hcount & Hkeep).
  destruct (Hkeep Hsome) as [Hk1 Hk2].
  rewrite Hcnt in *.
  split; [exact Hw|]. split; [congruence|]. split; [|exact Hv].
  unfold countOf in Hcount.
  destruct (client_counter (handler sv') clientIP) as [ci'|]; [|congruence].
  exists ci'. auto.
Qed.

(** X14. A new client that sends one request and is then silent for
    five minutes is forgotten by its reset, whatever other clients do in
    between: its request passes, and afterwards it has no entry. *)
Theorem limiter_forgets sv clientIP t0 es t sv' log :
  client_counter (handler sv) clientIP = None ->
  sleeping sv clientIP = 0 ->
  Forall (fun e => clientOf e <> clientIP) es ->
  CLIENT_USE_RESET_TIME <= t - t0 ->
  run (Request clientIP t0 :: es ++ [Wake clientIP t]) sv = Some (sv', log) ->
  verdictsOf clientIP log = [Passed] /\
  client_counter (handler sv') clientIP = None /\
  sleeping sv' clientIP = 0.
Proof.
  intros Hnone Hsl Hothers Ht Hrun.
  change (Request clientIP t0 :: es ++ [Wake clientIP t])
    with ([Request clientIP t0] ++ es ++ [Wake clientIP t]) in Hrun.
  rewrite run_app in Hrun.
  assert (E1 : run [Request clientIP t0] sv
               = Some (mkServer
                         (mkHandler (assign (client_counter (handler sv)) clientIP
                                       (mkClientInfo 1 t0)))
                         (bump (sleeping sv) clientIP 1),
                       [(clientIP, Passed)])).
  { cbn [run step]. unfold Middleware. rewrite Hnone. reflexivity. }
  rewrite E1 in Hrun. rewrite run_app in Hrun.
  destruct (run es _) as [[sv1 log1]|] eqn:E2; [|discriminate].
  destruct (run_others _ _ _ _ clientIP E2 Hothers) as (H1 & H2 & H3).
  cbn [handler client_counter sleeping] in H1, H2.
  rewrite assign_same in H1. rewrite bump_same, Hsl in H2.
  cbn [run step] in Hrun. rewrite H2 in Hrun.
  change (0 <? 0 + 1) with true in Hrun. cbv iota in Hrun.
  injection Hrun as <- <-.
  change ((clientIP, Passed) :: log1 ++ []) with ([(clientIP, Passed)] ++ log1 ++ []).
  rewrite !verdictsOf_app, verdictsOf_single, H3. cbn [app handler sleeping].
  split; [reflexivity|].
  unfold resetClientCounter. rewrite H1. cbn [LastSeen]. unfold Since.
  destruct (Z.geb_spec (t - t0) CLIENT_USE_RESET_TIME); [|lia].
  cbn [client_counter]. rewrite delete_same, bump_same, H2. auto.
Qed.

(** ** [parseGPX] *)

Section Parsing.
Context {math : MathPkg} {rand : RandPkg} {text : TextPkg}.

(** X15. [parseGPX] fails only when the XML decoding fails. Otherwise it
    returns the entries of the route whose latitude, longitude and
    elevation all parse, in document order; the others are left out. *)
Theorem parseGPX_points gpxData :
  match Unmarshal gpxData with
  | Error err => Parse.parseGPX gpxData = Error err
  | Value rtepts =>
      exists points,
        Parse.parseGPX gpxData = Value points /\
        Forall2 readsAs (filter parses rtepts) points /\
        len points <= len rtepts
  end.
Proof.
  unfold Parse.parseGPX. destruct (Unmarshal gpxData) as [rtepts|err]; [|reflexivity].
  destruct (fold_parsePoint rtepts []) as (kept & -> & Hk).
  exists kept. split; [reflexivity|]. split; [exact Hk|].
  apply Forall2_length in Hk. unfold len. rewrite <- Hk.
  pose proof (filter_length_le parses rtepts). lia.
Qed.

(** X16. When the provider's document decodes but none of its entries
    has three values that parse, the handler answers 500 "No track
    points found in the route." and leaves the random source alone. *)
Theorem handler_no_valid_point fetch requestBody gpxData rtepts now s :
  fetch (sLon (startCoords requestBody), sLat (startCoords requestBody))
    API_KEY (RouteLength requestBody) 5 (routeTypeOf requestBody) = Value gpxData ->
  Unmarshal gpxData = Value rtepts ->
  Forall (fun pt => parses pt = false) rtepts ->
  @HandleGenerateFileSingleMarker math rand (parsedUpstream fetch)
    (Value requestBody) now s
  = Done (mkResponse 500 (ErrorJSON "No track points found in the route."), s).
Proof.
  intros Hf Hu Hall.
  unfold HandleGenerateFileSingleMarker. cbv zeta.
  fold (routeTypeOf requestBody).
  cbn [fetchRoundTripRoute parsedUpstream parseGPX]. rewrite Hf.
  unfold Parse.parseGPX. rewrite Hu.
  destruct (fold_parsePoint rtepts []) as (kept & -> & Hk).
  assert (Hnone : filter parses rtepts = []).
  { clear -Hall. induction Hall as [|pt l Hpt _ IH]; [reflexivity|].
    cbn [filter]. now rewrite Hpt. }
  rewrite Hnone in Hk. inversion Hk. subst kept. reflexivity.
Qed.

End Parsing.

(** ** The front end *)

Section FrontEnd.
Context {Date : Type} (newDate : string -> Date).

(** X17. The two chart series of [RouteAnalysisPopup] have the length of
    the shortest of timestamps, heart rates and paces, and at each index
    pair the date of the timestamp with the heart rate, respectively the
    pace, of that index: no [y] is [undefined]. *)
Theorem popup_points timestamps bpmProfile paceProfile :
  let n := Popup.minLength timestamps bpmProfile paceProfile in
  len (Popup.bpmDataPoints newDate timestamps bpmProfile paceProfile) = n /\
  len (Popup.paceDataPoints newDate timestamps bpmProfile paceProfile) = n /\
  forall i, 0 <= i < n ->
    exists timestamp bpm pace,
      elem timestamps i timestamp /\ elem bpmProfile i bpm /\ elem paceProfile i pace /\
      elem (Popup.bpmDataPoints newDate timestamps bpmProfile paceProfile) i
        (Popup.mkDataPoint (newDate timestamp) (Some bpm)) /\
      elem (Popup.paceDataPoints newDate timestamps bpmProfile paceProfile) i
        (Popup.mkDataPoint (newDate timestamp) (Some pace)).
Proof.
  cbv zeta.
  pose proof (minLength_bounds timestamps bpmProfile paceProfile) as (H0 & Ht & Hb & Hp).
  cbv zeta in H0, Ht, Hb, Hp.
  destruct (dataPoints_spec newDate timestamps bpmProfile paceProfile bpmProfile Hb)
    as [Hl1 He1].
  destruct (dataPoints_spec newDate timestamps bpmProfile paceProfile paceProfile Hp)
    as [Hl2 He2].
  split; [exact Hl1|]. split; [exact Hl2|].
  intros i Hi.
  destruct (He1 i Hi) as (ts1 & bpm & Hts1 & Hbpm & Hd1).
  destruct (He2 i Hi) as (ts2 & pace & Hts2 & Hpace & Hd2).
  rewrite (elem_fun _ _ _ _ Hts2 Hts1) in Hd2.
  exists ts1, bpm, pace. auto.
Qed.

End FrontEnd.

(** X18. [ShiftingTitle]: with at least one title, after [k] changes
    the title on display is the one at index [k mod n], so the titles are
    shown in order, cyclically; without titles nothing is shown. *)
Theorem title_cycle titles k :
  match titles with
  | [] => ShiftingTitle.shown titles (ShiftingTitle.indexAfter (len titles) k) = None
  | _ :: _ =>
      ShiftingTitle.indexAfter (len titles) k = Some (Z.of_nat k mod len titles) /\
      exists title,
        elem titles (Z.of_nat k mod len titles) title /\
        ShiftingTitle.shown titles (ShiftingTitle.indexAfter (len titles) k) = Some title
  end.
Proof.
  destruct titles as [|t titles].
  - change (len (@nil string)) with 0.
    destruct k as [|k]; [reflexivity|].
    cbn [ShiftingTitle.indexAfter]. unfold ShiftingTitle.nextIndex.
    destruct (ShiftingTitle.indexAfter 0 k); reflexivity.
  - set (l := t :: titles).
    assert (Hn : 1 <= len l) by (unfold len, l; cbn [length]; lia).
    rewrite (indexAfter_mod _ _ Hn). split; [reflexivity|].
    pose proof (Z.mod_pos_bound (Z.of_nat k) (len l) ltac:(lia)) as Hb.
    destruct (elem_exists l (Z.of_nat k mod len l) Hb) as [title Ht].
    exists title. split; [exact Ht|].
    unfold ShiftingTitle.shown.
    destruct (Z.ltb_spec (Z.of_nat k mod len l) 0); [lia|].
    now destruct Ht.
Qed.

(** ** Closed instances *)

Lemma handler_responses_witness :
  exists resp s',
    @HandleGenerateFileSingleMarker refMath lcgRand (fixedRoute [])
      (Error "EOF") Example.clock Example.seed = Done (resp, s') /\
    (status resp = 200 \/ s' = Example.seed).
Proof.
  exists (mkResponse 400 (ErrorJSON "Invalid request")), Example.seed.
  split; [reflexivity|].
  destruct (@handler_responses refMath lcgRand (fixedRoute []) (Error "EOF")
              Example.clock Example.seed _ _ eq_refl) as [[H _]|[H _]]; auto.
Defined.

Ltac run20 H :=
  assert (H : exists resp s',
             @HandleGenerateFileSingleMarker refMath lcgRand
               (fixedRoute [Example.origin; Example.east1m; Example.east11m])
               (Value (Example.request 20)) Example.clock Example.seed = Done (resp, s') /\
             exists r, body resp = ResultJSON r /\ len (Route r) = 6 /\
                       len (Timestamps r) = 6)
    by (vm_compute; eexists; eexists; split; [reflexivity|];
        eexists; split; [reflexivity|]; split; reflexivity).

Lemma record_timestamps_witness :
  exists resp s' r,
    @HandleGenerateFileSingleMarker refMath lcgRand
      (fixedRoute [Example.origin; Example.east1m; Example.east11m])
      (Value (Example.request 20)) Example.clock Example.seed = Done (resp, s') /\
    body resp = ResultJSON r /\
    elem (Timestamps r) 5 (Example.clock + 5 * Second).
Proof.
  run20 H. destruct H as (resp & s' & H1 & r & H2 & H3 & H4).
  exists resp, s', r. split; [exact H1|]. split; [exact H2|].
  apply (@record_timestamps refMath lcgRand _ _ _ _ _ _ _ H1 H2); [rewrite H4|]; lia.
Defined.

Lemma record_first_sample_witness :
  exists resp s' r,
    @HandleGenerateFileSingleMarker refMath lcgRand
      (fixedRoute [Example.origin; Example.east1m; Example.east11m])
      (Value (Example.request 20)) Example.clock Example.seed = Done (resp, s') /\
    body resp = ResultJSON r /\
    elem (Timestamps r) 0 Example.clock /\
    elem (BPMProfile r) 0 100 /\
    elem (PaceProfile r) 0 (1000 / (1.8 * 60))%float.
Proof.
  run20 H. destruct H as (resp & s' & H1 & r & H2 & H3 & H4).
  exists resp, s', r. split; [exact H1|]. split; [exact H2|].
  apply (@record_first_sample refMath lcgRand _ _ _ _ _ _ _ H1 H2). lia.
Defined.

Lemma lcg_noise_number s0 : is_nan (fst (@NormFloat64 lcgRand s0)) = false.
Proof. apply number_is_nan. apply (below_number 900). apply lcg_noise_below. Qed.

Lemma record_paces_witness :
  exists tr resp s' r speed,
    @traced refMath lcgRand 20 [Example.origin; Example.east1m; Example.east11m]
      Example.clock Example.seed tr resp s' /\
    body resp = ResultJSON r /\
    elem (t_speedProfile tr) 0 speed /\
    elem (PaceProfile r) 0 (1000 / (speed * 60))%float.
Proof.
  assert (H : exists resp s',
             @synthesize refMath lcgRand 20
               [Example.origin; Example.east1m; Example.east11m]
               Example.clock Example.seed = Done (resp, s') /\
             exists r, body resp = ResultJSON r /\ len (PaceProfile r) = 6).
  { vm_compute. eexists. eexists. split; [reflexivity|].
    eexists. split; reflexivity. }
  destruct H as (resp & s' & H & r & Hr & Hlen).
  destruct (traced_complete _ _ _ _ _ _ H) as (tr & Htr).
  assert (Hh : horizonOf 20 = 16) by (vm_compute; reflexivity).
  destruct (@record_paces refMath lcgRand _ _ _ _ _ _ _ r Htr Hr lcg_noise_number 0
              ltac:(lia)) as [Hfirst _].
  destruct Hfirst as (speed & Hs & _ & Hp); [rewrite Hh; lia|].
  exists tr, resp, s', r, speed. auto.
Defined.

Lemma record_heart_rates_witness :
  exists tr resp s' r last,
    @traced refMath lcgRand 5 [Example.origin; Example.east11m]
      Example.clock Example.seed tr resp s' /\
    body resp = ResultJSON r /\
    elem (t_bpmProfileFloat tr) 0 last /\
    elem (BPMProfile r) 5 (int_of_float64 last).
Proof.
  assert (H : exists resp s',
             @synthesize refMath lcgRand 5 [Example.origin; Example.east11m]
               Example.clock Example.seed = Done (resp, s') /\
             exists r, body resp = ResultJSON r /\ len (BPMProfile r) = 6).
  { vm_compute. eexists. eexists. split; [reflexivity|].
    eexists. split; reflexivity. }
  destruct H as (resp & s' & H & r & Hr & Hlen).
  destruct (traced_complete _ _ _ _ _ _ H) as (tr & Htr).
  assert (Hh : horizonOf 5 = 3) by (vm_compute; reflexivity).
  destruct (@record_heart_rates refMath lcgRand _ _ _ _ _ _ _ r Htr Hr 5 ltac:(lia))
    as [_ Hpad].
  rewrite Hh in Hpad. destruct Hpad as (last & H1 & H2); [lia|].
  exists tr, resp, s', r, last. auto.
Defined.

Lemma adjustProfile_closed_witness :
  @adjustProfile lcgRand [60; 61]%float 4 Example.seed
  = Done ([60; 61; 61; 61]%float, Example.seed) /\
  @adjustProfile lcgRand [60; 61]%float 1 Example.seed = Done ([60]%float, Example.seed).
Proof.
  destruct (@adjustProfile_closed lcgRand [60; 61]%float 4 Example.seed ltac:(lia))
    as (_ & H & _).
  destruct (@adjustProfile_closed lcgRand [60; 61]%float 1 Example.seed ltac:(lia))
    as (H' & _).
  split.
  - rewrite (H 61%float); [reflexivity | vm_compute; reflexivity |].
    split; [vm_compute; intro; discriminate | reflexivity].
  - rewrite H'; [reflexivity | vm_compute; intro; discriminate].
Defined.

Lemma two_waypoints_witness :
  exists resp s' r,
    @HandleGenerateFileSingleMarker refMath lcgRand
      (fixedRoute [Example.origin; Example.east11m])
      (Value (Example.request 20)) Example.clock Example.seed = Done (resp, s') /\
    status resp = 200 /\ body resp = ResultJSON r /\ len (Route r) = 6.
Proof.
  destruct (@two_waypoints refMath lcgRand
              (fixedRoute [Example.origin; Example.east11m])
              (Example.request 20) Example.origin Example.east11m
              Example.clock Example.seed (served_fixedRoute _ _)
              ltac:(vm_compute; intro; discriminate))
    as (resp & s' & r & H1 & H2 & H3 & H4 & _).
  exists resp, s', r. split; [exact H1|]. split; [exact H2|]. split; [exact H3|].
  rewrite H4. vm_compute. reflexivity.
Defined.

Lemma horizon_threshold_witness :
  3 <= horizonOf 8000 /\ horizonOf 4 < 3.
Proof.
  split.
  - apply (horizon_threshold 8000); [split; zdecide | lia].
  - destruct (horizon_threshold 4 ltac:(split; zdecide)) as [H _].
    destruct (Z.lt_ge_cases (horizonOf 4) 3) as [|Hge]; [assumption|].
    specialize (H Hge). lia.
Defined.

Lemma short_route_panics_witness :
  exists p,
    @HandleGenerateFileSingleMarker refMath lcgRand
      (fixedRoute [Example.origin; Example.east11m])
      (Value (Example.request 4)) Example.clock Example.seed = Panicked p /\
    rangePanic p.
Proof.
  apply (@short_route_panics refMath lcgRand
           (fixedRoute [Example.origin; Example.east11m])
           (Example.request 4) [Example.origin; Example.east11m]
           Example.clock Example.seed (served_fixedRoute _ _)).
  - zdecide.
  - split; zdecide.
Defined.

Lemma limiter_invariant_witness :
  exists sv log,
    run Clients.busy started = Some (sv, log) /\
    0 <= sleeping sv Clients.clientA <= 1 /\
    countOf (handler sv) Clients.clientA = 5 /\
    client_counter (handler sv) Clients.clientB = None.
Proof.
  eexists. eexists. split; [reflexivity|].
  match goal with
  | |- _ <= sleeping ?sv _ <= _ /\ _ =>
      pose proof (limiter_invariant Clients.busy sv _ eq_refl Clients.clientA) as [HA _]
  end.
  split; [exact HA | split; reflexivity].
Defined.

Lemma limiter_quota_witness :
  exists sv log,
    run (removelast Clients.busy) started = Some (sv, log) /\
    verdictsOf Clients.clientA log
    = [Passed; Passed; Passed; Passed; Passed; Aborted 429 "Too many requests"].
Proof.
  eexists. eexists. split; [reflexivity|].
  rewrite (limiter_quota (removelast Clients.busy) started _ _ Clients.clientA eq_refl);
    [reflexivity | reflexivity |].
  vm_compute. split; intro; discriminate.
Defined.

Lemma limiter_lockout_witness :
  exists sv log0 sv' log,
    run Clients.returning started = Some (sv, log0) /\
    run Clients.later sv = Some (sv', log) /\
    sleeping sv' Clients.clientA = 0 /\
    verdictsOf Clients.clientA log
    = [Passed; Passed; Passed; Passed; Passed;
       Aborted 429 "Too many requests"; Aborted 429 "Too many requests"].
Proof.
  eexists. eexists. eexists. eexists. split; [reflexivity|].
  match goal with
  | |- run _ ?sv = _ /\ _ => pose (sv0 := sv)
  end.
  split; [reflexivity|].
  match goal with
  | |- sleeping ?sv' _ = _ /\ verdictsOf _ ?log = _ =>
      destruct (limiter_lockout Clients.later sv0 sv' log Clients.clientA
                  (mkClientInfo 0 (200 * Second))
                  eq_refl eq_refl ltac:(vm_compute; split; intro; discriminate) eq_refl)
        as (_ & Hs & _ & Hv)
  end.
  split; [exact Hs|]. rewrite Hv. reflexivity.
Defined.

Lemma limiter_forgets_witness :
  exists sv log,
    run [Request Clients.clientA 0; Request Clients.clientB 1;
         Wake Clients.clientA (300 * Second)] started = Some (sv, log) /\
    verdictsOf Clients.clientA log = [Passed] /\
    client_counter (handler sv) Clients.clientA = None.
Proof.
  eexists. eexists. split; [reflexivity|].
  match goal with
  | |- verdictsOf _ ?log = _ /\ client_counter (handler ?sv) _ = _ =>
      destruct (limiter_forgets started Clients.clientA 0 [Request Clients.clientB 1]
                  (300 * Second) sv log eq_refl eq_refl
                  ltac:(repeat constructor; discriminate)
                  ltac:(vm_compute; intro; discriminate) eq_refl)
        as (H1 & H2 & _)
  end.
  split; assumption.
Defined.

Lemma handler_no_valid_point_witness :
  @HandleGenerateFileSingleMarker refMath lcgRand
    (@parsedUpstream
       (decimalText [GPXParse.mkRtept "59" "10" ""; GPXParse.mkRtept "59" "ten" "12"])
       (fun _ _ _ _ _ => Value "<gpx/>"%string))
    (Value (Example.request 8000)) Example.clock Example.seed
  = Done (mkResponse 500 (ErrorJSON "No track points found in the route."), Example.seed).
Proof.
  apply (@handler_no_valid_point refMath lcgRand
           (decimalText [GPXParse.mkRtept "59" "10" ""; GPXParse.mkRtept "59" "ten" "12"])
           (fun _ _ _ _ _ => Value "<gpx/>"%string)
           (Example.request 8000) "<gpx/>"%string
           [GPXParse.mkRtept "59" "10" ""; GPXParse.mkRtept "59" "ten" "12"]).
  - reflexivity.
  - reflexivity.
  - repeat constructor.
Defined.
